(** * React tutorial lessons: the debounced-search / dynamic-fetch pattern

    A shallow embedding of the components of the lessons "14_Api_calling",
    "15_UseEffect_in_react" and "16_Gallery_project" that fetch data from an
    effect:

    - [DynamicFetch]          (14_Api_calling/src/components/DynamicFetch.jsx)
    - [FetchOnMount]          (14_Api_calling/src/components/FetchOnMount.jsx)
    - [SearchWithDebounce]    (14_Api_calling/src/components/SearchWithDebounce.jsx)
    - [DebounceSearchExample] (15_UseEffect_in_react/src/examples/DebounceSearchExample.jsx)
    - [Gallery]               (16_Gallery_project/src/App.jsx)

    A component is a record of its [useState] cells plus the bookkeeping of
    the environment it talks to (the requests it has sent, the timer it has
    armed, a virtual clock).  Event handlers, effects and the continuation
    of an [async] function after its [await] are functions on that record;
    the event loop is a [step] function folded over a list of events. *)

From stdpp Require Import base list strings pretty gmap.
From Stdlib Require Import ZArith Ascii.

Set Default Proof Using "Type".

(** ** JavaScript values and control flow shared by the components *)

Module JS.

(** *** Strings

    A string is a sequence of code units; the code units of the Latin-1
    range are the characters of [string]. *)

(** The white space and line terminator code units that
    [String.prototype.trim] strips: TAB, LF, VT, FF, CR, SP and NBSP. *)
Definition is_white_space (c : ascii) : bool :=
  bool_decide (nat_of_ascii c ∈ [9; 10; 11; 12; 13; 32; 160]).

Fixpoint trimStart (s : string) : string :=
  match s with
  | EmptyString => EmptyString
  | String c s' => if is_white_space c then trimStart s' else s
  end.

Fixpoint trimEnd (s : string) : string :=
  match s with
  | EmptyString => EmptyString
  | String c s' =>
      match trimEnd s' with
      | EmptyString => if is_white_space c then EmptyString else String c EmptyString
      | r => String c r
      end
  end.

(** [s.trim()] *)
Definition trim (s : string) : string := trimEnd (trimStart s).

(** Truthiness of a string: every string but the empty one. *)
Definition truthy (s : string) : bool :=
  match s with EmptyString => false | String _ _ => true end.

(** [s.startsWith(q)] *)
Fixpoint startsWith (s q : string) {struct q} : bool :=
  match q, s with
  | EmptyString, _ => true
  | String a q', String b s' => bool_decide (a = b) && startsWith s' q'
  | String _ _, EmptyString => false
  end.

(** [s.includes(q)]: [q] occurs in [s] at some position. *)
Fixpoint includes (s q : string) : bool :=
  startsWith s q ||
  match s with
  | EmptyString => false
  | String _ s' => includes s' q
  end.

(** *** Errors and the response of the HTTP client *)

(** What [axios.get] and [fetch] reject with; the code reads [err.message]. *)
Record JsError := { message : string }.

(** What [await axios.get(url)] evaluates to; the code reads
    [response.data]. *)
Record AxiosResponse (T : Type) := { data : T }.
Arguments data {T} _.
Arguments Build_AxiosResponse {T} _.

(** How an awaited promise settles. *)
Definition settled (T : Type) : Type := AxiosResponse T + JsError.

(** *** Statements that may throw

    A block of statements run on a component state [St] completes normally
    with a value or abruptly with a thrown error; state updates made before
    the throw are kept. *)

Inductive completion (A : Type) :=
  | Normal (a : A)
  | Throw (e : JsError).
Arguments Normal {A} a.
Arguments Throw {A} e.

Definition Eff (St A : Type) : Type := St → completion A * St.

Definition ret {St A} (a : A) : Eff St A := λ s, (Normal a, s).

Definition bind {St A B} (m : Eff St A) (k : A → Eff St B) : Eff St B :=
  λ s, match m s with
       | (Normal a, s') => k a s'
       | (Throw e, s') => (Throw e, s')
       end.

Definition throw {St A} (e : JsError) : Eff St A := λ s, (Throw e, s).

(** A state update [setX(v)]. *)
Definition update {St} (f : St → St) : Eff St () := λ s, (Normal (), f s).

(** [await p] where [p] settles as [o]: the value, or the rejection thrown
    at the [await]. *)
Definition await {St T} (o : settled T) : Eff St (AxiosResponse T) :=
  match o with
  | inl r => ret r
  | inr e => throw e
  end.

(** [try { body } catch (err) { handler(err) }] *)
Definition try_catch {St A} (body : Eff St A) (handler : JsError → Eff St A)
  : Eff St A :=
  λ s, match body s with
       | (Normal a, s') => (Normal a, s')
       | (Throw e, s') => handler e s'
       end.

(** [try { m } finally { fin }]: [fin] runs however [m] completes; the
    completion of [m] is kept unless [fin] itself throws. *)
Definition try_finally {St A} (m : Eff St A) (fin : Eff St ()) : Eff St A :=
  λ s, match m s with
       | (c, s') =>
           match fin s' with
           | (Normal _, s'') => (c, s'')
           | (Throw e, s'') => (Throw e, s'')
           end
       end.

(** [try { body } catch (err) { handler(err) } finally { fin }] *)
Definition try_catch_finally {St A}
    (body : Eff St A) (handler : JsError → Eff St A) (fin : Eff St ())
  : Eff St A :=
  try_finally (try_catch body handler) fin.

(** The state a block leaves behind, and whether it threw. *)
Definition exec {St A} (m : Eff St A) (s : St) : St := (m s).2.

Definition throws {St A} (m : Eff St A) (s : St) : bool :=
  match (m s).1 with Normal _ => false | Throw _ => true end.

End JS.

(** [Eff St] with stdpp's monad notations: [x ← m; k] and [m;; k]. *)
#[export] Instance Eff_ret {St} : MRet (JS.Eff St) := λ _, JS.ret.
#[export] Instance Eff_bind {St} : MBind (JS.Eff St) := λ _ _ k m, JS.bind m k.

(** ** The request status a consumer branches on *)

Inductive RequestStatus := Idle | Loading | Success | Error.

#[export] Instance RequestStatus_eq_dec : EqDecision RequestStatus.
Proof. solve_decision. Defined.

(** The state of one fetch cycle as the consumer reads it. *)
Record FetchState (T : Type) := {
  status : RequestStatus;
  fs_data : option T;
  fs_error : option string;
}.
Arguments status {T} _.
Arguments fs_data {T} _.
Arguments fs_error {T} _.
Arguments Build_FetchState {T} _ _ _.

(** A record of the JSONPlaceholder [/users] resource, with the fields the
    components read. *)
Record User := {
  user_id : Z;
  name : string;
  username : string;
  email : string;
  phone : string;
  website : string;
  company_name : string;
  address_city : string;
}.

#[export] Instance User_eq_dec : EqDecision User.
Proof. solve_decision. Defined.

(** ** DynamicFetch.jsx: re-fetch a user whenever [userId] changes *)

Module DynamicFetch.
Import JS.

(** The four [useState] cells, and the requests the component has handed
    to [axios.get]: [sent] lists the user ids asked for, oldest first (a
    request is named by its position in [sent]), [inflight] holds the
    requests whose promise has not settled yet. *)
Record state := {
  userId : Z;
  user : option User;
  loading : bool;
  error : option string;
  sent : list Z;
  inflight : gset nat;
}.

Definition setUserId (k : Z) (s : state) : state :=
  {| userId := k; user := user s; loading := loading s; error := error s;
     sent := sent s; inflight := inflight s |}.

Definition setUser (u : option User) (s : state) : state :=
  {| userId := userId s; user := u; loading := loading s; error := error s;
     sent := sent s; inflight := inflight s |}.

Definition setLoading (b : bool) (s : state) : state :=
  {| userId := userId s; user := user s; loading := b; error := error s;
     sent := sent s; inflight := inflight s |}.

Definition setError (e : option string) (s : state) : state :=
  {| userId := userId s; user := user s; loading := loading s; error := e;
     sent := sent s; inflight := inflight s |}.

(** [axios.get(`https://jsonplaceholder.typicode.com/users/${userId}`)]:
    the request leaves and its promise is pending. *)
Definition axios_get (k : Z) (s : state) : state :=
  {| userId := userId s; user := user s; loading := loading s; error := error s;
     sent := sent s ++ [k];
     inflight := {[ length (sent s) ]} ∪ inflight s |}.

(** The promise of request [req] settles. *)
Definition settle (req : nat) (s : state) : state :=
  {| userId := userId s; user := user s; loading := loading s; error := error s;
     sent := sent s; inflight := inflight s ∖ {[ req ]} |}.

(** The values passed to [useState]. *)
Definition initial : state :=
  {| userId := 1; user := None; loading := false; error := None;
     sent := []; inflight := ∅ |}.

(** [fetchUser], up to its [await]:
    [setLoading(true); setError(null); axios.get(...)]. *)
Definition fetchUser_start (s : state) : state :=
  axios_get (userId s) (setError None (setLoading true s)).

(** [fetchUser], from its [await] on, the promise having settled as [o]:
<<
      try { const response = await ...; setUser(response.data); }
      catch (err) { setError(err.message); }
      finally { setLoading(false); }
>> *)
Definition fetchUser_resume (o : settled User) : Eff state () :=
  try_catch_finally
    (response ← await o; update (setUser (Some (data response))))
    (λ err, update (setError (Some (message err))))
    (update (setLoading false)).

(** [useEffect(() => { ...; fetchUser(); }, [userId])] *)
Definition effect (s : state) : state := fetchUser_start s.

(** The first render: the effect runs once. *)
Definition mount : state := effect initial.

(** [onChange={(e) => setUserId(Number(e.target.value))}]: the effect runs
    again when the dependency [userId] has changed. *)
Definition onChange (k : Z) (s : state) : state :=
  if decide (k = userId s) then s else effect (setUserId k s).

(** What the event loop delivers to the component. *)
Inductive event :=
  | Select (k : Z)
  | Settle (req : nat) (o : settled User).

Definition Resolve (req : nat) (u : User) : event :=
  Settle req (inl (Build_AxiosResponse u)).

Definition Reject (req : nat) (msg : string) : event :=
  Settle req (inr {| message := msg |}).

Definition step (s : state) (e : event) : state :=
  match e with
  | Select k => onChange k s
  | Settle req o =>
      if decide (req ∈ inflight s)
      then exec (fetchUser_resume o) (settle req s)
      else s
  end.

Definition run (s : state) (evs : list event) : state := foldl step s evs.

(** The request issued last: the one a token check would call current. *)
Definition is_latest (s : state) (req : nat) : Prop := S req = length (sent s).

(** The status of the fetch cycle, read off the cells: [Loading] while the
    [loading] flag is set, [Error] when an error is recorded, [Success] when
    a user is there, [Idle] otherwise.  The render tests the cells in three
    independent blocks; where several apply, the order here is that of the
    early returns of FetchOnMount (loading, then error, then data). *)
Definition status_of (s : state) : RequestStatus :=
  if loading s then Loading
  else if error s is Some _ then Error
  else if user s is Some _ then Success
  else Idle.

Definition fetchState (s : state) : FetchState User :=
  {| status := status_of s; fs_data := user s; fs_error := error s |}.

End DynamicFetch.

(** ** FetchOnMount.jsx: fetch the posts once, on mount *)

Module FetchOnMount.
Import JS.

Record Post := { post_id : Z; title : string; body : string }.

Record state := {
  posts : list Post;
  loading : bool;
  error : option string;
  inflight : bool;
}.

Definition setPosts (p : list Post) (s : state) : state :=
  {| posts := p; loading := loading s; error := error s; inflight := inflight s |}.

Definition setLoading (b : bool) (s : state) : state :=
  {| posts := posts s; loading := b; error := error s; inflight := inflight s |}.

Definition setError (e : option string) (s : state) : state :=
  {| posts := posts s; loading := loading s; error := e; inflight := inflight s |}.

Definition initial : state :=
  {| posts := []; loading := true; error := None; inflight := false |}.

(** [fetchPosts] up to its [await]: [setLoading(true); axios.get(...)]. *)
Definition fetchPosts_start (s : state) : state :=
  {| posts := posts s; loading := true; error := error s; inflight := true |}.

(** [fetchPosts] from its [await] on:
<<
      try { ...; setPosts(response.data.slice(0, 6)); }
      catch (err) { setError(err.message); }
      finally { setLoading(false); }
>> *)
Definition fetchPosts_resume (o : settled (list Post)) : Eff state () :=
  try_catch_finally
    (response ← await o; update (setPosts (take 6 (data response))))
    (λ err, update (setError (Some (message err))))
    (update (setLoading false)).

Definition mount : state := fetchPosts_start initial.

(** The one event: the promise of the request settles. *)
Definition step (s : state) (o : settled (list Post)) : state :=
  if inflight s
  then exec (fetchPosts_resume o)
         {| posts := posts s; loading := loading s; error := error s;
            inflight := false |}
  else s.

(** The early returns of the render: the loading screen while [loading],
    the error screen when an error is recorded, the posts otherwise. *)
Definition status_of (s : state) : RequestStatus :=
  if loading s then Loading
  else if error s is Some _ then Error
  else Success.

End FetchOnMount.

(** ** Timers

    [setTimeout(cb, delay)] at time [now] arms a timer that is due at
    [now + delay]; [clearTimeout] disarms it.  Each component below arms at
    most one timer at a time (the cleanup of an effect disarms the timer the
    effect armed), so the timer queue is an [option]: the due time and the
    [searchTerm] the callback closed over.  Time is a virtual clock in
    milliseconds. *)

Definition delayMs : nat := 500.

Definition timer_slot : Type := option (nat * string).

Definition setTimeout (now : nat) (v : string) : timer_slot := Some (now + delayMs, v).

Definition clearTimeout : timer_slot := None.

(** The timer that is due by time [t], if any. *)
Definition due_by (t : nat) (tm : timer_slot) : option (nat * string) :=
  match tm with
  | Some (due, v) => if decide (due ≤ t) then Some (due, v) else None
  | None => None
  end.

(** ** DebounceSearchExample.jsx: debounce the input, search on the
       debounced term *)

Module DebounceSearchExample.
Import JS.

(** The five [useState] cells, then the environment: whether the component
    is mounted, the clock, the armed timer, the log of the timer callbacks
    that have run (when, and the value passed to [setDebouncedTerm]), and
    the requests handed to [fetch] (the term searched for, oldest first)
    with those still pending.  Console output is not part of the state. *)
Record state := {
  searchTerm : string;
  debouncedTerm : string;
  results : list User;
  isSearching : bool;
  searchCount : nat;
  mounted : bool;
  now : nat;
  timer : timer_slot;
  fired : list (nat * string);
  sent : list string;
  inflight : gset nat;
}.

Definition setSearchTerm (v : string) (s : state) : state :=
  {| searchTerm := v; debouncedTerm := debouncedTerm s; results := results s;
     isSearching := isSearching s; searchCount := searchCount s;
     mounted := mounted s; now := now s; timer := timer s; fired := fired s;
     sent := sent s; inflight := inflight s |}.

Definition setDebouncedTerm (v : string) (s : state) : state :=
  {| searchTerm := searchTerm s; debouncedTerm := v; results := results s;
     isSearching := isSearching s; searchCount := searchCount s;
     mounted := mounted s; now := now s; timer := timer s; fired := fired s;
     sent := sent s; inflight := inflight s |}.

Definition setResults (r : list User) (s : state) : state :=
  {| searchTerm := searchTerm s; debouncedTerm := debouncedTerm s; results := r;
     isSearching := isSearching s; searchCount := searchCount s;
     mounted := mounted s; now := now s; timer := timer s; fired := fired s;
     sent := sent s; inflight := inflight s |}.

Definition setIsSearching (b : bool) (s : state) : state :=
  {| searchTerm := searchTerm s; debouncedTerm := debouncedTerm s;
     results := results s; isSearching := b; searchCount := searchCount s;
     mounted := mounted s; now := now s; timer := timer s; fired := fired s;
     sent := sent s; inflight := inflight s |}.

Definition setSearchCount (f : nat → nat) (s : state) : state :=
  {| searchTerm := searchTerm s; debouncedTerm := debouncedTerm s;
     results := results s; isSearching := isSearching s;
     searchCount := f (searchCount s);
     mounted := mounted s; now := now s; timer := timer s; fired := fired s;
     sent := sent s; inflight := inflight s |}.

Definition set_timer (tm : timer_slot) (s : state) : state :=
  {| searchTerm := searchTerm s; debouncedTerm := debouncedTerm s;
     results := results s; isSearching := isSearching s;
     searchCount := searchCount s;
     mounted := mounted s; now := now s; timer := tm; fired := fired s;
     sent := sent s; inflight := inflight s |}.

Definition set_now (t : nat) (s : state) : state :=
  {| searchTerm := searchTerm s; debouncedTerm := debouncedTerm s;
     results := results s; isSearching := isSearching s;
     searchCount := searchCount s;
     mounted := mounted s; now := t; timer := timer s; fired := fired s;
     sent := sent s; inflight := inflight s |}.

Definition log_fired (entry : nat * string) (s : state) : state :=
  {| searchTerm := searchTerm s; debouncedTerm := debouncedTerm s;
     results := results s; isSearching := isSearching s;
     searchCount := searchCount s;
     mounted := mounted s; now := now s; timer := timer s;
     fired := fired s ++ [entry];
     sent := sent s; inflight := inflight s |}.

Definition set_mounted (b : bool) (s : state) : state :=
  {| searchTerm := searchTerm s; debouncedTerm := debouncedTerm s;
     results := results s; isSearching := isSearching s;
     searchCount := searchCount s;
     mounted := b; now := now s; timer := timer s; fired := fired s;
     sent := sent s; inflight := inflight s |}.

(** [fetch(`.../users?name_like=${debouncedTerm}`)] *)
Definition fetch (term : string) (s : state) : state :=
  {| searchTerm := searchTerm s; debouncedTerm := debouncedTerm s;
     results := results s; isSearching := isSearching s;
     searchCount := searchCount s;
     mounted := mounted s; now := now s; timer := timer s; fired := fired s;
     sent := sent s ++ [term];
     inflight := {[ length (sent s) ]} ∪ inflight s |}.

Definition settle (req : nat) (s : state) : state :=
  {| searchTerm := searchTerm s; debouncedTerm := debouncedTerm s;
     results := results s; isSearching := isSearching s;
     searchCount := searchCount s;
     mounted := mounted s; now := now s; timer := timer s; fired := fired s;
     sent := sent s; inflight := inflight s ∖ {[ req ]} |}.

Definition initial : state :=
  {| searchTerm := ""; debouncedTerm := ""; results := []; isSearching := false;
     searchCount := 0; mounted := true; now := 0; timer := None; fired := [];
     sent := []; inflight := ∅ |}.

(** The first effect, [useEffect(..., [searchTerm])]: arm a timer whose
    callback calls [setDebouncedTerm(searchTerm)]. *)
Definition debounce_effect (s : state) : state :=
  set_timer (setTimeout (now s) (searchTerm s)) s.

(** Its cleanup: [clearTimeout(timer)]. *)
Definition debounce_cleanup (s : state) : state := set_timer clearTimeout s.

(** The second effect, [useEffect(..., [debouncedTerm])]:
<<
      if (debouncedTerm.trim() === "") { setResults([]); return; }
      setIsSearching(true); setSearchCount((prev) => prev + 1);
      fetch(...)
>> *)
Definition search_effect (s : state) : state :=
  if decide (trim (debouncedTerm s) = "")
  then setResults [] s
  else fetch (debouncedTerm s)
         (setSearchCount (λ prev, prev + 1) (setIsSearching true s)).

(** The promise chain hanging off [fetch], the request having settled as
    [o]:
<<
      .then((data) => { setResults(data); setIsSearching(false); })
      .catch((error) => { console.error(...); setIsSearching(false); })
>> *)
Definition fetch_resume (o : settled (list User)) : Eff state () :=
  try_catch
    (response ← await o;
     update (setResults (data response));; update (setIsSearching false))
    (λ _, update (setIsSearching false)).

(** The first render: both effects run, in the order they are declared. *)
Definition mount : state := search_effect (debounce_effect initial).

(** [onChange={(e) => setSearchTerm(e.target.value)}]: when [searchTerm]
    has changed the first effect is cleaned up and runs again; a
    [setSearchTerm] of the value the cell already holds re-runs nothing. *)
Definition onValueChange (v : string) (s : state) : state :=
  if decide (v = searchTerm s) then s
  else debounce_effect (debounce_cleanup (setSearchTerm v s)).

(** [setDebouncedTerm(key)] and the second effect, which runs again when
    [debouncedTerm] has changed. *)
Definition onKeyChange (key : string) (s : state) : state :=
  if decide (key = debouncedTerm s) then s
  else search_effect (setDebouncedTerm key s).

(** The callback of the timer runs at its due time. *)
Definition fire (entry : nat * string) (s : state) : state :=
  onKeyChange entry.2 (log_fired entry (set_timer None s)).

(** The clock advances by [dt]; a timer that comes due on the way fires. *)
Definition elapse (dt : nat) (s : state) : state :=
  let t := now s + dt in
  match due_by t (timer s) with
  | Some entry => set_now t (fire entry s)
  | None => set_now t s
  end.

(** The component is removed: the cleanup of the first effect runs. *)
Definition unmount (s : state) : state := set_mounted false (debounce_cleanup s).

Inductive event :=
  | Type_ (v : string)
  | Elapse (dt : nat)
  | Settle (req : nat) (o : settled (list User))
  | Unmount.

(** The event loop.  An unmounted component has no input to type into and
    state updates addressed to it are dropped. *)
Definition step (s : state) (e : event) : state :=
  match e with
  | Type_ v => if mounted s then onValueChange v s else s
  | Elapse dt => elapse dt s
  | Settle req o =>
      if decide (req ∈ inflight s)
      then if mounted s then exec (fetch_resume o) (settle req s)
           else settle req s
      else s
  | Unmount => if mounted s then unmount s else s
  end.

Definition run (s : state) (evs : list event) : state := foldl step s evs.


(** The status of the fetch cycle, read off the cells: [Loading] while
    [isSearching], [Success] when there are results, [Idle] otherwise; the
    component has no cell for an error. *)
Definition status_of (s : state) : RequestStatus :=
  if isSearching s then Loading
  else if results s is _ :: _ then Success
  else Idle.

Definition fetchState (s : state) : FetchState (list User) :=
  {| status := status_of s;
     fs_data := if results s is _ :: _ then Some (results s) else None;
     fs_error := None |}.

End DebounceSearchExample.

(** ** SearchWithDebounce.jsx: debounce the input, fetch all users and
       filter them by the query *)

Module SearchWithDebounce.
Import JS.

(** [String.prototype.toLowerCase] on a string of Latin-1 code units,
    where the conversion goes code unit by code unit: the capitals A-Z and
    U+00C0-U+00DE (but the multiplication sign U+00D7) move up by 32, every
    other code unit is kept.  Beyond Latin-1 the conversion depends on the
    context; [BeyondLatin1] below has the case of the Greek sigma. *)
Definition lower_char (c : ascii) : ascii :=
  let n := nat_of_ascii c in
  if bool_decide (65 ≤ n ≤ 90 ∨ (192 ≤ n ≤ 222 ∧ n ≠ 215))
  then ascii_of_nat (n + 32)
  else c.

Fixpoint toLowerCase (s : string) : string :=
  match s with
  | EmptyString => EmptyString
  | String c s' => String (lower_char c) (toLowerCase s')
  end.

(** The three [useState] cells, then the environment: mounted flag, clock,
    armed timer, what [console.error] has printed, and the requests handed
    to [axios.get]: [sent] lists the [query] each call of [searchUsers]
    closed over, oldest first, [inflight] the requests still pending. *)
Record state := {
  searchTerm : string;
  results : list User;
  loading : bool;
  mounted : bool;
  now : nat;
  timer : timer_slot;
  console : list string;
  sent : list string;
  inflight : gset nat;
}.

Definition setSearchTerm (v : string) (s : state) : state :=
  {| searchTerm := v; results := results s; loading := loading s;
     mounted := mounted s; now := now s; timer := timer s;
     console := console s; sent := sent s; inflight := inflight s |}.

Definition setResults (r : list User) (s : state) : state :=
  {| searchTerm := searchTerm s; results := r; loading := loading s;
     mounted := mounted s; now := now s; timer := timer s;
     console := console s; sent := sent s; inflight := inflight s |}.

Definition setLoading (b : bool) (s : state) : state :=
  {| searchTerm := searchTerm s; results := results s; loading := b;
     mounted := mounted s; now := now s; timer := timer s;
     console := console s; sent := sent s; inflight := inflight s |}.

Definition set_mounted (b : bool) (s : state) : state :=
  {| searchTerm := searchTerm s; results := results s; loading := loading s;
     mounted := b; now := now s; timer := timer s;
     console := console s; sent := sent s; inflight := inflight s |}.

Definition set_now (t : nat) (s : state) : state :=
  {| searchTerm := searchTerm s; results := results s; loading := loading s;
     mounted := mounted s; now := t; timer := timer s;
     console := console s; sent := sent s; inflight := inflight s |}.

Definition set_timer (tm : timer_slot) (s : state) : state :=
  {| searchTerm := searchTerm s; results := results s; loading := loading s;
     mounted := mounted s; now := now s; timer := tm;
     console := console s; sent := sent s; inflight := inflight s |}.

(** [console.error("Search error:", error)] *)
Definition console_error (e : JsError) (s : state) : state :=
  {| searchTerm := searchTerm s; results := results s; loading := loading s;
     mounted := mounted s; now := now s; timer := timer s;
     console := console s ++ ["Search error: " +:+ message e];
     sent := sent s; inflight := inflight s |}.

(** [axios.get("https://jsonplaceholder.typicode.com/users")], called from
    [searchUsers(query)]. *)
Definition axios_get (query : string) (s : state) : state :=
  {| searchTerm := searchTerm s; results := results s; loading := loading s;
     mounted := mounted s; now := now s; timer := timer s;
     console := console s;
     sent := sent s ++ [query];
     inflight := {[ length (sent s) ]} ∪ inflight s |}.

Definition settle (req : nat) (s : state) : state :=
  {| searchTerm := searchTerm s; results := results s; loading := loading s;
     mounted := mounted s; now := now s; timer := timer s;
     console := console s; sent := sent s; inflight := inflight s ∖ {[ req ]} |}.

Definition initial : state :=
  {| searchTerm := ""; results := []; loading := false; mounted := true;
     now := 0; timer := None; console := []; sent := []; inflight := ∅ |}.

(** The callback given to [filter]:
<<
      user.name.toLowerCase().includes(query.toLowerCase()) ||
      user.email.toLowerCase().includes(query.toLowerCase())
>> *)
Definition matches (query : string) (user : User) : bool :=
  includes (toLowerCase (name user)) (toLowerCase query) ||
  includes (toLowerCase (email user)) (toLowerCase query).

(** [response.data.filter(cb)] *)
Definition filtered (query : string) (users : list User) : list User :=
  List.filter (matches query) users.

(** [searchUsers(query)] up to its [await]. *)
Definition searchUsers_start (query : string) (s : state) : state :=
  axios_get query (setLoading true s).

(** [searchUsers(query)] from its [await] on:
<<
      try { const response = await ...;
            const filtered = response.data.filter(...);
            setResults(filtered); }
      catch (error) { console.error("Search error:", error); }
      finally { setLoading(false); }
>> *)
Definition searchUsers_resume (query : string) (o : settled (list User))
  : Eff state () :=
  try_catch_finally
    (response ← await o; update (setResults (filtered query (data response))))
    (λ error, update (console_error error))
    (update (setLoading false)).

(** The callback of the timer, closed over [searchTerm]:
<<
      if (searchTerm.trim()) { searchUsers(searchTerm); }
      else { setResults([]); }
>> *)
Definition delayDebounce (searchTerm : string) (s : state) : state :=
  if truthy (trim searchTerm)
  then searchUsers_start searchTerm s
  else setResults [] s.

(** [useEffect(..., [searchTerm])] and its cleanup. *)
Definition effect (s : state) : state :=
  set_timer (setTimeout (now s) (searchTerm s)) s.

Definition cleanup (s : state) : state := set_timer clearTimeout s.

Definition mount : state := effect initial.

(** [onChange={(e) => setSearchTerm(e.target.value)}] *)
Definition onValueChange (v : string) (s : state) : state :=
  if decide (v = searchTerm s) then s
  else effect (cleanup (setSearchTerm v s)).

Definition elapse (dt : nat) (s : state) : state :=
  let t := now s + dt in
  match due_by t (timer s) with
  | Some entry => set_now t (delayDebounce entry.2 (set_timer None s))
  | None => set_now t s
  end.

Definition unmount (s : state) : state := set_mounted false (cleanup s).

Inductive event :=
  | Type_ (v : string)
  | Elapse (dt : nat)
  | Settle (req : nat) (o : settled (list User))
  | Unmount.

(** React ignores the state updates addressed to a component that is
    unmounted: of what ran in between, the cells keep nothing. *)
Definition ignore_updates (before after : state) : state :=
  setSearchTerm (searchTerm before)
    (setResults (results before) (setLoading (loading before) after)).

(** The event loop.  A request that settles resumes [searchUsers] whether
    the component is still mounted or not; once it is unmounted the
    [setResults] and [setLoading] of the continuation are ignored, and its
    [console.error] prints all the same. *)
Definition step (s : state) (e : event) : state :=
  match e with
  | Type_ v => if mounted s then onValueChange v s else s
  | Elapse dt => elapse dt s
  | Settle req o =>
      match sent s !! req with
      | Some query =>
          if decide (req ∈ inflight s)
          then if mounted s
               then exec (searchUsers_resume query o) (settle req s)
               else ignore_updates s
                      (exec (searchUsers_resume query o) (settle req s))
          else s
      | None => s
      end
  | Unmount => if mounted s then unmount s else s
  end.

Definition run (s : state) (evs : list event) : state := foldl step s evs.

(** The status of the fetch cycle, read off the cells; the component has
    no cell for an error. *)
Definition status_of (s : state) : RequestStatus :=
  if loading s then Loading
  else if results s is _ :: _ then Success
  else Idle.

Definition fetchState (s : state) : FetchState (list User) :=
  {| status := status_of s;
     fs_data := if results s is _ :: _ then Some (results s) else None;
     fs_error := None |}.

End SearchWithDebounce.

(** ** The filter of SearchWithDebounce on text beyond Latin-1

    [toLowerCase] follows the default case conversion of Unicode, which
    is not code unit by code unit: a capital sigma that ends a word
    becomes the final small sigma, any other the plain small sigma.  The
    alphabet here adds the three sigmas to the code units of Latin-1,
    which is what the filter meets in a name written in capitals with a
    Greek ending. *)

Module BeyondLatin1.

Inductive code_unit :=
  | Latin (c : ascii)
  | CapitalSigma
  | SmallSigma
  | FinalSigma.

#[export] Instance code_unit_eq_dec : EqDecision code_unit.
Proof. solve_decision. Defined.

(** The property Cased: the letters with a case.  In Latin-1 these are
    A-Z, a-z, the ordinal indicators U+00AA and U+00BA, the micro sign
    U+00B5, and U+00C0-U+00FF but the signs U+00D7 and U+00F7. *)
Definition cased (u : code_unit) : bool :=
  match u with
  | Latin c =>
      let n := nat_of_ascii c in
      bool_decide (65 ≤ n ≤ 90 ∨ 97 ≤ n ≤ 122 ∨ n = 170 ∨ n = 181 ∨
                   n = 186 ∨ 192 ≤ n ≤ 214 ∨ 216 ≤ n ≤ 246 ∨
                   248 ≤ n ≤ 255)
  | CapitalSigma | SmallSigma | FinalSigma => true
  end.

(** The property Case_Ignorable.  In Latin-1: the apostrophe, the full
    stop, the colon, the circumflex, the grave accent, the diaeresis, the
    soft hyphen, the macron, the acute accent, the middle dot and the
    cedilla. *)
Definition case_ignorable (u : code_unit) : bool :=
  match u with
  | Latin c =>
      bool_decide
        (nat_of_ascii c ∈ [39; 46; 58; 94; 96; 168; 173; 175; 180; 183; 184])
  | CapitalSigma | SmallSigma | FinalSigma => false
  end.

(** [l] starts with case-ignorable code units, none or more, and then a
    cased letter. *)
Fixpoint cased_letter_next (l : list code_unit) : bool :=
  match l with
  | [] => false
  | u :: l' => cased u || (case_ignorable u && cased_letter_next l')
  end.

(** The condition Final_Sigma on a capital sigma: a cased letter comes
    before it and none after it, case-ignorable code units in between
    not counting.  [before] is the text before it, the nearest code unit
    first. *)
Definition final_sigma (before after : list code_unit) : bool :=
  cased_letter_next before && negb (cased_letter_next after).

Fixpoint toLowerCase_from (before l : list code_unit) : list code_unit :=
  match l with
  | [] => []
  | u :: l' =>
      match u with
      | Latin c => Latin (SearchWithDebounce.lower_char c)
      | CapitalSigma =>
          if final_sigma before l' then FinalSigma else SmallSigma
      | SmallSigma => SmallSigma
      | FinalSigma => FinalSigma
      end :: toLowerCase_from (u :: before) l'
  end.

(** [s.toLowerCase()] *)
Definition toLowerCase (s : list code_unit) : list code_unit :=
  toLowerCase_from [] s.

Fixpoint startsWith (s q : list code_unit) {struct q} : bool :=
  match q, s with
  | [], _ => true
  | a :: q', b :: s' => bool_decide (a = b) && startsWith s' q'
  | _ :: _, [] => false
  end.

(** [s.includes(q)] *)
Fixpoint includes (s q : list code_unit) : bool :=
  startsWith s q ||
  match s with
  | [] => false
  | _ :: s' => includes s' q
  end.

(** A user of [response.data] as the filter reads it: its name and its
    email. *)
Record user := {
  name : list code_unit;
  email : list code_unit;
}.

(** The callback given to [filter], and [response.data.filter(cb)],
    which [searchUsers] hands to [setResults]. *)
Definition matches (query : list code_unit) (u : user) : bool :=
  includes (toLowerCase (name u)) (toLowerCase query) ||
  includes (toLowerCase (email u)) (toLowerCase query).

Definition filtered (query : list code_unit) (users : list user) : list user :=
  List.filter (matches query) users.


End BeyondLatin1.


(** ** 16_Gallery_project/src/App.jsx: a pager over the Picsum list *)

Module Gallery.
Import JS.

(** An entry of the Picsum list. *)
Record Image := { image_id : string; author : string; download_url : string }.

(** The three [useState] cells and the requests handed to [axios.get],
    each named by the page asked for.  The page counter is a JavaScript
    number holding an integer; it is an exact integer over any run a user
    can click through, and is modelled as [Z]. *)
Record state := {
  userData : list Image;
  index : Z;
  loading : bool;
  sent : list Z;
  inflight : gset nat;
}.

Definition setUserData (d : list Image) (s : state) : state :=
  {| userData := d; index := index s; loading := loading s;
     sent := sent s; inflight := inflight s |}.

Definition setIndex (i : Z) (s : state) : state :=
  {| userData := userData s; index := i; loading := loading s;
     sent := sent s; inflight := inflight s |}.

Definition setLoading (b : bool) (s : state) : state :=
  {| userData := userData s; index := index s; loading := b;
     sent := sent s; inflight := inflight s |}.

(** [axios.get(`https://picsum.photos/v2/list?page=${index}&limit=20`)] *)
Definition axios_get (page : Z) (s : state) : state :=
  {| userData := userData s; index := index s; loading := loading s;
     sent := sent s ++ [page];
     inflight := {[ length (sent s) ]} ∪ inflight s |}.

Definition settle (req : nat) (s : state) : state :=
  {| userData := userData s; index := index s; loading := loading s;
     sent := sent s; inflight := inflight s ∖ {[ req ]} |}.

Definition initial : state :=
  {| userData := []; index := 1; loading := false; sent := []; inflight := ∅ |}.

(** The URL of the request for [page]. *)
Definition url (page : Z) : string :=
  "https://picsum.photos/v2/list?page=" +:+ pretty page +:+ "&limit=20".

(** The URLs requested so far. *)
Definition requested (s : state) : list string := url <$> sent s.

(** [getData] up to its [await]: [setLoading(true); axios.get(...)]. *)
Definition getData_start (s : state) : state :=
  axios_get (index s) (setLoading true s).

(** [getData] from its [await] on:
<<
      try { ...; setUserData(response.data); }
      catch (error) { console.error(...); }
      finally { setLoading(false); }
>> *)
Definition getData_resume (o : settled (list Image)) : Eff state () :=
  try_catch_finally
    (response ← await o; update (setUserData (data response)))
    (λ _, mret ())
    (update (setLoading false)).

(** [useEffect(function () { getData(); }, [getData])], [getData] being
    memoized on [index]: the effect runs on mount and when [index] has
    changed. *)
Definition effect (s : state) : state := getData_start s.

Definition mount : state := effect initial.

Definition set_index_and_render (i : Z) (s : state) : state :=
  if decide (i = index s) then s else effect (setIndex i s).

(** The [onClick] of the Previous button:
    [if (index > 1) { setIndex(index - 1); }] *)
Definition onClickPrevious (s : state) : state :=
  if decide (index s > 1)%Z
  then set_index_and_render (index s - 1) s
  else s.

(** The [onClick] of the Next button: [setIndex(index + 1)] *)
Definition onClickNext (s : state) : state :=
  set_index_and_render (index s + 1) s.

(** [disabled={index === 1 || loading}] and [disabled={loading}] *)
Definition previous_disabled (s : state) : bool :=
  bool_decide (index s = 1%Z) || loading s.

Definition next_disabled (s : state) : bool := loading s.

Inductive event :=
  | ClickPrevious
  | ClickNext
  | Settle (req : nat) (o : settled (list Image)).

(** A disabled button delivers no click. *)
Definition step (s : state) (e : event) : state :=
  match e with
  | ClickPrevious => if previous_disabled s then s else onClickPrevious s
  | ClickNext => if next_disabled s then s else onClickNext s
  | Settle req o =>
      if decide (req ∈ inflight s)
      then exec (getData_resume o) (settle req s)
      else s
  end.

Definition run (s : state) (evs : list event) : state := foldl step s evs.

End Gallery.

(** ** Predicates of the statements, and sample data *)

(** The letters of Latin-1 that come in two cases, the capitals and, at
    the same position, their small letters: A-Z, then U+00C0-U+00D6 and
    U+00D8-U+00DE, against a-z, then U+00E0-U+00F6 and U+00F8-U+00FE. *)
Definition capital_letters : list ascii :=
  String.list_ascii_of_string "ABCDEFGHIJKLMNOPQRSTUVWXYZ" ++
  (ascii_of_nat <$> seq 192 23 ++ seq 216 7).

Definition small_letters : list ascii :=
  String.list_ascii_of_string "abcdefghijklmnopqrstuvwxyz" ++
  (ascii_of_nat <$> seq 224 23 ++ seq 248 7).

(** Two code units are the same up to case: they are equal, or one is a
    capital letter and the other its small letter. *)
Definition same_up_to_case (a b : ascii) : Prop :=
  a = b ∨
  (a, b) ∈ zip capital_letters small_letters ∨
  (b, a) ∈ zip capital_letters small_letters.

#[export] Instance same_up_to_case_dec (a b : ascii) :
  Decision (same_up_to_case a b).
Proof. unfold same_up_to_case. apply _. Defined.



(** Every code unit of [s] is white space. *)
Fixpoint all_white_space (s : string) : bool :=
  match s with
  | EmptyString => true
  | String c s' => JS.is_white_space c && all_white_space s'
  end.

(** Each keystroke of [ks] changes the value the input holds, [prev] being
    the value before the first. *)
Fixpoint changing (prev : string) (ks : list (nat * string)) : Prop :=
  match ks with
  | [] => True
  | k :: ks' => k.2 ≠ prev ∧ changing k.2 ks'
  end.

(** Each keystroke of [ks] comes less than [delayMs] after the one before. *)
Definition rapid (ks : list (nat * string)) : Prop :=
  Forall (λ k, k.1 < delayMs) ks.

(** The value of the last keystroke, [v0] when there is none. *)
Definition last_value (v0 : string) (ks : list (nat * string)) : string :=
  List.last (ks.*2) v0.

(** DynamicFetch: an error is recorded only in status [Error]. *)
Definition error_only_in_Error (s : DynamicFetch.state) : Prop :=
  is_Some (DynamicFetch.error s) → DynamicFetch.status_of s = Error.

(** DynamicFetch: data is there only in status [Success]. *)
Definition data_only_in_Success (s : DynamicFetch.state) : Prop :=
  is_Some (DynamicFetch.user s) → DynamicFetch.status_of s = Success.


(** DebounceSearchExample, after its disposal: unmounted, no timer armed. *)
Definition disposed (s : DebounceSearchExample.state) : Prop :=
  DebounceSearchExample.mounted s = false ∧ DebounceSearchExample.timer s = None.

(** SearchWithDebounce, after its disposal; and what its timer callback
    writes to: the three cells, and the requests, which only the callback
    sends. *)
Definition search_disposed (w : SearchWithDebounce.state) : Prop :=
  SearchWithDebounce.mounted w = false ∧ SearchWithDebounce.timer w = None.

Definition search_cells (w : SearchWithDebounce.state)
  : string * list User * bool * list string :=
  (SearchWithDebounce.searchTerm w, SearchWithDebounce.results w,
   SearchWithDebounce.loading w, SearchWithDebounce.sent w).

(** A line that the [catch] of [searchUsers] prints. *)
Definition is_search_error (line : string) : Prop :=
  ∃ msg, line = "Search error: " +:+ msg.

Definition is_settle (e : DynamicFetch.event) : Prop :=
  match e with DynamicFetch.Settle _ _ => True | DynamicFetch.Select _ => False end.

(** The part of DebounceSearchExample that is the debounce timer: the raw
    value, the stable value, the armed timer and the callbacks that ran. *)
Definition debounce_state (s : DebounceSearchExample.state)
  : string * string * timer_slot * list (nat * string) :=
  (DebounceSearchExample.searchTerm s, DebounceSearchExample.debouncedTerm s,
   DebounceSearchExample.timer s, DebounceSearchExample.fired s).

Definition alice : User :=
  {| user_id := 1; name := "Alice Graham"; username := "Bret";
     email := "Sincere@april.biz"; phone := "1-770-736-8031";
     website := "hildegard.org"; company_name := "Romaguera-Crona";
     address_city := "Gwenborough" |}.

Definition bob : User :=
  {| user_id := 2; name := "Bob Howell"; username := "Antonette";
     email := "Shanna@melissa.tv"; phone := "010-692-6593";
     website := "anastasia.net"; company_name := "Deckow-Crist";
     address_city := "Wisokyburgh" |}.

Definition network_error : JS.JsError := {| JS.message := "Network Error" |}.

(** ** Invariants of the runs *)

(** Gallery: the last request is the one for the page shown, and it is the
    only one that can be pending, which it is exactly while [loading]. *)
Definition one_request_at_a_time (s : Gallery.state) : Prop :=
  last (Gallery.sent s) = Some (Gallery.index s) ∧
  Gallery.inflight s
  = if Gallery.loading s then {[ pred (length (Gallery.sent s)) ]} else ∅.

(** DynamicFetch: the last request is the one for the selected user, only
    requests that were sent are pending, and [loading] is set only while
    that last request is pending. *)
Definition latest_request_tracks_userId (s : DynamicFetch.state) : Prop :=
  last (DynamicFetch.sent s) = Some (DynamicFetch.userId s) ∧
  (∀ req, req ∈ DynamicFetch.inflight s → req < length (DynamicFetch.sent s)) ∧
  (DynamicFetch.loading s = true →
   pred (length (DynamicFetch.sent s)) ∈ DynamicFetch.inflight s).

(** DebounceSearchExample, while mounted: either no timer is armed and the
    debounced term has caught up with the input, or a timer is armed for
    what the input holds and is due within [delayMs]. *)
Definition caught_up_or_armed (s : DebounceSearchExample.state) : Prop :=
  DebounceSearchExample.mounted s = true →
  match DebounceSearchExample.timer s with
  | None => DebounceSearchExample.debouncedTerm s = DebounceSearchExample.searchTerm s
  | Some (due, v) =>
      v = DebounceSearchExample.searchTerm s ∧
      DebounceSearchExample.now s < due ≤ DebounceSearchExample.now s + delayMs
  end.

(** DebounceSearchExample: the counter shown as "API Calls Made" is the
    number of requests sent, no request is for a blank term, and the terms
    requested are, in order, among the values the timer callback
    delivered. *)
Definition requests_accounted (s : DebounceSearchExample.state) : Prop :=
  DebounceSearchExample.searchCount s = length (DebounceSearchExample.sent s) ∧
  Forall (λ term, JS.trim term ≠ "") (DebounceSearchExample.sent s) ∧
  sublist (DebounceSearchExample.sent s) ((DebounceSearchExample.fired s).*2).

(** SearchWithDebounce: the timer is armed for the value the input holds,
    [delayMs] from now. *)
Definition search_armed (w : SearchWithDebounce.state) : Prop :=
  SearchWithDebounce.mounted w = true ∧
  SearchWithDebounce.timer w
  = Some (SearchWithDebounce.now w + delayMs, SearchWithDebounce.searchTerm w).

Definition sample_image : Gallery.Image :=
  {| Gallery.image_id := "0"; Gallery.author := "Alejandro Escamilla";
     Gallery.download_url := "https://picsum.photos/id/0/5000/3333" |}.

(** ** CreateData.jsx: post a form *)

Module CreateData.
Import JS.

(** The object held in [formData], and the body of the POST request. *)
Record FormData := { title : string; body : string; userId : Z }.

(** What the server answers: the post it created. *)
Record Created := { created_id : Z; created : FormData }.

(** The four [useState] cells, then the forms handed to [axios.post],
    oldest first, and the requests still pending. *)
Record state := {
  formData : FormData;
  response : option Created;
  loading : bool;
  error : option string;
  sent : list FormData;
  inflight : gset nat;
}.

Definition setFormData (f : FormData) (s : state) : state :=
  {| formData := f; response := response s; loading := loading s;
     error := error s; sent := sent s; inflight := inflight s |}.

Definition setResponse (r : option Created) (s : state) : state :=
  {| formData := formData s; response := r; loading := loading s;
     error := error s; sent := sent s; inflight := inflight s |}.

Definition setLoading (b : bool) (s : state) : state :=
  {| formData := formData s; response := response s; loading := b;
     error := error s; sent := sent s; inflight := inflight s |}.

Definition setError (e : option string) (s : state) : state :=
  {| formData := formData s; response := response s; loading := loading s;
     error := e; sent := sent s; inflight := inflight s |}.

(** [axios.post("https://jsonplaceholder.typicode.com/posts", formData)] *)
Definition axios_post (f : FormData) (s : state) : state :=
  {| formData := formData s; response := response s; loading := loading s;
     error := error s; sent := sent s ++ [f];
     inflight := {[ length (sent s) ]} ∪ inflight s |}.

Definition settle (req : nat) (s : state) : state :=
  {| formData := formData s; response := response s; loading := loading s;
     error := error s; sent := sent s; inflight := inflight s ∖ {[ req ]} |}.

Definition blank_form : FormData := {| title := ""; body := ""; userId := 1 |}.

Definition initial : state :=
  {| formData := blank_form; response := None; loading := false;
     error := None; sent := []; inflight := ∅ |}.

(** [setFormData({ ...formData, title: e.target.value })] *)
Definition onChangeTitle (v : string) (s : state) : state :=
  setFormData {| title := v; body := body (formData s);
                 userId := userId (formData s) |} s.

(** [setFormData({ ...formData, body: e.target.value })] *)
Definition onChangeBody (v : string) (s : state) : state :=
  setFormData {| title := title (formData s); body := v;
                 userId := userId (formData s) |} s.

(** [handleSubmit] up to its [await]:
    [setLoading(true); setError(null); setResponse(null); axios.post(...)] *)
Definition handleSubmit_start (s : state) : state :=
  axios_post (formData s)
    (setResponse None (setError None (setLoading true s))).

(** [handleSubmit] from its [await] on:
<<
      try { const res = await ...; setResponse(res.data);
            setFormData({ title: "", body: "", userId: 1 }); }
      catch (err) { setError(err.message); }
      finally { setLoading(false); }
>> *)
Definition handleSubmit_resume (o : settled Created) : Eff state () :=
  try_catch_finally
    (res ← await o;
     update (setResponse (Some (data res)));; update (setFormData blank_form))
    (λ err, update (setError (Some (message err))))
    (update (setLoading false)).

(** The form can be submitted when its button is enabled
    ([disabled={loading}]) and both [required] fields hold text. *)
Definition can_submit (s : state) : bool :=
  negb (loading s) && truthy (title (formData s)) && truthy (body (formData s)).

Inductive event :=
  | TypeTitle (v : string)
  | TypeBody (v : string)
  | Submit
  | Settle (req : nat) (o : settled Created).

Definition step (s : state) (e : event) : state :=
  match e with
  | TypeTitle v => onChangeTitle v s
  | TypeBody v => onChangeBody v s
  | Submit => if can_submit s then handleSubmit_start s else s
  | Settle req o =>
      if decide (req ∈ inflight s)
      then exec (handleSubmit_resume o) (settle req s)
      else s
  end.

Definition run (s : state) (evs : list event) : state := foldl step s evs.

Definition is_typing (e : event) : Prop :=
  match e with TypeTitle _ | TypeBody _ => True | _ => False end.

(** While [loading] neither a response nor an error is shown, never both
    are, a request is pending exactly while [loading] and it is the last
    one sent, and no form was posted with an empty title or body. *)
Definition consistent (s : state) : Prop :=
  (loading s = true → response s = None ∧ error s = None) ∧
  (is_Some (response s) → error s = None) ∧
  inflight s = (if loading s then {[ pred (length (sent s)) ]} else ∅) ∧
  Forall (λ f, title f ≠ "" ∧ body f ≠ "") (sent s).

End CreateData.

(** ** FetchDataExample.jsx (lesson 15, example 2): fetch a user with
       [fetch] and check [response.ok] *)

Module FetchDataExample.
Import JS.

(** What [fetch] resolves with: whether the HTTP status is in the 2xx
    range, and how [response.json()] settles. *)
Record FetchResponse := { ok : bool; json : User + JsError }.

Record state := {
  userId : Z;
  user : option User;
  loading : bool;
  error : option string;
  sent : list Z;
  inflight : gset nat;
}.

Definition setUserId (k : Z) (s : state) : state :=
  {| userId := k; user := user s; loading := loading s; error := error s;
     sent := sent s; inflight := inflight s |}.

Definition setUser (u : option User) (s : state) : state :=
  {| userId := userId s; user := u; loading := loading s; error := error s;
     sent := sent s; inflight := inflight s |}.

Definition setLoading (b : bool) (s : state) : state :=
  {| userId := userId s; user := user s; loading := b; error := error s;
     sent := sent s; inflight := inflight s |}.

Definition setError (e : option string) (s : state) : state :=
  {| userId := userId s; user := user s; loading := loading s; error := e;
     sent := sent s; inflight := inflight s |}.

(** [fetch(`https://jsonplaceholder.typicode.com/users/${userId}`)] *)
Definition fetch (k : Z) (s : state) : state :=
  {| userId := userId s; user := user s; loading := loading s; error := error s;
     sent := sent s ++ [k];
     inflight := {[ length (sent s) ]} ∪ inflight s |}.

Definition settle (req : nat) (s : state) : state :=
  {| userId := userId s; user := user s; loading := loading s; error := error s;
     sent := sent s; inflight := inflight s ∖ {[ req ]} |}.

Definition initial : state :=
  {| userId := 1; user := None; loading := false; error := None;
     sent := []; inflight := ∅ |}.

(** A promise that settles as [o], awaited or chained on. *)
Definition settles {T} (o : T + JsError) : Eff state T :=
  match o with
  | inl v => mret v
  | inr e => throw e
  end.

(** The effect, up to the call of [fetch]:
    [setLoading(true); setError(null); fetch(...)] *)
Definition effect (s : state) : state :=
  fetch (userId s) (setError None (setLoading true s)).

(** The promise chain hanging off [fetch]:
<<
      .then((response) => {
        if (!response.ok) { throw new Error("Failed to fetch"); }
        return response.json();
      })
      .then((data) => { setUser(data); setLoading(false); })
      .catch((err) => { setError(err.message); setLoading(false); })
>> *)
Definition chain (o : FetchResponse + JsError) : Eff state () :=
  try_catch
    (response ← settles o;
     data ← (if negb (ok response)
             then throw {| message := "Failed to fetch" |}
             else settles (json response));
     update (setUser (Some data));; update (setLoading false))
    (λ err, update (setError (Some (message err)));; update (setLoading false)).

Definition mount : state := effect initial.

Definition onChange (k : Z) (s : state) : state :=
  if decide (k = userId s) then s else effect (setUserId k s).

Inductive event :=
  | Select (k : Z)
  | Settle (req : nat) (o : FetchResponse + JsError).

Definition step (s : state) (e : event) : state :=
  match e with
  | Select k => onChange k s
  | Settle req o =>
      if decide (req ∈ inflight s) then exec (chain o) (settle req s) else s
  end.

End FetchDataExample.

(** ** BasicFetch.jsx: fetch the users at the click of a button *)

Module BasicFetch.
Import JS.

(** The three [useState] cells; [sent] counts the requests handed to
    [axios.get], the request numbered [req] being the [req]-th sent. *)
Record state := {
  users : list User;
  loading : bool;
  error : option string;
  sent : nat;
  inflight : gset nat;
}.

Definition setUsers (u : list User) (s : state) : state :=
  {| users := u; loading := loading s; error := error s;
     sent := sent s; inflight := inflight s |}.

Definition setLoading (b : bool) (s : state) : state :=
  {| users := users s; loading := b; error := error s;
     sent := sent s; inflight := inflight s |}.

Definition setError (e : option string) (s : state) : state :=
  {| users := users s; loading := loading s; error := e;
     sent := sent s; inflight := inflight s |}.

(** [axios.get("https://jsonplaceholder.typicode.com/users")] *)
Definition axios_get (s : state) : state :=
  {| users := users s; loading := loading s; error := error s;
     sent := S (sent s); inflight := {[ sent s ]} ∪ inflight s |}.

Definition settle (req : nat) (s : state) : state :=
  {| users := users s; loading := loading s; error := error s;
     sent := sent s; inflight := inflight s ∖ {[ req ]} |}.

Definition initial : state :=
  {| users := []; loading := false; error := None; sent := 0; inflight := ∅ |}.

(** [fetchUsers] up to its [await]:
    [setLoading(true); setError(null); axios.get(...)] *)
Definition fetchUsers_start (s : state) : state :=
  axios_get (setError None (setLoading true s)).

(** [fetchUsers] from its [await] on:
<<
      try { ...; setUsers(response.data); }
      catch (err) { setError(err.message); }
      finally { setLoading(false); }
>> *)
Definition fetchUsers_resume (o : settled (list User)) : Eff state () :=
  try_catch_finally
    (response ← await o; update (setUsers (data response)))
    (λ err, update (setError (Some (message err))))
    (update (setLoading false)).

Inductive event :=
  | Click
  | Settle (req : nat) (o : settled (list User)).

(** The button is [disabled={loading}]. *)
Definition step (s : state) (e : event) : state :=
  match e with
  | Click => if loading s then s else fetchUsers_start s
  | Settle req o =>
      if decide (req ∈ inflight s)
      then exec (fetchUsers_resume o) (settle req s)
      else s
  end.

Definition run (s : state) (evs : list event) : state := foldl step s evs.

(** What the render shows of the users, when there are any: the number in
    the heading [Users (n):], the users listed ([users.slice(0, 5)]) and
    the number in [...and n more], a line shown when
    [users.length > 5]. *)
Record listing := {
  heading : nat;
  listed : list User;
  more : option nat;
}.

Definition render_users (s : state) : option listing :=
  if decide (0 < length (users s))
  then Some {| heading := length (users s);
               listed := take 5 (users s);
               more := if decide (5 < length (users s))
                       then Some (length (users s) - 5) else None |}
  else None.

(** While [loading] no error is shown, and a request is pending exactly
    while [loading]: the last one sent. *)
Definition consistent (s : state) : Prop :=
  (loading s = true → error s = None) ∧
  inflight s = (if loading s then {[ pred (sent s) ]} else ∅).

End BasicFetch.

(** ** TimerExample.jsx (lesson 15, example 1): a seconds counter driven by
       [setInterval] *)

Module TimerExample.

Definition periodMs : nat := 1000.

(** The two [useState] cells, then the environment: mounted flag, clock,
    and the interval the effect has set, given by the time its next tick
    is due. *)
Record state := {
  seconds : nat;
  isRunning : bool;
  mounted : bool;
  now : nat;
  interval : option nat;
}.

Definition setSeconds (f : nat → nat) (s : state) : state :=
  {| seconds := f (seconds s); isRunning := isRunning s; mounted := mounted s;
     now := now s; interval := interval s |}.

Definition setIsRunning (b : bool) (s : state) : state :=
  {| seconds := seconds s; isRunning := b; mounted := mounted s;
     now := now s; interval := interval s |}.

Definition set_mounted (b : bool) (s : state) : state :=
  {| seconds := seconds s; isRunning := isRunning s; mounted := b;
     now := now s; interval := interval s |}.

Definition set_now (t : nat) (s : state) : state :=
  {| seconds := seconds s; isRunning := isRunning s; mounted := mounted s;
     now := t; interval := interval s |}.

Definition set_interval (i : option nat) (s : state) : state :=
  {| seconds := seconds s; isRunning := isRunning s; mounted := mounted s;
     now := now s; interval := i |}.

Definition initial : state :=
  {| seconds := 0; isRunning := true; mounted := true; now := 0;
     interval := None |}.

(** The effect, [useEffect(..., [isRunning])]:
<<
      if (!isRunning) return;
      const interval = setInterval(() => {
        setSeconds((prevSeconds) => prevSeconds + 1);
      }, 1000);
>> *)
Definition effect (s : state) : state :=
  if isRunning s then set_interval (Some (now s + periodMs)) s else s.

(** Its cleanup: [clearInterval(interval)]. *)
Definition cleanup (s : state) : state := set_interval None s.

Definition mount : state := effect initial.

(** [onClick={() => setIsRunning(!isRunning)}]: the dependency changes, so
    the effect is cleaned up and runs again. *)
Definition toggle (s : state) : state :=
  effect (cleanup (setIsRunning (negb (isRunning s)) s)).

(** [onClick={() => setSeconds(0)}] *)
Definition reset (s : state) : state := setSeconds (λ _, 0) s.

(** The ticks of an interval whose next tick is due at [next] that fall
    due by time [t]. *)
Definition ticks_due (t next : nat) : nat :=
  if decide (next ≤ t) then (t - next) / periodMs + 1 else 0.

(** The clock advances by [dt]: each tick that falls due runs
    [setSeconds((prevSeconds) => prevSeconds + 1)]. *)
Definition elapse (dt : nat) (s : state) : state :=
  let t := now s + dt in
  match interval s with
  | Some next =>
      let k := ticks_due t next in
      set_now t (set_interval (Some (next + k * periodMs))
                   (setSeconds (λ prevSeconds, prevSeconds + k) s))
  | None => set_now t s
  end.

Definition unmount (s : state) : state := set_mounted false (cleanup s).

Inductive event :=
  | Elapse (dt : nat)
  | Toggle
  | Reset
  | Unmount.

Definition step (s : state) (e : event) : state :=
  match e with
  | Elapse dt => elapse dt s
  | Toggle => if mounted s then toggle s else s
  | Reset => if mounted s then reset s else s
  | Unmount => if mounted s then unmount s else s
  end.

Definition run (s : state) (evs : list event) : state := foldl step s evs.

(** An interval is set exactly while the component is mounted and running,
    and its next tick is due within one period. *)
Definition ticking_iff_running (s : state) : Prop :=
  match interval s with
  | Some next =>
      mounted s = true ∧ isRunning s = true ∧ now s < next ≤ now s + periodMs
  | None => mounted s = false ∨ isRunning s = false
  end.

(** Since time [t0], when the counter showed [s0], the interval has been
    running without interruption. *)
Definition running_since (t0 s0 : nat) (s : state) : Prop :=
  t0 ≤ now s ∧
  seconds s = s0 + (now s - t0) / periodMs ∧
  interval s = Some (t0 + ((now s - t0) / periodMs + 1) * periodMs).

End TimerExample.

(** ** 12_Notes_app/src/App.jsx: add and delete notes *)

Module NotesApp.

(** The object [{ title, details }] stored for a note. *)
Record Note := { note_title : string; note_details : string }.

(** The three [useState] cells. *)
Record state := {
  title : string;
  details : string;
  notes : list Note;
}.

Definition initial : state := {| title := ""; details := ""; notes := [] |}.

Definition setTitle (v : string) (s : state) : state :=
  {| title := v; details := details s; notes := notes s |}.

Definition setDetails (v : string) (s : state) : state :=
  {| title := title s; details := v; notes := notes s |}.

Definition setNotes (n : list Note) (s : state) : state :=
  {| title := title s; details := details s; notes := n |}.

(** [submitHandler]:
<<
      const copyNotes = [...notes];
      copyNotes.push({ title, details });
      setNotes(copyNotes); setTitle(""); setDetails("");
>> *)
Definition submitHandler (s : state) : state :=
  let copyNotes := notes s ++ [{| note_title := title s; note_details := details s |}] in
  setDetails "" (setTitle "" (setNotes copyNotes s)).

(** [deleteNote(idx)]:
    [const copyNotes = [...notes]; copyNotes.splice(idx, 1); setNotes(copyNotes);]
    with [idx] the position of a card, a natural number; [splice] past the
    end removes nothing. *)
Definition deleteNote (idx : nat) (s : state) : state :=
  let copyNotes := delete idx (notes s) in
  setNotes copyNotes s.

End NotesApp.

(** ** 09_useState/src/App.jsx: the todo list *)

Module UseStateApp.
Import JS.

(** [l.filter((x, index) => p(x, index))], the positions counted from
    [k]. *)
Fixpoint filter_index_from {A} (k : nat) (p : A → nat → bool) (l : list A)
  : list A :=
  match l with
  | [] => []
  | x :: l' =>
      if p x k then x :: filter_index_from (S k) p l'
      else filter_index_from (S k) p l'
  end.

Definition filter_index {A} (p : A → nat → bool) (l : list A) : list A :=
  filter_index_from 0 p l.

(** The cells of the todo section. *)
Record state := {
  todos : list string;
  newTodo : string;
}.

Definition initial : state :=
  {| todos := ["Learn React"; "Build Project"]; newTodo := "" |}.

Definition setTodos (t : list string) (s : state) : state :=
  {| todos := t; newTodo := newTodo s |}.

Definition setNewTodo (v : string) (s : state) : state :=
  {| todos := todos s; newTodo := v |}.

(** [addTodo]:
<<
      if (newTodo.trim()) { setTodos([...todos, newTodo]); setNewTodo(""); }
>> *)
Definition addTodo (s : state) : state :=
  if truthy (trim (newTodo s))
  then setNewTodo "" (setTodos (todos s ++ [newTodo s]) s)
  else s.

(** [removeTodo(indexToRemove)]:
    [setTodos(todos.filter((_, index) => index !== indexToRemove))] *)
Definition removeTodo (indexToRemove : nat) (s : state) : state :=
  setTodos
    (filter_index (λ _ index, bool_decide (index ≠ indexToRemove)) (todos s)) s.

Inductive event :=
  | TypeTodo (v : string)
  | Add
  | Remove (index : nat).

Definition step (s : state) (e : event) : state :=
  match e with
  | TypeTodo v => setNewTodo v s
  | Add => addTodo s
  | Remove index => removeTodo index s
  end.

Definition run (s : state) (evs : list event) : state := foldl step s evs.

End UseStateApp.

(** ** DynamicForm (form handling lesson): fields added and removed by id *)

Module DynamicForm.

(** A field [{ id, value }]; the id of an added field is [Date.now()]. *)
Record Field := { field_id : Z; value : string }.

Definition initial : list Field := [{| field_id := 1; value := "" |}].

(** [addField], [Date.now()] returning [now]:
    [setFields([...fields, { id: Date.now(), value: "" }])] *)
Definition addField (now : Z) (fields : list Field) : list Field :=
  fields ++ [{| field_id := now; value := "" |}].

(** [removeField(id)]: [setFields(fields.filter((field) => field.id !== id))] *)
Definition removeField (id : Z) (fields : list Field) : list Field :=
  List.filter (λ field, bool_decide (field_id field ≠ id)) fields.

(** [handleChange(id, value)]:
    [fields.map((field) => (field.id === id ? { ...field, value } : field))] *)
Definition handleChange (id : Z) (v : string) (fields : list Field)
  : list Field :=
  (λ field, if decide (field_id field = id)
            then {| field_id := field_id field; value := v |}
            else field) <$> fields.

(** What the user does: the Add button at clock reading [now], the remove
    button of the [i]-th field (rendered when [fields.length > 1]), typing
    in the [i]-th input. *)
Inductive event :=
  | Add (now : Z)
  | Remove (i : nat)
  | Change (i : nat) (v : string).

Definition step (fields : list Field) (e : event) : list Field :=
  match e with
  | Add now => addField now fields
  | Remove i =>
      match fields !! i with
      | Some field =>
          if decide (1 < length fields)
          then removeField (field_id field) fields
          else fields
      | None => fields
      end
  | Change i v =>
      match fields !! i with
      | Some field => handleChange (field_id field) v fields
      | None => fields
      end
  end.

Definition run (fields : list Field) (evs : list event) : list Field :=
  foldl step fields evs.

(** The clock readings of the Add clicks of a run. *)
Definition stamps (evs : list event) : list Z :=
  omap (λ e, match e with Add now => Some now | _ => None end) evs.

End DynamicForm.

(** ** MultiStepForm (form handling lesson): three steps *)

Module MultiStepForm.

(** The [step] cell and the [formData] object, a map from field name to
    value. *)
Record state := {
  step : Z;
  formData : gmap string string;
}.

Definition initial : state :=
  {| step := 1;
     formData := list_to_map [("firstName", ""); ("lastName", "");
                              ("email", ""); ("phone", "");
                              ("address", ""); ("city", "")] |}.

(** [handleChange]: [setFormData((prev) => ({ ...prev, [name]: value }))] *)
Definition handleChange (name value : string) (s : state) : state :=
  {| step := step s; formData := <[name := value]> (formData s) |}.

(** [nextStep]: [setStep(step + 1)] *)
Definition nextStep (s : state) : state :=
  {| step := step s + 1; formData := formData s |}.

(** [prevStep]: [setStep(step - 1)] *)
Definition prevStep (s : state) : state :=
  {| step := step s - 1; formData := formData s |}.

Inductive event :=
  | Change (name value : string)
  | Next
  | Back.

(** The Next button is rendered in steps 1 and 2, the Back button in steps
    2 and 3. *)
Definition next_rendered (s : state) : bool :=
  bool_decide (step s = 1%Z) || bool_decide (step s = 2%Z).

Definition back_rendered (s : state) : bool :=
  bool_decide (step s = 2%Z) || bool_decide (step s = 3%Z).

Definition deliver (s : state) (e : event) : state :=
  match e with
  | Change name value => handleChange name value s
  | Next => if next_rendered s then nextStep s else s
  | Back => if back_rendered s then prevStep s else s
  end.

Definition run (s : state) (evs : list event) : state := foldl deliver s evs.

End MultiStepForm.

(** ** ValidatedForm (form handling lesson): validation on submit *)

Module ValidatedForm.
Import JS.

(** [\S]: any code unit but white space. *)
Definition non_space (c : ascii) : bool := negb (is_white_space c).

(** The rest of a match of [/\S+@\S+\.\S+/] after the [@]: a run of [\S],
    not empty, then a dot followed by one more [\S].  [seen] tells whether
    the run has a code unit already. *)
Fixpoint domain_dot_rest (seen : bool) (s : list ascii) : bool :=
  match s with
  | [] => false
  | c :: s' =>
      non_space c &&
      ((seen && bool_decide (c = "."%char) &&
        match s' with d :: _ => non_space d | [] => false end)
       || domain_dot_rest true s')
  end.

(** A match somewhere in [s]: a [\S], the [@], and the rest. *)
Fixpoint regex_search (s : list ascii) : bool :=
  match s with
  | [] => false
  | a :: s' =>
      (non_space a &&
       match s' with
       | c :: rest => bool_decide (c = "@"%char) && domain_dot_rest false rest
       | [] => false
       end)
      || regex_search s'
  end.

(** [/\S+@\S+\.\S+/.test(s)] *)
Definition email_regex_test (s : string) : bool :=
  regex_search (String.list_ascii_of_string s).

Record FormData := {
  email : string;
  password : string;
  confirmPassword : string;
}.

(** The [name] attribute of an input of the form. *)
Inductive field := email_field | password_field | confirmPassword_field.

Definition key (f : field) : string :=
  match f with
  | email_field => "email"
  | password_field => "password"
  | confirmPassword_field => "confirmPassword"
  end.

(** [{ ...prev, [name]: value }] *)
Definition set_field (f : field) (v : string) (d : FormData) : FormData :=
  match f with
  | email_field =>
      {| email := v; password := password d;
         confirmPassword := confirmPassword d |}
  | password_field =>
      {| email := email d; password := v;
         confirmPassword := confirmPassword d |}
  | confirmPassword_field =>
      {| email := email d; password := password d; confirmPassword := v |}
  end.

(** The two [useState] cells, [errors] being an object from field name to
    message, and the forms that passed validation
    ([console.log("Valid form submitted:", formData)]). *)
Record state := {
  formData : FormData;
  errors : gmap string string;
  submitted : list FormData;
}.

Definition initial : state :=
  {| formData := {| email := ""; password := ""; confirmPassword := "" |};
     errors := ∅; submitted := [] |}.

(** Truthiness of [errors[name]]: a message that is there and not empty. *)
Definition shown (errors : gmap string string) (name : string) : bool :=
  match errors !! name with
  | Some msg => truthy msg
  | None => false
  end.

(** [handleChange]:
<<
      setFormData((prev) => ({ ...prev, [name]: value }));
      if (errors[name]) { setErrors((prev) => ({ ...prev, [name]: "" })); }
>> *)
Definition handleChange (f : field) (v : string) (s : state) : state :=
  {| formData := set_field f v (formData s);
     errors := if shown (errors s) (key f)
               then <[key f := ""]> (errors s) else errors s;
     submitted := submitted s |}.

(** [validate]: the object of the messages, built field by field. *)
Definition validate (d : FormData) : gmap string string :=
  let newErrors : gmap string string := ∅ in
  let newErrors :=
    if negb (truthy (email d))
    then <["email" := "Email is required"]> newErrors
    else if negb (email_regex_test (email d))
    then <["email" := "Email is invalid"]> newErrors
    else newErrors in
  let newErrors :=
    if negb (truthy (password d))
    then <["password" := "Password is required"]> newErrors
    else if decide (String.length (password d) < 6)
    then <["password" := "Password must be at least 6 characters"]> newErrors
    else newErrors in
  let newErrors :=
    if decide (password d ≠ confirmPassword d)
    then <["confirmPassword" := "Passwords do not match"]> newErrors
    else newErrors in
  newErrors.

(** [handleSubmit]:
<<
      const validationErrors = validate();
      if (Object.keys(validationErrors).length > 0) {
        setErrors(validationErrors); return;
      }
      alert(...); console.log("Valid form submitted:", formData);
>> *)
Definition handleSubmit (s : state) : state :=
  let validationErrors := validate (formData s) in
  if decide (0 < size validationErrors)
  then {| formData := formData s; errors := validationErrors;
          submitted := submitted s |}
  else {| formData := formData s; errors := errors s;
          submitted := submitted s ++ [formData s] |}.

(** What [/\S+@\S+\.\S+/] accepts, in words: somewhere in [s] there are
    three stretches free of white space and not empty, the first followed
    by [@] and the second by a dot. *)
Definition has_email_shape (s : string) : Prop :=
  ∃ pre a b c post : list ascii,
    String.list_ascii_of_string s
    = pre ++ a ++ "@"%char :: b ++ "."%char :: c ++ post ∧
    a ≠ [] ∧ b ≠ [] ∧ c ≠ [] ∧
    Forall (λ x, non_space x = true) a ∧
    Forall (λ x, non_space x = true) b ∧
    Forall (λ x, non_space x = true) c.

(** An edit of the email or of the password field. *)
Definition edit : Type := field * string.

Definition apply_edit (s : state) (e : edit) : state := handleChange e.1 e.2 s.

End ValidatedForm.

(** ** LocalStorageExample.jsx (lesson 15, example 3): state kept in
       [localStorage] *)

Module LocalStorageExample.
Import JS.

(** *** Numbers and their text

    The numbers of this component are integers or [NaN] ([None]). *)
Definition number : Type := option Z.

(** The value of a code unit as a digit: [0-9], then [a-z] or [A-Z] for
    ten and up. *)
Definition digit_value (c : ascii) : option Z :=
  let n := Z.of_nat (nat_of_ascii c) in
  if bool_decide (48 ≤ n ≤ 57)%Z then Some (n - 48)%Z
  else if bool_decide (97 ≤ n ≤ 122)%Z then Some (n - 87)%Z
  else if bool_decide (65 ≤ n ≤ 90)%Z then Some (n - 55)%Z
  else None.

Definition is_digit (radix : Z) (c : ascii) : bool :=
  match digit_value c with
  | Some d => bool_decide (d < radix)%Z
  | None => false
  end.

(** The value of the longest prefix of [s] made of digits of [radix],
    read after [acc]. *)
Fixpoint parse_digits (radix acc : Z) (s : string) : Z :=
  match s with
  | EmptyString => acc
  | String c s' =>
      match digit_value c with
      | Some d =>
          if bool_decide (d < radix)%Z
          then parse_digits radix (acc * radix + d) s'
          else acc
      | None => acc
      end
  end.

Definition strip_sign (s : string) : Z * string :=
  match s with
  | String c s' =>
      if bool_decide (c = "-"%char) then ((-1)%Z, s')
      else if bool_decide (c = "+"%char) then (1%Z, s')
      else (1%Z, s)
  | EmptyString => (1%Z, s)
  end.

Definition strip_hex_prefix (s : string) : Z * string :=
  match s with
  | String c0 (String c1 s') =>
      if bool_decide (c0 = "0"%char) &&
         (bool_decide (c1 = "x"%char) || bool_decide (c1 = "X"%char))
      then (16%Z, s')
      else (10%Z, s)
  | _ => (10%Z, s)
  end.

(** [parseInt(s)]: leading white space is skipped, then a sign, then a
    [0x] prefix, which makes the radix 16; the digits that follow are
    read as far as they go; [NaN] when there is none. *)
Definition parseInt (s : string) : number :=
  let '(sign, s1) := strip_sign (trimStart s) in
  let '(radix, s2) := strip_hex_prefix s1 in
  match s2 with
  | String c _ =>
      if is_digit radix c then Some (sign * parse_digits radix 0 s2)%Z
      else None
  | EmptyString => None
  end.

(** [n.toString()] *)
Definition toString (n : number) : string :=
  match n with
  | Some z => pretty z
  | None => "NaN"
  end.

(** [n + 1] *)
Definition plus_one (n : number) : number := (λ z, z + 1)%Z <$> n.

(** *** The component *)

Definition default_color : string := "#3498db".

(** The three [useState] cells, then the environment: the storage, a map
    from key to text, and the text last assigned to
    [document.body.style.backgroundColor]. *)
Record state := {
  name : string;
  favoriteColor : string;
  visitCount : number;
  storage : gmap string string;
  background : string;
}.

(** [localStorage.getItem(key) || fallback] *)
Definition getItem_or (key fallback : string) (st : gmap string string)
  : string :=
  match st !! key with
  | Some saved => if truthy saved then saved else fallback
  | None => fallback
  end.

Definition setItem (key v : string) (s : state) : state :=
  {| name := name s; favoriteColor := favoriteColor s;
     visitCount := visitCount s; storage := <[key := v]> (storage s);
     background := background s |}.

(** The effect on [name]: [localStorage.setItem("userName", name)] *)
Definition save_name (s : state) : state := setItem "userName" (name s) s.

(** The effect on [favoriteColor]:
<<
      localStorage.setItem("favoriteColor", favoriteColor);
      document.body.style.backgroundColor = favoriteColor + "20";
>> *)
Definition save_color (s : state) : state :=
  let s' := setItem "favoriteColor" (favoriteColor s) s in
  {| name := name s'; favoriteColor := favoriteColor s';
     visitCount := visitCount s'; storage := storage s';
     background := favoriteColor s +:+ "20" |}.

(** The effect of the first render:
<<
      const currentCount = parseInt(localStorage.getItem("visitCount") || "0");
      const newCount = currentCount + 1;
      setVisitCount(newCount);
      localStorage.setItem("visitCount", newCount.toString());
>> *)
Definition count_visit (s : state) : state :=
  let currentCount := parseInt (getItem_or "visitCount" "0" (storage s)) in
  let newCount := plus_one currentCount in
  {| name := name s; favoriteColor := favoriteColor s;
     visitCount := newCount;
     storage := <["visitCount" := toString newCount]> (storage s);
     background := background s |}.

(** The page is loaded with the storage [st]: the cells are initialised
    from it, then the three effects run in the order they are declared. *)
Definition load (st : gmap string string) : state :=
  let initial :=
    {| name := getItem_or "userName" "" st;
       favoriteColor := getItem_or "favoriteColor" default_color st;
       visitCount := match st !! "visitCount" with
                     | Some saved => if truthy saved then parseInt saved
                                     else Some 0%Z
                     | None => Some 0%Z
                     end;
       storage := st;
       background := "" |} in
  count_visit (save_color (save_name initial)).

(** [onChange={(e) => setName(e.target.value)}] *)
Definition onChangeName (v : string) (s : state) : state :=
  if decide (v = name s) then s
  else save_name {| name := v; favoriteColor := favoriteColor s;
                    visitCount := visitCount s; storage := storage s;
                    background := background s |}.

(** [onChange={(e) => setFavoriteColor(e.target.value)}] *)
Definition onChangeColor (v : string) (s : state) : state :=
  if decide (v = favoriteColor s) then s
  else save_color {| name := name s; favoriteColor := v;
                     visitCount := visitCount s; storage := storage s;
                     background := background s |}.

(** [clearData]:
<<
      localStorage.clear(); setName(""); setFavoriteColor("#3498db");
      setVisitCount(0); document.body.style.backgroundColor = "";
>>
    and the effects of the cells that changed, which run after it. *)
Definition clearData (s : state) : state :=
  let cleared :=
    {| name := ""; favoriteColor := default_color; visitCount := Some 0%Z;
       storage := ∅; background := "" |} in
  let after_name :=
    if decide (name s = "") then cleared else save_name cleared in
  if decide (favoriteColor s = default_color) then after_name
  else save_color after_name.

(** The page is refreshed: the cells are lost, the storage is not. *)
Definition reload (s : state) : state := load (storage s).

Inductive event :=
  | TypeName (v : string)
  | PickColor (v : string)
  | ClearData
  | Reload.

Definition step (s : state) (e : event) : state :=
  match e with
  | TypeName v => onChangeName v s
  | PickColor v => onChangeColor v s
  | ClearData => clearData s
  | Reload => reload s
  end.

Definition run (s : state) (evs : list event) : state := foldl step s evs.

(** Only decimal digits. *)
Fixpoint all_decimal (s : string) : bool :=
  match s with
  | EmptyString => true
  | String c s' => is_digit 10 c && all_decimal s'
  end.

(** The storage agrees with the cells: each key holds what its cell
    holds, or is absent while its cell holds the default; the visit count
    is a natural number. *)
Definition in_sync (s : state) : Prop :=
  (storage s !! "userName" = Some (name s) ∨
   (storage s !! "userName" = None ∧ name s = "")) ∧
  (storage s !! "favoriteColor" = Some (favoriteColor s) ∨
   (storage s !! "favoriteColor" = None ∧ favoriteColor s = default_color)) ∧
  ∃ n : Z, (0 ≤ n)%Z ∧ visitCount s = Some n ∧
    (storage s !! "visitCount" = Some (pretty n) ∨
     (storage s !! "visitCount" = None ∧ n = 0%Z)).

End LocalStorageExample.

(** ** Form state objects (part_012, levels 5 and 6)

    What a property of a form's state object holds: the text of an input,
    the flag of a checkbox, or an array of texts. *)

Inductive field_value :=
  | Text (s : string)
  | Flag (b : bool)
  | Items (l : list string).

(** Truthiness of [obj.key], the key possibly missing. *)
Definition truthy_value (v : option field_value) : bool :=
  match v with
  | Some (Text s) => JS.truthy s
  | Some (Flag b) => b
  | Some (Items _) => true
  | None => false
  end.

(** What a handler reads from [e.target]. *)
Module Event.

Record target := {
  name : string;
  value : string;
  type : string;
  checked : bool;
}.

End Event.

(** ** ComplexForm (part_012, level 5): every kind of input *)

Module ComplexForm.
Import JS Event.

(** [formData], the state object. *)
Definition initial : gmap string field_value :=
  <["name" := Text ""]> (<["email" := Text ""]> (<["country" := Text "USA"]>
  (<["gender" := Text ""]> (<["hobbies" := Items []]>
  (<["newsletter" := Flag false]> (<["bio" := Text ""]>
  (<["birthDate" := Text ""]> ∅))))))).

(** [[...prev.hobbies, value]]: spreading an array gives its elements,
    spreading a string its characters, and anything else is not iterable
    (a [TypeError], here [None]). *)
Definition spread_append (v : option field_value) (x : string)
  : option (list string) :=
  match v with
  | Some (Items l) => Some (l ++ [x])
  | Some (Text s) =>
      Some (((λ c, String c "") <$> String.list_ascii_of_string s) ++ [x])
  | _ => None
  end.

(** [prev.hobbies.filter((h) => h !== value)]: only an array has a
    [filter]. *)
Definition filter_out (v : option field_value) (x : string)
  : option (list string) :=
  match v with
  | Some (Items l) => Some (filter (λ h, h ≠ x) l)
  | _ => None
  end.

(** [handleChange], the updater it passes to [setFormData] applied to
    [prev]:
<<
      if (type === "checkbox" && name === "hobbies") {
        setFormData((prev) => ({ ...prev,
          hobbies: checked ? [...prev.hobbies, value]
                           : prev.hobbies.filter((h) => h !== value) }));
      } else if (type === "checkbox") {
        setFormData((prev) => ({ ...prev, [name]: checked }));
      } else {
        setFormData((prev) => ({ ...prev, [name]: value }));
      }
>> *)
Definition handleChange (t : target) (prev : gmap string field_value)
  : option (gmap string field_value) :=
  if bool_decide (type t = "checkbox") && bool_decide (name t = "hobbies")
  then
    hobbies ← (if checked t
               then spread_append (prev !! "hobbies") (value t)
               else filter_out (prev !! "hobbies") (value t));
    Some (<["hobbies" := Items hobbies]> prev)
  else if bool_decide (type t = "checkbox")
  then Some (<[name t := Flag (checked t)]> prev)
  else Some (<[name t := Text (value t)]> prev).

(** [checked={formData.hobbies.includes(h)}]: an array and a string both
    have an [includes]. *)
Definition hobbies_includes (d : gmap string field_value) (h : string)
  : option bool :=
  match d !! "hobbies" with
  | Some (Items l) => Some (bool_decide (h ∈ l))
  | Some (Text s) => Some (includes s h)
  | _ => None
  end.

(** The options the form renders. *)
Inductive country_option := USA | UK | Canada | India.
Inductive gender_option := male | female | other.
Inductive hobby_option := reading | gaming | cooking.

Definition country_value (c : country_option) : string :=
  match c with
  | USA => "USA" | UK => "UK" | Canada => "Canada" | India => "India"
  end.

Definition gender_value (g : gender_option) : string :=
  match g with male => "male" | female => "female" | other => "other" end.

Definition hobby_value (h : hobby_option) : string :=
  match h with
  | reading => "reading" | gaming => "gaming" | cooking => "cooking"
  end.

(** What the user can do with the rendered inputs. *)
Inductive action :=
  | type_name (v : string)
  | type_email (v : string)
  | select_country (c : country_option)
  | pick_gender (g : gender_option)
  | click_hobby (h : hobby_option)
  | click_newsletter
  | type_bio (v : string)
  | pick_birthDate (v : string).

(** The [e.target] of the change event an action raises.  A checkbox is
    controlled: a click delivers the opposite of the [checked] it was
    rendered with. *)
Definition event_target (d : gmap string field_value) (a : action)
  : option target :=
  match a with
  | type_name v =>
      Some {| name := "name"; value := v; type := "text"; checked := false |}
  | type_email v =>
      Some {| name := "email"; value := v; type := "email"; checked := false |}
  | select_country c =>
      Some {| name := "country"; value := country_value c;
              type := "select-one"; checked := false |}
  | pick_gender g =>
      Some {| name := "gender"; value := gender_value g; type := "radio";
              checked := true |}
  | click_hobby h =>
      was ← hobbies_includes d (hobby_value h);
      Some {| name := "hobbies"; value := hobby_value h; type := "checkbox";
              checked := negb was |}
  | click_newsletter =>
      Some {| name := "newsletter"; value := "on"; type := "checkbox";
              checked := negb (truthy_value (d !! "newsletter")) |}
  | type_bio v =>
      Some {| name := "bio"; value := v; type := "textarea";
              checked := false |}
  | pick_birthDate v =>
      Some {| name := "birthDate"; value := v; type := "date";
              checked := false |}
  end.

(** One action: [None] when rendering or the updater throws. *)
Definition step (d : gmap string field_value) (a : action)
  : option (gmap string field_value) :=
  t ← event_target d a; handleChange t d.

Definition run (d : gmap string field_value) (acts : list action)
  : option (gmap string field_value) :=
  foldl (λ o a, d ← o; step d a) (Some d) acts.

(** The state object has the shape the form started with: the same keys,
    every key with a value of its kind, and the choices among the options
    offered. *)
Definition well_formed (d : gmap string field_value) (hobbies : list string)
  : Prop :=
  dom d =@{gset string} dom initial ∧
  d !! "hobbies" = Some (Items hobbies) ∧
  NoDup hobbies ∧
  (∀ x, x ∈ hobbies → ∃ h, x = hobby_value h) ∧
  (∃ b, d !! "newsletter" = Some (Flag b)) ∧
  (∃ c, d !! "country" = Some (Text (country_value c))) ∧
  (d !! "gender" = Some (Text "") ∨
   ∃ g, d !! "gender" = Some (Text (gender_value g))) ∧
  (∀ k, k ∈ ["name"; "email"; "bio"; "birthDate"] →
        ∃ v, d !! k = Some (Text v)).

End ComplexForm.

(** ** useForm and CustomHookDemo (part_012, level 6) *)

Module CustomHookDemo.
Import JS Event.

(** The three [useState] cells of [useForm].  [touched] only ever maps a
    name to [true]: it is the set of its keys. *)
Record form := {
  values : gmap string field_value;
  errors : gmap string string;
  touched : gset string;
}.

(** The hook's cells, and the logins that went through
    ([console.log("Login:", values)]). *)
Record state := {
  hook : form;
  logins : list (gmap string field_value);
}.

(** [useForm({ email: "", password: "" })] *)
Definition initialValues : gmap string field_value :=
  <["email" := Text ""]> (<["password" := Text ""]> ∅).

Definition initial : state :=
  {| hook := {| values := initialValues; errors := ∅; touched := ∅ |};
     logins := [] |}.

(** [handleChange]:
<<
      setValues((prev) => ({ ...prev,
        [name]: type === "checkbox" ? checked : value }));
>> *)
Definition handleChange (t : target) (f : form) : form :=
  {| values := <[name t := if bool_decide (type t = "checkbox")
                           then Flag (checked t) else Text (value t)]>
                 (values f);
     errors := errors f; touched := touched f |}.

(** [handleBlur]: [setTouched((prev) => ({ ...prev, [name]: true }))] *)
Definition handleBlur (name : string) (f : form) : form :=
  {| values := values f; errors := errors f;
     touched := {[ name ]} ∪ touched f |}.

(** [setErrors], which the hook hands out as it is. *)
Definition setErrors (e : gmap string string) (f : form) : form :=
  {| values := values f; errors := e; touched := touched f |}.

(** [resetForm] *)
Definition resetForm (f : form) : form :=
  {| values := initialValues; errors := ∅; touched := ∅ |}.

(** [validate]:
<<
      const newErrors = {};
      if (!values.email) newErrors.email = "Email required";
      if (!values.password) newErrors.password = "Password required";
      return newErrors;
>> *)
Definition validate (values : gmap string field_value) : gmap string string :=
  let newErrors : gmap string string := ∅ in
  let newErrors :=
    if negb (truthy_value (values !! "email"))
    then <["email" := "Email required"]> newErrors else newErrors in
  let newErrors :=
    if negb (truthy_value (values !! "password"))
    then <["password" := "Password required"]> newErrors else newErrors in
  newErrors.

(** [handleSubmit]:
<<
      const validationErrors = validate();
      if (Object.keys(validationErrors).length > 0) {
        setErrors(validationErrors); return;
      }
      alert(...); console.log("Login:", values); resetForm();
>> *)
Definition handleSubmit (s : state) : state :=
  let validationErrors := validate (values (hook s)) in
  if decide (0 < size validationErrors)
  then {| hook := setErrors validationErrors (hook s); logins := logins s |}
  else {| hook := resetForm (hook s);
          logins := logins s ++ [values (hook s)] |}.

(** [{touched.f && errors.f && <span>{errors.f}</span>}]: the message
    under the input named [f], if one is rendered. *)
Definition message (s : state) (f : string) : option string :=
  if decide (f ∈ touched (hook s))
  then match errors (hook s) !! f with
       | Some msg => if truthy msg then Some msg else None
       | None => None
       end
  else None.

Inductive event :=
  | Change (t : target)
  | Blur (name : string)
  | Submit.

Definition step (s : state) (e : event) : state :=
  match e with
  | Change t => {| hook := handleChange t (hook s); logins := logins s |}
  | Blur name => {| hook := handleBlur name (hook s); logins := logins s |}
  | Submit => handleSubmit s
  end.

Definition run (s : state) (evs : list event) : state := foldl step s evs.

Definition is_submit (e : event) : bool :=
  match e with Submit => true | _ => false end.

End CustomHookDemo.

(** ** DocumentTitleExample.jsx (lesson 15, example 4): the tab title *)

Module DocumentTitleExample.
Import JS.

(** The interval of the second effect: when its next tick is due, and the
    [notifications] and [pageTitle] of the render whose effect set it,
    which its callback closes over. *)
Record flasher := {
  next : nat;
  seen_notifications : nat;
  seen_pageTitle : string;
}.

(** ASCII white space in the sense of the DOM: TAB, LF, FF, CR and SP. *)
Definition is_ascii_whitespace (c : ascii) : bool :=
  bool_decide (nat_of_ascii c ∈ [9; 10; 12; 13; 32]).

(** Every run of ASCII white space becomes one space; [in_run] tells that
    the code unit before was white space. *)
Fixpoint collapse_runs (in_run : bool) (s : string) : string :=
  match s with
  | EmptyString => EmptyString
  | String c s' =>
      if is_ascii_whitespace c
      then if in_run then collapse_runs true s'
           else String " " (collapse_runs true s')
      else String c (collapse_runs false s')
  end.

Fixpoint strip_leading (s : string) : string :=
  match s with
  | EmptyString => EmptyString
  | String c s' => if is_ascii_whitespace c then strip_leading s' else s
  end.

Fixpoint strip_trailing (s : string) : string :=
  match s with
  | EmptyString => EmptyString
  | String c s' =>
      match strip_trailing s' with
      | EmptyString =>
          if is_ascii_whitespace c then EmptyString else String c EmptyString
      | r => String c r
      end
  end.

(** "Strip and collapse ASCII white space", which the getter of
    [document.title] applies to the text of the [title] element: the runs
    are collapsed, then leading and trailing white space is removed. *)
Definition strip_and_collapse (s : string) : string :=
  strip_trailing (strip_leading (collapse_runs false s)).

(** The three [useState] cells (the two counters as natural numbers),
    then the environment: the text of the document's [title] element,
    which an assignment to [document.title] replaces, the interval, the
    clock and the mounted flag. *)
Record state := {
  count : nat;
  notifications : nat;
  pageTitle : string;
  title_text : string;
  interval : option flasher;
  now : nat;
  mounted : bool;
}.

(** Reading [document.title]. *)
Definition document_title (s : state) : string :=
  strip_and_collapse (title_text s).

Definition setCount (c : nat) (s : state) : state :=
  {| count := c; notifications := notifications s; pageTitle := pageTitle s;
     title_text := title_text s; interval := interval s;
     now := now s; mounted := mounted s |}.

Definition setNotifications (n : nat) (s : state) : state :=
  {| count := count s; notifications := n; pageTitle := pageTitle s;
     title_text := title_text s; interval := interval s;
     now := now s; mounted := mounted s |}.

Definition setPageTitle (p : string) (s : state) : state :=
  {| count := count s; notifications := notifications s; pageTitle := p;
     title_text := title_text s; interval := interval s;
     now := now s; mounted := mounted s |}.

(** [document.title = t] *)
Definition set_document_title (t : string) (s : state) : state :=
  {| count := count s; notifications := notifications s;
     pageTitle := pageTitle s; title_text := t; interval := interval s;
     now := now s; mounted := mounted s |}.

Definition set_interval (i : option flasher) (s : state) : state :=
  {| count := count s; notifications := notifications s;
     pageTitle := pageTitle s; title_text := title_text s;
     interval := i; now := now s; mounted := mounted s |}.

Definition set_now (t : nat) (s : state) : state :=
  {| count := count s; notifications := notifications s;
     pageTitle := pageTitle s; title_text := title_text s;
     interval := interval s; now := t; mounted := mounted s |}.

Definition set_mounted (b : bool) (s : state) : state :=
  {| count := count s; notifications := notifications s;
     pageTitle := pageTitle s; title_text := title_text s;
     interval := interval s; now := now s; mounted := b |}.

(** [`Count: ${count} | ${pageTitle}`] *)
Definition count_title (c : nat) (p : string) : string :=
  "Count: " +:+ pretty c +:+ " | " +:+ p.

(** [`(${notifications}) ${pageTitle}`] *)
Definition flash_title (n : nat) (p : string) : string :=
  "(" +:+ pretty n +:+ ") " +:+ p.

(** The first effect, [useEffect(..., [count, pageTitle])], and its
    cleanup. *)
Definition title_effect (s : state) : state :=
  set_document_title (count_title (count s) (pageTitle s)) s.

Definition title_cleanup (s : state) : state :=
  set_document_title "React App" s.

(** The second effect, [useEffect(..., [notifications, pageTitle])]:
<<
      if (notifications > 0) {
        document.title = `(${notifications}) ${pageTitle}`;
        const interval = setInterval(() => { ... }, 1000);
        return () => clearInterval(interval);
      }
>> *)
Definition flash_effect (s : state) : state :=
  if decide (0 < notifications s)
  then set_interval
         (Some {| next := now s + TimerExample.periodMs;
                  seen_notifications := notifications s;
                  seen_pageTitle := pageTitle s |})
         (set_document_title (flash_title (notifications s) (pageTitle s)) s)
  else s.

(** Its cleanup, which there is only if the effect set an interval. *)
Definition flash_cleanup (s : state) : state :=
  match interval s with
  | Some _ => set_interval None s
  | None => s
  end.

(** The interval's callback:
<<
      document.title = document.title.startsWith("(")
        ? pageTitle : `(${notifications}) ${pageTitle}`;
>> *)
Definition tick (f : flasher) (s : state) : state :=
  set_document_title
    (if startsWith (document_title s) "("
     then seen_pageTitle f
     else flash_title (seen_notifications f) (seen_pageTitle f)) s.

(** The component mounts in a document whose [title] element holds
    [title0]: both effects run, in the order of the source. *)
Definition mount (title0 : string) : state :=
  flash_effect (title_effect
    {| count := 0; notifications := 0; pageTitle := "React App";
       title_text := title0; interval := None; now := 0;
       mounted := true |}).

(** [onChange={(e) => setPageTitle(e.target.value)}]: both effects depend
    on [pageTitle]; their cleanups run, then the effects. *)
Definition onChangePageTitle (v : string) (s : state) : state :=
  if decide (v = pageTitle s) then s
  else flash_effect (title_effect (flash_cleanup (title_cleanup
         (setPageTitle v s)))).

(** [onClick={() => setCount(count + 1)}] *)
Definition increment (s : state) : state :=
  title_effect (title_cleanup (setCount (count s + 1) s)).

(** [onClick={() => setCount(0)}]: nothing re-renders when the count is
    0 already. *)
Definition resetCount (s : state) : state :=
  if decide (count s = 0) then s
  else title_effect (title_cleanup (setCount 0 s)).

(** [onClick={() => setNotifications(notifications + 1)}] *)
Definition newNotification (s : state) : state :=
  flash_effect (flash_cleanup (setNotifications (notifications s + 1) s)).

(** [onClick={() => setNotifications(0)}] *)
Definition clearNotifications (s : state) : state :=
  if decide (notifications s = 0) then s
  else flash_effect (flash_cleanup (setNotifications 0 s)).

(** The clock advances by [dt]: the ticks that fall due run one after
    the other. *)
Definition elapse (dt : nat) (s : state) : state :=
  let t := now s + dt in
  match interval s with
  | Some f =>
      let k := TimerExample.ticks_due t (next f) in
      set_now t
        (set_interval
           (Some {| next := next f + k * TimerExample.periodMs;
                    seen_notifications := seen_notifications f;
                    seen_pageTitle := seen_pageTitle f |})
           (Nat.iter k (tick f) s))
  | None => set_now t s
  end.

Definition unmount (s : state) : state :=
  set_mounted false (flash_cleanup (title_cleanup s)).

Inductive event :=
  | ChangePageTitle (v : string)
  | Increment
  | ResetCount
  | NewNotification
  | ClearNotifications
  | Elapse (dt : nat)
  | Unmount.

Definition step (s : state) (e : event) : state :=
  match e with
  | Elapse dt => elapse dt s
  | _ =>
      if mounted s then
        match e with
        | ChangePageTitle v => onChangePageTitle v s
        | Increment => increment s
        | ResetCount => resetCount s
        | NewNotification => newNotification s
        | ClearNotifications => clearNotifications s
        | Unmount => unmount s
        | Elapse _ => s
        end
      else s
  end.

Definition run (s : state) (evs : list event) : state := foldl step s evs.

(** While the component is mounted there is an interval exactly when
    there are notifications, its callback sees the current notifications
    and page title, and its next tick is due within a second; the text
    assigned to the title last is the count title, the page title alone,
    or a number in brackets before the page title, which is the number of
    notifications if there are any.  Once it is unmounted the text is
    "React App" and no interval is left. *)
Definition title_invariant (s : state) : Prop :=
  if mounted s then
    match interval s with
    | Some f =>
        0 < notifications s ∧ seen_notifications f = notifications s ∧
        seen_pageTitle f = pageTitle s ∧
        now s < next f ≤ now s + TimerExample.periodMs
    | None => notifications s = 0
    end ∧
    (title_text s = count_title (count s) (pageTitle s) ∨
     title_text s = pageTitle s ∨
     ∃ k, 0 < k ∧ title_text s = flash_title k (pageTitle s) ∧
          (0 < notifications s → k = notifications s))
  else title_text s = "React App" ∧ interval s = None.

Definition is_new_notification (e : event) : bool :=
  match e with NewNotification => true | _ => false end.

End DocumentTitleExample.

(** ** FileUploadForm (part_012, level 7): a file and its preview *)

Module FileUploadForm.
Import JS.

(** A [File] as the form uses it: its name, its MIME type, and the data
    URL a [FileReader] that reads it to the end hands over. *)
Record File := {
  file_name : string;
  file_type : string;
  data_url : string;
}.

(** The two [useState] cells ([preview] is a string or [null]), then the
    environment: the files the readers created so far were started on,
    oldest first, the readers whose [loadend] is still to come, and the
    files handed to the upload ([console.log("Uploading:", selectedFile)]). *)
Record state := {
  selectedFile : option File;
  preview : option string;
  readers : list File;
  reading : gset nat;
  uploads : list File;
}.

Definition setSelectedFile (f : option File) (s : state) : state :=
  {| selectedFile := f; preview := preview s; readers := readers s;
     reading := reading s; uploads := uploads s |}.

Definition setPreview (p : option string) (s : state) : state :=
  {| selectedFile := selectedFile s; preview := p; readers := readers s;
     reading := reading s; uploads := uploads s |}.

(** [new FileReader()] followed by [reader.readAsDataURL(file)] *)
Definition readAsDataURL (f : File) (s : state) : state :=
  {| selectedFile := selectedFile s; preview := preview s;
     readers := readers s ++ [f];
     reading := {[ length (readers s) ]} ∪ reading s;
     uploads := uploads s |}.

Definition finish (i : nat) (s : state) : state :=
  {| selectedFile := selectedFile s; preview := preview s;
     readers := readers s; reading := reading s ∖ {[ i ]};
     uploads := uploads s |}.

Definition initial : state :=
  {| selectedFile := None; preview := Some ""; readers := [];
     reading := ∅; uploads := [] |}.

Definition is_image (f : File) : bool := startsWith (file_type f) "image/".

(** [handleFileChange], [file] being [e.target.files[0]]:
<<
      setSelectedFile(file);
      if (file && file.type.startsWith("image/")) {
        const reader = new FileReader();
        reader.onloadend = () => { setPreview(reader.result); };
        reader.readAsDataURL(file);
      } else {
        setPreview("");
      }
>> *)
Definition handleFileChange (file : option File) (s : state) : state :=
  let s := setSelectedFile file s in
  match file with
  | Some f => if is_image f then readAsDataURL f s else setPreview (Some "") s
  | None => setPreview (Some "") s
  end.

(** [reader.result] once the read is over: the data URL, or [null] when
    the read failed. *)
Definition result (f : File) (ok : bool) : option string :=
  if ok then Some (data_url f) else None.

(** [reader.onloadend] of reader [i]. *)
Definition onloadend (i : nat) (ok : bool) (s : state) : state :=
  match readers s !! i with
  | Some f =>
      if decide (i ∈ reading s)
      then setPreview (result f ok) (finish i s)
      else s
  | None => s
  end.

(** [handleSubmit]:
<<
      if (!selectedFile) { alert("Please select a file first!"); return; }
      console.log("Uploading:", selectedFile);
>> *)
Definition handleSubmit (s : state) : state :=
  match selectedFile s with
  | Some f =>
      {| selectedFile := selectedFile s; preview := preview s;
         readers := readers s; reading := reading s;
         uploads := uploads s ++ [f] |}
  | None => s
  end.

Inductive event :=
  | Choose (file : option File)
  | LoadEnd (i : nat) (ok : bool)
  | Submit.

Definition step (s : state) (e : event) : state :=
  match e with
  | Choose file => handleFileChange file s
  | LoadEnd i ok => onloadend i ok s
  | Submit => handleSubmit s
  end.

Definition run (s : state) (evs : list event) : state := foldl step s evs.

(** The preview that belongs to a selection: the data URL of an image,
    and none for anything else. *)
Definition preview_of (file : option File) : option string :=
  match file with
  | Some f => if is_image f then Some (data_url f) else Some ""
  | None => Some ""
  end.

(** The user picks the next file only when the read of the last one is
    over, and no read fails. *)
Fixpoint one_at_a_time (s : state) (evs : list event) : Prop :=
  match evs with
  | [] => True
  | e :: evs =>
      match e with
      | Choose _ => reading s = ∅
      | LoadEnd _ ok => ok = true
      | Submit => True
      end ∧ one_at_a_time (step s e) evs
  end.

(** Nothing is being read and the preview is the one of the selection, or
    one reader is reading, and what it reads is the selected image. *)
Definition settled_or_reading_selection (s : state) : Prop :=
  (reading s = ∅ ∧ preview s = preview_of (selectedFile s)) ∨
  (∃ i f, reading s = {[ i ]} ∧ readers s !! i = Some f ∧
          selectedFile s = Some f ∧ is_image f = true).

Definition is_loadend_of (i : nat) (e : event) : bool :=
  match e with
  | LoadEnd j _ => bool_decide (j = i)
  | _ => false
  end.

End FileUploadForm.

(** ** SearchForm (part_012, level 7): debounced search on mock data *)

Module SearchForm.
Import JS.

(** The three [useState] cells, then the environment: the mounted flag,
    the clock, the armed timer, and the terms searched for
    ([console.log("Searching for:", debouncedTerm)]), oldest first. *)
Record state := {
  searchTerm : string;
  debouncedTerm : string;
  results : list string;
  mounted : bool;
  now : nat;
  timer : timer_slot;
  searched : list string;
}.

Definition setSearchTerm (v : string) (s : state) : state :=
  {| searchTerm := v; debouncedTerm := debouncedTerm s; results := results s;
     mounted := mounted s; now := now s; timer := timer s;
     searched := searched s |}.

Definition setDebouncedTerm (v : string) (s : state) : state :=
  {| searchTerm := searchTerm s; debouncedTerm := v; results := results s;
     mounted := mounted s; now := now s; timer := timer s;
     searched := searched s |}.

Definition setResults (r : list string) (s : state) : state :=
  {| searchTerm := searchTerm s; debouncedTerm := debouncedTerm s;
     results := r; mounted := mounted s; now := now s; timer := timer s;
     searched := searched s |}.

Definition set_timer (tm : timer_slot) (s : state) : state :=
  {| searchTerm := searchTerm s; debouncedTerm := debouncedTerm s;
     results := results s; mounted := mounted s; now := now s; timer := tm;
     searched := searched s |}.

Definition set_now (t : nat) (s : state) : state :=
  {| searchTerm := searchTerm s; debouncedTerm := debouncedTerm s;
     results := results s; mounted := mounted s; now := t; timer := timer s;
     searched := searched s |}.

Definition set_mounted (b : bool) (s : state) : state :=
  {| searchTerm := searchTerm s; debouncedTerm := debouncedTerm s;
     results := results s; mounted := b; now := now s; timer := timer s;
     searched := searched s |}.

Definition console_log (term : string) (s : state) : state :=
  {| searchTerm := searchTerm s; debouncedTerm := debouncedTerm s;
     results := results s; mounted := mounted s; now := now s;
     timer := timer s; searched := searched s ++ [term] |}.

Definition initial : state :=
  {| searchTerm := ""; debouncedTerm := ""; results := []; mounted := true;
     now := 0; timer := None; searched := [] |}.

(** The double quote of the result lines. *)
Definition quote : string := String "034"%char "".

(** [mockResults]: three lines [Result i for "term"]. *)
Definition mockResults (term : string) : list string :=
  [ "Result 1 for " +:+ quote +:+ term +:+ quote;
    "Result 2 for " +:+ quote +:+ term +:+ quote;
    "Result 3 for " +:+ quote +:+ term +:+ quote ].

(** The first effect, [useEffect(..., [searchTerm])], and its cleanup. *)
Definition debounce_effect (s : state) : state :=
  set_timer (setTimeout (now s) (searchTerm s)) s.

Definition debounce_cleanup (s : state) : state := set_timer clearTimeout s.

(** The second effect, [useEffect(..., [debouncedTerm])]:
<<
      if (debouncedTerm) {
        setResults(mockResults);
        console.log("Searching for:", debouncedTerm);
      } else {
        setResults([]);
      }
>> *)
Definition search_effect (s : state) : state :=
  if truthy (debouncedTerm s)
  then console_log (debouncedTerm s)
         (setResults (mockResults (debouncedTerm s)) s)
  else setResults [] s.

Definition mount : state := search_effect (debounce_effect initial).

(** [onChange={(e) => setSearchTerm(e.target.value)}] *)
Definition onChange (v : string) (s : state) : state :=
  if decide (v = searchTerm s) then s
  else debounce_effect (debounce_cleanup (setSearchTerm v s)).

(** The timer's callback, [setDebouncedTerm(searchTerm)], and the second
    effect when [debouncedTerm] has changed. *)
Definition fire (entry : nat * string) (s : state) : state :=
  let s := set_timer None s in
  if decide (entry.2 = debouncedTerm s) then s
  else search_effect (setDebouncedTerm entry.2 s).

Definition elapse (dt : nat) (s : state) : state :=
  let t := now s + dt in
  match due_by t (timer s) with
  | Some entry => set_now t (fire entry s)
  | None => set_now t s
  end.

Definition unmount (s : state) : state :=
  set_mounted false (debounce_cleanup s).

Inductive event :=
  | Type_ (v : string)
  | Elapse (dt : nat)
  | Unmount.

Definition step (s : state) (e : event) : state :=
  match e with
  | Type_ v => if mounted s then onChange v s else s
  | Elapse dt => elapse dt s
  | Unmount => if mounted s then unmount s else s
  end.

Definition run (s : state) (evs : list event) : state := foldl step s evs.

(** What the list under the input shows for a debounced term. *)
Definition results_for (term : string) : list string :=
  if truthy term then mockResults term else [].

(** The results are those of the debounced term; no empty term was
    searched for; and the debounced term has caught up with the input
    unless a timer is armed that will bring it there within the delay. *)
Definition results_in_step (s : state) : Prop :=
  results s = results_for (debouncedTerm s) ∧
  Forall (λ term, truthy term = true) (searched s) ∧
  match timer s with
  | Some (due, v) =>
      mounted s = true ∧ v = searchTerm s ∧ now s < due ≤ now s + delayMs
  | None => mounted s = false ∨ debouncedTerm s = searchTerm s
  end.

End SearchForm.

(** * Properties *)

(** ** Strings *)

Section Strings.
Import JS.

(** [+:+] is opaque to [simpl]; these two equations unfold it. *)
Lemma append_nil (b : string) : "" +:+ b = b.
Proof. reflexivity. Qed.

Lemma append_cons (c : ascii) (a b : string) :
  String c a +:+ b = String c (a +:+ b).
Proof. reflexivity. Qed.



Lemma trimStart_empty (s : string) :
  trimStart s = "" ↔ all_white_space s = true.
Proof.
  induction s as [|c s IH]; simpl; [done |].
  destruct (is_white_space c); simpl; [done |]. split; discriminate.
Qed.

Lemma trimEnd_empty (s : string) :
  trimEnd s = "" ↔ all_white_space s = true.
Proof.
  induction s as [|c s IH]; simpl; [done |].
  destruct (trimEnd s) as [|x r] eqn:E.
  - destruct (is_white_space c); simpl.
    + by rewrite <- IH.
    + split; discriminate.
  - split; [discriminate |]. rewrite andb_true_iff. intros [_ H].
    apply IH in H. discriminate H.
Qed.

Lemma all_white_space_trimStart (s : string) :
  all_white_space (trimStart s) = all_white_space s.
Proof.
  induction s as [|c s IH]; simpl; [done |].
  destruct (is_white_space c) eqn:E; simpl; [done | by rewrite E].
Qed.

(** [s.trim() === ""] exactly when [s] is made of white space only. *)
Lemma trim_empty (s : string) : trim s = "" ↔ all_white_space s = true.
Proof. unfold trim. by rewrite trimEnd_empty, all_white_space_trimStart. Qed.

End Strings.

Section LowerCase.
Import JS SearchWithDebounce.












End LowerCase.

(** ** DynamicFetch and FetchOnMount *)

Section DynamicFetchFacts.
Import JS DynamicFetch.

(** The continuation of [fetchUser], computed. *)
Lemma fetchUser_resume_inl (r : AxiosResponse User) (s : state) :
  fetchUser_resume (inl r) s
  = (Normal (), setLoading false (setUser (Some (data r)) s)).
Proof. reflexivity. Qed.

Lemma fetchUser_resume_inr (e : JsError) (s : state) :
  fetchUser_resume (inr e) s
  = (Normal (), setLoading false (setError (Some (message e)) s)).
Proof. reflexivity. Qed.

Lemma step_Settle_inflight (s : state) (req : nat) (o : settled User) :
  req ∈ inflight s →
  step s (Settle req o) = exec (fetchUser_resume o) (settle req s).
Proof. intros H. simpl. by rewrite decide_True. Qed.

Lemma run_snoc (s : state) (evs : list event) (e : event) :
  run s (evs ++ [e]) = step (run s evs) e.
Proof. unfold run. by rewrite foldl_app. Qed.

(** No event but a change of [userId] sends a request. *)
Lemma step_sent (s : state) (e : event) :
  sent (step s e)
  = match e with
    | Select k => if decide (k = userId s) then sent s else sent s ++ [k]
    | Settle _ _ => sent s
    end.
Proof.
  destruct e as [k | req o]; simpl.
  - unfold onChange. by destruct (decide (k = userId s)).
  - destruct (decide (req ∈ inflight s)); [| done]. by destruct o.
Qed.

Lemma error_only_in_Error_step (s : state) (e : event) :
  error_only_in_Error s → error_only_in_Error (step s e).
Proof.
  unfold error_only_in_Error, status_of. intros Hs.
  destruct e as [k | req o]; simpl.
  - unfold onChange. destruct (decide (k = userId s)); [done |].
    simpl. by intros [? ?].
  - destruct (decide (req ∈ inflight s)); [| done].
    destruct o as [r | err]; simpl; [| done].
    intros H. specialize (Hs H). destruct (error s); [done |].
    by destruct H.
Qed.

Lemma user_kept_step (s : state) (e : event) :
  is_Some (user s) → is_Some (user (step s e)).
Proof.
  intros H. destruct e as [k | req o]; simpl.
  - unfold onChange. by destruct (decide (k = userId s)).
  - destruct (decide (req ∈ inflight s)); [| done]. by destruct o.
Qed.

End DynamicFetchFacts.

Section DynamicFetchClaims.
Import JS DynamicFetch.




(** C3, as stated, fails on its first half.  Alice has been loaded and
    [userId] changes: the status is [Loading] and the data of the previous
    user is still there; when the new request fails, the status is [Error]
    and the data is there as well. *)
Lemma data_is_kept_outside_Success :
  let s := run mount [Resolve 0 alice; Select 2] in
  let s' := step s (Reject 1 "Network Error") in
  status (fetchState s) = Loading ∧ fs_data (fetchState s) = Some alice ∧
  status (fetchState s') = Error ∧ fs_data (fetchState s') = Some alice ∧
  ¬ data_only_in_Success s ∧ ¬ data_only_in_Success s'.
Proof.
  cbv zeta. repeat split; try done.
  - intros H. by specialize (H (mk_is_Some _ _ eq_refl)).
  - intros H. by specialize (H (mk_is_Some _ _ eq_refl)).
Qed.

(** C3, amended.  In every state DynamicFetch reaches an error is recorded
    only in status [Error], and every operation (a change of [userId], a
    success response, an error response) preserves this.  Data is never
    cleared: once a user is loaded, every operation keeps a user in
    [user], whatever the status becomes. *)
Theorem error_only_in_Error_invariant :
  (∀ evs, error_only_in_Error (run mount evs)) ∧
  (∀ s e, error_only_in_Error s → error_only_in_Error (step s e)) ∧
  (∀ s e, is_Some (user s) → is_Some (user (step s e))).
Proof.
  split; [| split].
  - induction evs as [|e evs IH] using rev_ind.
    + intros [? H]. discriminate H.
    + rewrite run_snoc. by apply error_only_in_Error_step.
  - apply error_only_in_Error_step.
  - apply user_kept_step.
Qed.

Lemma FetchOnMount_error (p : FetchOnMount.state) (err : JsError) :
  FetchOnMount.inflight p = true →
  let p' := FetchOnMount.step p (inr err) in
  FetchOnMount.status_of p' = Error ∧
  FetchOnMount.error p' = Some (message err) ∧
  FetchOnMount.posts p' = FetchOnMount.posts p.
Proof. intros H. unfold FetchOnMount.step. by rewrite H. Qed.

(** C6.  When the error response of the current request (or of any pending
    one) is applied, the status becomes [Error], [error] holds the message
    and the data is the data of before; so in DynamicFetch ([user]) and in
    FetchOnMount ([posts]). *)
Theorem error_response_keeps_data
    (s : state) (req : nat) (err : JsError) (p : FetchOnMount.state) :
  req ∈ inflight s → is_latest s req → FetchOnMount.inflight p = true →
  let s' := step s (Settle req (inr err)) in
  let p' := FetchOnMount.step p (inr err) in
  (status_of s' = Error ∧ error s' = Some (message err) ∧ user s' = user s) ∧
  (FetchOnMount.status_of p' = Error ∧
   FetchOnMount.error p' = Some (message err) ∧
   FetchOnMount.posts p' = FetchOnMount.posts p).
Proof.
  intros Hin _ Hp. cbv zeta. split; [| by apply FetchOnMount_error].
  by rewrite step_Settle_inflight.
Qed.

(** Alice is loaded, [userId] changes and the new request fails: the
    error is shown and Alice is still there. *)
Lemma error_response_keeps_data_witness :
  let s := run mount [Resolve 0 alice; Select 2] in
  let s' := step s (Settle 1 (inr network_error)) in
  (1 ∈ inflight s ∧ is_latest s 1 ∧ user s = Some alice) ∧
  (status_of s' = Error ∧ error s' = Some "Network Error" ∧
   user s' = Some alice).
Proof.
  cbv zeta.
  assert (1 ∈ inflight (run mount [Resolve 0 alice; Select 2])) as Hin
    by (vm_compute; set_solver).
  split; [by repeat split |].
  exact (proj1 (error_response_keeps_data
                  (run mount [Resolve 0 alice; Select 2]) 1 network_error
                  FetchOnMount.mount Hin eq_refl eq_refl)).
Defined.

(** C8.  A response, error or success, never sends a request: the only
    step that sends one is a change of [userId], which sends exactly one,
    for the new id (the first render sends the request for the initial
    id).  So over any stretch of responses, whatever they are, the
    requests sent stay what they were. *)
Theorem no_automatic_retry (s : state) :
  sent mount = [1%Z] ∧
  (∀ req o, sent (step s (Settle req o)) = sent s) ∧
  (∀ k, sent (step s (Select k))
        = if decide (k = userId s) then sent s else sent s ++ [k]) ∧
  (∀ evs, Forall is_settle evs → sent (run s evs) = sent s).
Proof.
  split; [done |]. split; [| split].
  - intros req o. apply (step_sent s (Settle req o)).
  - intros k. apply (step_sent s (Select k)).
  - intros evs. revert s. induction evs as [|e evs IH]; intros s H; [done |].
    inversion H as [|? ? He Hevs]; subst. simpl.
    fold (run (step s e) evs). rewrite IH by done.
    rewrite step_sent. by destruct e.
Qed.

End DynamicFetchClaims.

(** ** DebounceSearchExample *)

Section DebounceFacts.
Import JS DebounceSearchExample.



(** A timer that is due fires, once. *)
Lemma elapse_due (s : state) (dt due : nat) (v : string) :
  timer s = Some (due, v) → due ≤ now s + dt →
  elapse dt s = set_now (now s + dt) (fire (due, v) s).
Proof.
  intros Ht Hle. unfold elapse, due_by. rewrite Ht.
  rewrite decide_True by lia. done.
Qed.

Lemma elapse_no_timer (s : state) (dt : nat) :
  timer s = None → elapse dt s = set_now (now s + dt) s.
Proof. intros Ht. unfold elapse, due_by. by rewrite Ht. Qed.

Lemma onKeyChange_debouncedTerm (key : string) (s : state) :
  debouncedTerm (onKeyChange key s) = key.
Proof.
  unfold onKeyChange, search_effect.
  destruct (decide (key = debouncedTerm s)); [done |]. simpl.
  by destruct (decide (trim key = "")).
Qed.

Lemma onKeyChange_frame (key : string) (s : state) :
  let s' := onKeyChange key s in
  searchTerm s' = searchTerm s ∧ timer s' = timer s ∧ fired s' = fired s ∧
  now s' = now s ∧ mounted s' = mounted s.
Proof.
  cbv zeta. unfold onKeyChange, search_effect.
  destruct (decide (key = debouncedTerm s)); [done |]. simpl.
  by destruct (decide (trim key = "")).
Qed.

Lemma last_value_cons (v0 : string) (k : nat * string) (ks : list (nat * string)) :
  last_value v0 (k :: ks) = last_value k.2 ks.
Proof.
  unfold last_value. revert v0 k.
  induction ks as [|k' ks IH]; intros v0 k; [done |].
  change (List.last ((k :: k' :: ks).*2) v0) with (List.last ((k' :: ks).*2) v0).
  rewrite (IH v0 k'). by rewrite (IH k.2 k').
Qed.



(** As in DynamicFetch, the answer of any pending search is applied when
    it arrives, whatever has been searched for since. *)
Lemma search_response_applied_whatever_request
    (s : state) (req : nat) (response : AxiosResponse (list User)) :
  mounted s = true → req ∈ inflight s →
  let s' := step s (Settle req (inl response)) in
  results s' = data response ∧ isSearching s' = false.
Proof.
  intros Hm Hin. cbv zeta. simpl. by rewrite decide_True, Hm.
Qed.

End DebounceFacts.

Section SearchFacts.
Import JS SearchWithDebounce.

(** After disposal a step leaves the cells and the requests alone; all
    it can do is settle a request that was pending, whose failure is
    printed. *)
Lemma search_disposed_step (w : state) (e : event) :
  search_disposed w →
  search_disposed (step w e) ∧ search_cells (step w e) = search_cells w ∧
  inflight (step w e) ⊆ inflight w ∧
  ∃ lines, console (step w e) = console w ++ lines ∧
           Forall is_search_error lines ∧
           (inflight w = ∅ → lines = []).
Proof.
  intros [Hm Ht]. unfold search_disposed, search_cells.
  assert (∃ lines : list string, console w = console w ++ lines ∧
            Forall is_search_error lines ∧ (inflight w = ∅ → lines = []))
    as Hsame.
  { exists []. by rewrite app_nil_r. }
  destruct e as [v | dt | req o |]; cbn [step].
  - by rewrite Hm.
  - unfold elapse, due_by. by rewrite Ht.
  - destruct (sent w !! req) as [query|]; [| done].
    destruct (decide (req ∈ inflight w)) as [Hin|Hin]; [| done].
    rewrite Hm. destruct o as [response | error].
    + split_and!; [done..| |done]. cbn. set_solver.
    + split_and!; [done..| |]; cbn; [set_solver|].
      exists ["Search error: " +:+ message error]. split_and!; [done| |].
      * apply Forall_singleton. by eexists.
      * set_solver.
  - by rewrite Hm.
Qed.

Lemma search_disposed_run (evs : list event) (w : state) :
  search_disposed w →
  search_disposed (run w evs) ∧ search_cells (run w evs) = search_cells w ∧
  inflight (run w evs) ⊆ inflight w ∧
  ∃ lines, console (run w evs) = console w ++ lines ∧
           Forall is_search_error lines ∧
           (inflight w = ∅ → lines = []).
Proof.
  revert w. induction evs as [|e evs IH]; intros w Hw.
  - split_and!; [done..|]. exists []. by rewrite app_nil_r.
  - destruct (search_disposed_step w e Hw)
      as (Hw' & Heq & Hsub & l1 & Hc1 & Hl1 & He1).
    destruct (IH _ Hw') as (Hw'' & Heq' & Hsub' & l2 & Hc2 & Hl2 & He2).
    change (run w (e :: evs)) with (run (step w e) evs).
    split_and!; [done|congruence|set_solver|].
    exists (l1 ++ l2). split_and!.
    + by rewrite Hc2, Hc1, app_assoc.
    + by apply Forall_app.
    + intros Hempty. rewrite (He1 Hempty), He2; [done|]. set_solver.
Qed.

End SearchFacts.

Section DebounceClaims.
Import JS DebounceSearchExample.




Lemma disposed_step (s : state) (e : event) :
  disposed s →
  disposed (step s e) ∧ debounce_state (step s e) = debounce_state s.
Proof.
  intros [Hm Ht]. unfold disposed, debounce_state.
  destruct e as [v | dt | req o |]; simpl.
  - by rewrite Hm.
  - by rewrite (elapse_no_timer s dt Ht).
  - destruct (decide (req ∈ inflight s)); [| done]. by rewrite Hm.
  - by rewrite Hm.
Qed.

Lemma disposed_run (evs : list event) (s : state) :
  disposed s →
  disposed (run s evs) ∧ debounce_state (run s evs) = debounce_state s.
Proof.
  revert s. induction evs as [|e evs IH]; intros s Hs; [done |].
  destruct (disposed_step s e Hs) as [Hs' Heq].
  destruct (IH _ Hs') as [Hs'' Heq'].
  split; [done |]. simpl. fold (run (step s e) evs). congruence.
Qed.

(** C7.  Disposal clears the pending timer, and from then on whatever the
    event loop delivers (time passing, late responses), the callback never
    runs: the log of callbacks, [debouncedTerm] and [searchTerm] stay what
    they were at disposal and no timer is armed again.  The same holds of
    SearchWithDebounce, whose callback would search or clear the results:
    after disposal its cells and its requests stay as they were.  What
    still runs there is the continuation of a request that was pending at
    disposal: its state updates are ignored, and if the request fails the
    error is printed on the console. *)
Theorem no_callback_after_disposal
    (s : state) (evs : list event)
    (w : SearchWithDebounce.state) (wevs : list SearchWithDebounce.event) :
  mounted s = true → SearchWithDebounce.mounted w = true →
  let s' := run (step s Unmount) evs in
  let w' := SearchWithDebounce.run
              (SearchWithDebounce.step w SearchWithDebounce.Unmount) wevs in
  (timer (step s Unmount) = None ∧
   debounce_state s' = (searchTerm s, debouncedTerm s, None, fired s) ∧
   mounted s' = false) ∧
  (SearchWithDebounce.timer w' = None ∧ search_cells w' = search_cells w ∧
   ∃ lines,
     SearchWithDebounce.console w' = SearchWithDebounce.console w ++ lines ∧
     Forall is_search_error lines ∧
     (SearchWithDebounce.inflight w = ∅ → lines = [])).
Proof.
  intros Hm Hwm. cbv zeta. split.
  - assert (disposed (step s Unmount)) as Hd by (simpl; by rewrite Hm).
    destruct (disposed_run evs _ Hd) as [[Hm' _] Heq].
    split; [| split; [| exact Hm']].
    + simpl. by rewrite Hm.
    + rewrite Heq. simpl. by rewrite Hm.
  - assert (search_disposed
              (SearchWithDebounce.step w SearchWithDebounce.Unmount)) as Hd
      by (simpl; by rewrite Hwm).
    destruct (search_disposed_run wevs _ Hd)
      as ([_ Ht] & Heq & _ & lines & Hc & Hl & He).
    split; [exact Ht |]. split.
    + rewrite Heq. simpl. by rewrite Hwm.
    + exists lines. split; [| split; [exact Hl |]].
      * rewrite Hc. simpl. by rewrite Hwm.
      * intros Hempty. apply He. simpl. by rewrite Hwm.
Qed.

(** The user stops typing "react" 1 ms before the timer is due and the
    component is disposed: nothing fires, then or later.  In
    SearchWithDebounce a search for "lea" is pending at disposal and fails
    afterwards: the cells stay, the error is printed. *)
Lemma no_callback_after_disposal_witness :
  let s := run mount [Type_ "react"; Elapse 499] in
  let s' := run (step s Unmount) [Elapse 1; Elapse 1000; Type_ "x"; Elapse 1000] in
  let w := SearchWithDebounce.run SearchWithDebounce.mount
             [SearchWithDebounce.Type_ "lea"; SearchWithDebounce.Elapse 500;
              SearchWithDebounce.Type_ "lean"] in
  let w' := SearchWithDebounce.run
              (SearchWithDebounce.step w SearchWithDebounce.Unmount)
              [SearchWithDebounce.Elapse 1000;
               SearchWithDebounce.Settle 0 (inr network_error);
               SearchWithDebounce.Elapse 1000] in
  ((mounted s = true ∧ timer s = Some (500, "react")) ∧
   (SearchWithDebounce.mounted w = true ∧
    SearchWithDebounce.timer w = Some (1000, "lean") ∧
    search_cells w = ("lean", [], true, ["lea"]))) ∧
  debounce_state s' = ("react", "", None, []) ∧
  SearchWithDebounce.timer w' = None ∧
  search_cells w' = ("lean", [], true, ["lea"]) ∧
  SearchWithDebounce.console w'
  = ["Search error: " +:+ message network_error].
Proof.
  cbv zeta. split; [done |].
  destruct (no_callback_after_disposal
              (run mount [Type_ "react"; Elapse 499])
              [Elapse 1; Elapse 1000; Type_ "x"; Elapse 1000]
              (SearchWithDebounce.run SearchWithDebounce.mount
                 [SearchWithDebounce.Type_ "lea";
                  SearchWithDebounce.Elapse 500;
                  SearchWithDebounce.Type_ "lean"])
              [SearchWithDebounce.Elapse 1000;
               SearchWithDebounce.Settle 0 (inr network_error);
               SearchWithDebounce.Elapse 1000]
              eq_refl eq_refl) as [(_ & Hs & _) (Ht & Hc & _)].
  split; [exact Hs |]. split; [exact Ht |]. split; [exact Hc | done].
Defined.




End DebounceClaims.

(** ** SearchWithDebounce *)

Section SearchClaims.
Import JS SearchWithDebounce.

(** C5, as stated, fails on SearchWithDebounce.  The request for "a" is
    pending and the transport fails: the error is caught and printed, and
    that is all; no cell records it and the status is [Idle], not
    [Error]. *)
Lemma search_error_is_only_logged :
  let s := run mount [Type_ "a"; Elapse 500] in
  let s' := step s (Settle 0 (inr network_error)) in
  (sent s = ["a"] ∧ 0 ∈ inflight s ∧ status (fetchState s) = Loading) ∧
  throws (searchUsers_resume "a" (inr network_error)) (settle 0 s) = false ∧
  console s' = ["Search error: Network Error"] ∧
  fs_error (fetchState s') = None ∧ status (fetchState s') = Idle.
Proof.
  cbv zeta. split; [split; [done | split; [vm_compute; set_solver | done]] |].
  repeat split; done.
Qed.

(** C5, amended.  Every transport error is caught in the function that
    awaits the request and is never thrown to its caller, and so is any
    completion of that function.  DynamicFetch turns the error into
    [error] (its message) with status [Error]; SearchWithDebounce prints
    it on the console and records nothing: the results are those of
    before and [loading] is cleared. *)
Theorem transport_error_is_caught
    (err : JsError) (s : DynamicFetch.state)
    (query : string) (w : state) :
  ((∀ o, throws (DynamicFetch.fetchUser_resume o) s = false) ∧
   let s' := exec (DynamicFetch.fetchUser_resume (inr err)) s in
   DynamicFetch.error s' = Some (message err) ∧
   DynamicFetch.status_of s' = Error) ∧
  ((∀ o, throws (searchUsers_resume query o) w = false) ∧
   let w' := exec (searchUsers_resume query (inr err)) w in
   console w' = console w ++ ["Search error: " +:+ message err] ∧
   results w' = results w ∧ loading w' = false ∧
   fs_error (fetchState w') = None).
Proof.
  split; (split; [by intros [r | e] | done]).
Qed.




End SearchClaims.

(** ** Gallery *)

Section GalleryClaims.
Import JS Gallery.

Lemma Gallery_run_snoc (s : state) (evs : list event) (e : event) :
  run s (evs ++ [e]) = step (run s evs) e.
Proof. unfold run. by rewrite foldl_app. Qed.

Lemma pages_step (s : state) (e : event) :
  (1 ≤ index s)%Z ∧ Forall (λ page, (1 ≤ page)%Z) (sent s) →
  (1 ≤ index (step s e))%Z ∧ Forall (λ page, (1 ≤ page)%Z) (sent (step s e)).
Proof.
  intros [Hi Hs]. destruct e as [| | req o]; simpl.
  - destruct (previous_disabled s); [done |].
    unfold onClickPrevious, set_index_and_render.
    destruct (decide (index s > 1)%Z); [| done].
    destruct (decide (index s - 1 = index s)%Z); [done |]. simpl.
    split; [lia |]. apply Forall_app. split; [done |].
    apply Forall_singleton. lia.
  - destruct (next_disabled s); [done |].
    unfold onClickNext, set_index_and_render.
    destruct (decide (index s + 1 = index s)%Z); [done |]. simpl.
    split; [lia |]. apply Forall_app. split; [done |].
    apply Forall_singleton. lia.
  - destruct (decide (req ∈ inflight s)); [| done]. by destruct o.
Qed.

(** C9.  The page index starts at 1; Next adds one to it; Previous takes
    one off when it is above 1 and leaves it alone otherwise; in every
    state the pager reaches the index is at least 1, and so is the page of
    every request sent, whose URL is [url page]. *)
Theorem page_index_at_least_one :
  index initial = 1%Z ∧
  (∀ s, index (onClickNext s) = (index s + 1)%Z) ∧
  (∀ s, index (onClickPrevious s)
        = if decide (index s > 1)%Z then (index s - 1)%Z else index s) ∧
  (∀ evs, let s := run mount evs in
     (1 ≤ index s)%Z ∧ Forall (λ page, (1 ≤ page)%Z) (sent s) ∧
     ∀ u, u ∈ requested s → ∃ page, (1 ≤ page)%Z ∧ u = url page).
Proof.
  split; [done |]. split; [| split].
  - intros s. unfold onClickNext, set_index_and_render.
    destruct (decide (index s + 1 = index s)%Z); [lia | done].
  - intros s. unfold onClickPrevious, set_index_and_render.
    destruct (decide (index s > 1)%Z); [| done].
    destruct (decide (index s - 1 = index s)%Z); [lia | done].
  - intros evs. cbv zeta.
    assert ((1 ≤ index (run mount evs))%Z ∧
            Forall (λ page, (1 ≤ page)%Z) (sent (run mount evs))) as [Hi Hs].
    { induction evs as [|e evs IH] using rev_ind.
      - split; [done |]. by apply Forall_singleton.
      - rewrite Gallery_run_snoc. by apply pages_step. }
    split; [done |]. split; [done |].
    intros u Hu. unfold requested in Hu.
    apply list_elem_of_fmap in Hu as (page & -> & Hp).
    exists page. split; [| done].
    by apply (proj1 (Forall_forall _ _) Hs).
Qed.

End GalleryClaims.

(** * More properties of the components *)

(** ** Gallery: one request at a time *)

Section GalleryRuns.
Import JS Gallery.

Lemma one_request_at_a_time_step (s : state) (e : event) :
  one_request_at_a_time s → one_request_at_a_time (step s e).
Proof.
  intros [Hl Hi]. unfold one_request_at_a_time.
  assert (∀ i, one_request_at_a_time
                 (effect (setIndex i s)) ∨ loading s = true) as Heff.
  { intros i. destruct (loading s) eqn:Hld; [by right | left].
    split; simpl.
    - by rewrite last_snoc.
    - rewrite Hi, length_app. simpl.
      replace (pred (length (sent s) + 1)) with (length (sent s)) by lia.
      set_solver. }
  destruct e as [| | req o]; simpl.
  - unfold previous_disabled. destruct (loading s) eqn:Hld.
    { rewrite orb_true_r. by rewrite Hld. }
    rewrite orb_false_r. case_bool_decide as Hone; [by rewrite Hld |].
    unfold onClickPrevious, set_index_and_render.
    destruct (decide (index s > 1)%Z); [| by rewrite Hld].
    destruct (decide (index s - 1 = index s)%Z); [lia |].
    destruct (Heff (index s - 1)%Z) as [Hok | Hbad]; [exact Hok | congruence].
  - unfold next_disabled. destruct (loading s) eqn:Hld; [by rewrite Hld |].
    unfold onClickNext, set_index_and_render.
    destruct (decide (index s + 1 = index s)%Z); [lia |].
    destruct (Heff (index s + 1)%Z) as [Hok | Hbad]; [exact Hok | congruence].
  - destruct (decide (req ∈ inflight s)) as [Hin | Hin]; [| done].
    destruct (loading s) eqn:Hld; [| set_solver].
    rewrite Hi in Hin. apply elem_of_singleton in Hin. subst req.
    destruct o as [r | err]; simpl; (split; [done |]); rewrite Hi; set_solver.
Qed.

Lemma one_request_at_a_time_run (evs : list event) :
  one_request_at_a_time (run mount evs).
Proof.
  induction evs as [|e evs IH] using rev_ind.
  - split; [done |]. simpl. set_solver.
  - rewrite Gallery_run_snoc. by apply one_request_at_a_time_step.
Qed.

(** Because the buttons are disabled while [loading], the pager never has
    two requests pending: in every state it reaches, the last request sent
    is the one for the page shown, a request is pending exactly while
    [loading] and it is that last one.  So a response that is applied
    always answers the request for the current page. *)
Theorem gallery_response_is_for_current_page (evs : list event) :
  let s := run mount evs in
  one_request_at_a_time s ∧
  (∀ req, req ∈ inflight s → loading s = true ∧ sent s !! req = Some (index s)).
Proof.
  cbv zeta. pose proof (one_request_at_a_time_run evs) as [Hl Hi].
  split; [done |]. intros req Hin. rewrite Hi in Hin.
  destruct (loading (run mount evs)); [| set_solver].
  split; [done |]. apply elem_of_singleton in Hin. subst req.
  by rewrite <- last_lookup.
Qed.

(** Turning to a page whose request fails leaves the images of the page
    before on display under the new page number: the index has moved, the
    images have not, and nothing records the failure. *)
Theorem gallery_failed_page_keeps_images (evs : list event) (err : JsError) :
  let s := run mount evs in
  loading s = false →
  let s' := run s [ClickNext; Settle (length (sent s)) (inr err)] in
  index s' = (index s + 1)%Z ∧ userData s' = userData s ∧
  loading s' = false ∧ inflight s' = ∅ ∧
  sent s' = sent s ++ [(index s + 1)%Z].
Proof.
  cbv zeta. intros Hld.
  pose proof (one_request_at_a_time_run evs) as [Hl Hi].
  rewrite Hld in Hi. set (s := run mount evs) in *.
  assert (step s ClickNext = effect (setIndex (index s + 1)%Z s)) as Hnext.
  { simpl. unfold next_disabled. rewrite Hld.
    unfold onClickNext, set_index_and_render.
    rewrite decide_False by lia. done. }
  change (run s [ClickNext; Settle (length (sent s)) (inr err)])
    with (step (step s ClickNext) (Settle (length (sent s)) (inr err))).
  rewrite Hnext. simpl. rewrite decide_True by set_solver. simpl.
  repeat split; try done. rewrite Hi. set_solver.
Qed.

Lemma gallery_failed_page_keeps_images_witness :
  let s := run mount [Settle 0 (inl (Build_AxiosResponse [sample_image]))] in
  let s' := run s [ClickNext; Settle 1 (inr network_error)] in
  (loading s = false ∧ index s = 1%Z ∧ userData s = [sample_image]) ∧
  index s' = 2%Z ∧ userData s' = [sample_image].
Proof.
  cbv zeta. split; [done |].
  destruct (gallery_failed_page_keeps_images
              [Settle 0 (inl (Build_AxiosResponse [sample_image]))]
              network_error eq_refl) as (Hi & Hu & _).
  split; [exact Hi | exact Hu].
Defined.

End GalleryRuns.

(** ** DynamicFetch: what [loading] and the last request say *)

Section DynamicFetchRuns.
Import JS DynamicFetch.

Lemma latest_request_tracks_userId_step (s : state) (e : event) :
  latest_request_tracks_userId s → latest_request_tracks_userId (step s e).
Proof.
  intros (Hl & Hr & Hld). unfold latest_request_tracks_userId.
  destruct e as [k | req o]; simpl.
  - unfold onChange. destruct (decide (k = userId s)); [done |]. simpl.
    rewrite last_snoc, length_app. simpl.
    replace (pred (length (sent s) + 1)) with (length (sent s)) by lia.
    split; [done |]. split; [| set_solver].
    intros req [Hreq | Hreq]%elem_of_union.
    + apply elem_of_singleton in Hreq. lia.
    + specialize (Hr _ Hreq). lia.
  - destruct (decide (req ∈ inflight s)); [| done].
    destruct o as [r | err]; simpl;
      (split; [done |]; split; [| done]; intros q Hq; apply Hr; set_solver).
Qed.

(** In every state DynamicFetch reaches, the last request sent is the one
    for the selected [userId], only requests that were sent are pending,
    and the loading block is shown only while that last request is
    pending: the spinner never outlives the request for the user on
    display. *)
Theorem loading_only_while_latest_pending (evs : list event) :
  latest_request_tracks_userId (run mount evs).
Proof.
  induction evs as [|e evs IH] using rev_ind.
  - split; [done |]. split; [| intros _; simpl; set_solver].
    intros req Hreq. simpl in *. apply elem_of_union in Hreq as [Hreq | Hreq].
    + apply elem_of_singleton in Hreq. lia.
    + set_solver.
  - rewrite run_snoc. by apply latest_request_tracks_userId_step.
Qed.

End DynamicFetchRuns.

(** ** FetchOnMount: the six posts *)

Section FetchOnMountRuns.
Import JS FetchOnMount.

(** The one request of FetchOnMount is answered once: the first response
    decides the state and whatever is delivered later changes nothing.  A
    success shows the first six posts of the response (all of them when
    there are fewer), never more than six; a failure shows the error and
    no post. *)
Theorem fetch_on_mount_first_response_decides
    (o : settled (list Post)) (later : list (settled (list Post))) :
  let s := foldl step mount (o :: later) in
  s = step mount o ∧
  loading s = false ∧ length (posts s) ≤ 6 ∧
  match o with
  | inl response =>
      posts s = take 6 (data response) ∧ error s = None ∧
      (length (data response) ≤ 6 → posts s = data response)
  | inr err => posts s = [] ∧ error s = Some (message err)
  end.
Proof.
  cbv zeta. simpl foldl.
  assert (∀ l s, inflight s = false → foldl step s l = s) as Hdone.
  { induction l as [|x l IH]; intros s Hs; [done |].
    simpl. unfold step at 2. rewrite Hs. by apply IH. }
  rewrite Hdone by (by destruct o).
  split; [done |]. destruct o as [response | err]; simpl.
  - split; [done |]. split; [rewrite length_take; lia |].
    split; [done |]. split; [done |]. intros Hle. by apply take_ge.
  - split; [done |]. split; [lia | done].
Qed.

End FetchOnMountRuns.

(** ** DebounceSearchExample: the debounced term catches up *)

Section DebounceRuns.
Import JS DebounceSearchExample.

Lemma Debounce_run_snoc (s : state) (evs : list event) (e : event) :
  run s (evs ++ [e]) = step (run s evs) e.
Proof. unfold run. by rewrite foldl_app. Qed.

Lemma caught_up_or_armed_step (s : state) (e : event) :
  caught_up_or_armed s → caught_up_or_armed (step s e).
Proof.
  unfold caught_up_or_armed. intros Hs.
  destruct e as [v | dt | req o |]; simpl.
  - destruct (mounted s) eqn:Hm; [| by rewrite Hm].
    unfold onValueChange. destruct (decide (v = searchTerm s)); [by rewrite Hm |].
    simpl. intros _. split; [done |]. unfold delayMs. lia.
  - unfold elapse, due_by. destruct (timer s) as [[due v] |] eqn:Ht.
    + destruct (decide (due ≤ now s + dt)) as [Hdue | Hdue]; simpl.
      * unfold fire. simpl.
        destruct (onKeyChange_frame v (log_fired (due, v) (set_timer None s)))
          as (Hst & Htm & _ & _ & Hmt).
        rewrite Hst, Htm, Hmt, onKeyChange_debouncedTerm. simpl.
        intros Hm. by destruct (Hs Hm) as [-> _].
      * rewrite Ht. intros Hm. destruct (Hs Hm) as [-> [? ?]].
        split; [done | lia].
    + simpl. by rewrite Ht.
  - destruct (decide (req ∈ inflight s)); [| done].
    destruct (mounted s) eqn:Hm; [| simpl; by rewrite Hm].
    destruct o as [r | err]; simpl; intros _; by apply Hs.
  - destruct (mounted s) eqn:Hm; [done | by rewrite Hm].
Qed.

Lemma caught_up_or_armed_run (evs : list event) :
  caught_up_or_armed (run mount evs).
Proof.
  induction evs as [|e evs IH] using rev_ind.
  - intros _. simpl. split; [done |]. unfold delayMs. lia.
  - rewrite Debounce_run_snoc. by apply caught_up_or_armed_step.
Qed.

(** Whatever has happened to a DebounceSearchExample that is still
    mounted, [delayMs] of quiet is enough for the debounced term to catch
    up: after a wait of [delayMs] or more with no keystroke,
    [debouncedTerm] is what the input holds and no timer is left armed. *)
Theorem debounced_term_catches_up (evs : list event) (d : nat) :
  let s := run mount evs in
  mounted s = true → delayMs ≤ d →
  let s' := step s (Elapse d) in
  debouncedTerm s' = searchTerm s ∧ searchTerm s' = searchTerm s ∧
  timer s' = None.
Proof.
  cbv zeta. intros Hm Hd.
  pose proof (caught_up_or_armed_run evs Hm) as Hs.
  set (s := run mount evs) in *. simpl.
  destruct (timer s) as [[due v] |] eqn:Ht.
  - destruct Hs as [-> [? ?]].
    rewrite (elapse_due s d _ _ Ht) by lia. simpl. unfold fire. simpl.
    destruct (onKeyChange_frame (searchTerm s)
                (log_fired (due, searchTerm s) (set_timer None s)))
      as (Hst & Htm & _ & _ & _).
    by rewrite Hst, Htm, onKeyChange_debouncedTerm.
  - by rewrite (elapse_no_timer s d Ht).
Qed.

Lemma debounced_term_catches_up_witness :
  let s := run mount [Type_ "re"; Elapse 200; Type_ "react"; Elapse 499] in
  (mounted s = true ∧ debouncedTerm s = "" ∧ searchTerm s = "react") ∧
  debouncedTerm (step s (Elapse 500)) = "react".
Proof.
  cbv zeta. split; [done |].
  exact (proj1 (debounced_term_catches_up
                  [Type_ "re"; Elapse 200; Type_ "react"; Elapse 499] 500
                  eq_refl ltac:(unfold delayMs; lia))).
Defined.

Lemma search_effect_requests (s : state) :
  let s' := search_effect s in
  fired s' = fired s ∧
  ((trim (debouncedTerm s) = "" ∧ sent s' = sent s ∧
    searchCount s' = searchCount s) ∨
   (trim (debouncedTerm s) ≠ "" ∧ sent s' = sent s ++ [debouncedTerm s] ∧
    searchCount s' = searchCount s + 1)).
Proof.
  cbv zeta. unfold search_effect.
  destruct (decide (trim (debouncedTerm s) = "")); simpl.
  - split; [done |]. by left.
  - split; [done |]. by right.
Qed.

Lemma requests_accounted_fire (s : state) (entry : nat * string) :
  requests_accounted s → requests_accounted (fire entry s).
Proof.
  intros (Hc & Hb & Hsub). unfold requests_accounted, fire, onKeyChange.
  destruct (decide _) as [Heq | Hne]; simpl.
  - split; [done |]. split; [done |].
    rewrite fmap_app. by apply sublist_inserts_r.
  - destruct (search_effect_requests
                (setDebouncedTerm entry.2 (log_fired entry (set_timer None s))))
      as [Hf [(_ & Hs & Hn) | (Hnb & Hs & Hn)]];
      rewrite Hf, Hs, Hn; simpl in *.
    + split; [done |]. split; [done |].
      rewrite fmap_app. by apply sublist_inserts_r.
    + split; [rewrite length_app; simpl; lia |].
      split; [apply Forall_app; split; [done | by apply Forall_singleton] |].
      rewrite fmap_app. by apply sublist_app.
Qed.

Lemma requests_accounted_step (s : state) (e : event) :
  requests_accounted s → requests_accounted (step s e).
Proof.
  intros Hs. destruct e as [v | dt | req o |]; simpl.
  - destruct (mounted s); [| done]. unfold onValueChange.
    by destruct (decide (v = searchTerm s)).
  - unfold elapse. destruct (due_by _ _) as [entry |]; [| done].
    by apply (requests_accounted_fire s entry) in Hs.
  - destruct (decide (req ∈ inflight s)); [| done].
    destruct (mounted s); [| done]. by destruct o.
  - by destruct (mounted s).
Qed.

(** In every state DebounceSearchExample reaches, the counter shown as
    "API Calls Made" is the number of requests actually sent, no request
    was sent for a blank term, and the terms requested are, in order,
    among the values the timer callback delivered: typing alone never
    sends a request. *)
Theorem api_calls_counter_is_exact (evs : list event) :
  requests_accounted (run mount evs) ∧
  (∀ s v, sent (step s (Type_ v)) = sent s).
Proof.
  split.
  - induction evs as [|e evs IH] using rev_ind.
    + split; [done |]. split; [by apply Forall_nil | done].
    + rewrite Debounce_run_snoc. by apply requests_accounted_step.
  - intros s v. simpl. destruct (mounted s); [| done].
    unfold onValueChange. by destruct (decide (v = searchTerm s)).
Qed.

End DebounceRuns.

(** ** SearchWithDebounce: one request for a burst of typing *)

Section SearchRuns.
Import JS SearchWithDebounce.

Lemma search_onValueChange_armed (v : string) (w : state) :
  mounted w = true → v ≠ searchTerm w →
  let w' := step w (Type_ v) in
  search_armed w' ∧ searchTerm w' = v ∧
  sent w' = sent w ∧ results w' = results w ∧ loading w' = loading w.
Proof.
  intros Hm Hv. cbv zeta. simpl. rewrite Hm. unfold onValueChange.
  rewrite decide_False by done. done.
Qed.

Lemma search_typing_keeps_armed (ks : list (nat * string)) (w : state) :
  search_armed w → changing (searchTerm w) ks → rapid ks →
  let w' := run w ((ks ≫= λ k, [Elapse k.1; Type_ k.2])) in
  search_armed w' ∧ searchTerm w' = last_value (searchTerm w) ks ∧
  sent w' = sent w ∧ results w' = results w ∧ loading w' = loading w.
Proof.
  revert w. induction ks as [|[dt v] ks IH]; intros w Ha Hc Hr; [done |].
  cbv zeta. destruct Hc as [Hv Hc]. simpl in Hv, Hc.
  apply Forall_cons in Hr as [Hdt Hr]. simpl in Hdt.
  destruct Ha as [Hm Ht].
  change (run w ((((dt, v) :: ks) ≫= λ k, [Elapse k.1; Type_ k.2])))
    with (run (step (step w (Elapse dt)) (Type_ v))
            (ks ≫= λ k, [Elapse k.1; Type_ k.2])).
  assert (step w (Elapse dt) = set_now (now w + dt) w) as ->.
  { simpl. unfold elapse, due_by. rewrite Ht.
    rewrite decide_False by lia. done. }
  destruct (search_onValueChange_armed v (set_now (now w + dt) w))
    as (Ha' & Hs' & Hse' & Hre' & Hlo'); [done | done |].
  destruct (IH _ Ha') as (Ha'' & Hs'' & Hse'' & Hre'' & Hlo'').
  { by rewrite Hs'. }
  { done. }
  split; [done |]. rewrite Hs'', Hse'', Hre'', Hlo'', Hs', Hse', Hre', Hlo'.
  split; [| done]. by rewrite last_value_cons.
Qed.

(** A burst of typing costs SearchWithDebounce one request.  Take a
    mounted component and keystrokes that each change the input and come
    less than [delayMs] apart: nothing is sent while they arrive or for
    any shorter wait after the last; a wait of [delayMs] or more sends
    exactly one request, for the last value typed, when that value is not
    blank, and sends nothing and clears the results when it is. *)
Theorem one_request_per_burst
    (w : state) (v0 : string) (ks : list (nat * string)) :
  mounted w = true → changing (searchTerm w) ((0, v0) :: ks) → rapid ks →
  let w1 := run (step w (Type_ v0)) (ks ≫= λ k, [Elapse k.1; Type_ k.2]) in
  let v := last_value v0 ks in
  sent w1 = sent w ∧
  (∀ d, d < delayMs → sent (step w1 (Elapse d)) = sent w) ∧
  (∀ d, delayMs ≤ d →
     let w2 := step w1 (Elapse d) in
     timer w2 = None ∧
     if truthy (trim v)
     then sent w2 = sent w ++ [v] ∧ loading w2 = true
     else sent w2 = sent w ∧ results w2 = []).
Proof.
  intros Hm [Hv0 Hc] Hr. simpl in Hv0, Hc. cbv zeta.
  destruct (search_onValueChange_armed v0 w Hm Hv0) as (Ha & Hs & Hse & _ & _).
  destruct (search_typing_keeps_armed ks (step w (Type_ v0)) Ha)
    as ([Hm1 Ht1] & Hs1 & Hse1 & _ & _).
  { by rewrite Hs. }
  { done. }
  rewrite Hs in Hs1. rewrite Hse in Hse1.
  set (w1 := run (step w (Type_ v0)) (ks ≫= λ k, [Elapse k.1; Type_ k.2])) in *.
  split; [done |]. split.
  - intros d Hlt. simpl. unfold elapse, due_by. rewrite Ht1.
    rewrite decide_False by lia. done.
  - intros d Hle. simpl. unfold elapse, due_by. rewrite Ht1.
    rewrite decide_True by lia. simpl. unfold delayDebounce.
    rewrite Hs1. destruct (truthy (trim (last_value v0 ks))); simpl.
    + by rewrite Hse1.
    + by rewrite Hse1.
Qed.

Lemma one_request_per_burst_witness :
  let ks := [(100, "re"); (100, "rea"); (100, "react")] in
  let w1 := run (step mount (Type_ "r")) (ks ≫= λ k, [Elapse k.1; Type_ k.2]) in
  (mounted mount = true ∧ changing (searchTerm mount) ((0, "r") :: ks) ∧ rapid ks) ∧
  sent w1 = [] ∧ sent (step w1 (Elapse 499)) = [] ∧
  sent (step w1 (Elapse 500)) = ["react"].
Proof.
  cbv zeta.
  assert (changing (searchTerm mount)
            [(0, "r"); (100, "re"); (100, "rea"); (100, "react")]) as Hc
    by (by repeat split).
  assert (rapid [(100, "re"); (100, "rea"); (100, "react")]) as Hr
    by (repeat constructor; unfold delayMs; simpl; lia).
  split; [by repeat split |].
  destruct (one_request_per_burst mount "r"
              [(100, "re"); (100, "rea"); (100, "react")] eq_refl Hc Hr)
    as (H0 & Hshort & Hlong).
  split; [exact H0 |].
  split; [exact (Hshort 499 ltac:(unfold delayMs; lia)) |].
  exact (proj1 (proj2 (Hlong 500 ltac:(unfold delayMs; lia)))).
Defined.

End SearchRuns.

(** ** CreateData *)

Section CreateDataRuns.
Import JS CreateData.

Lemma CreateData_run_snoc (s : state) (evs : list event) (e : event) :
  run s (evs ++ [e]) = step (run s evs) e.
Proof. unfold run. by rewrite foldl_app. Qed.

Lemma truthy_nonempty (v : string) : truthy v = true → v ≠ "".
Proof. by destruct v. Qed.

Lemma consistent_step (s : state) (e : event) :
  consistent s → consistent (step s e).
Proof.
  intros (Hld & Hex & Hin & Hs). unfold consistent.
  destruct e as [v | v | | req o]; simpl; [done | done | |].
  - unfold can_submit. destruct (loading s) eqn:Hl; simpl.
    { by rewrite Hl. }
    destruct (truthy (title (formData s))) eqn:Ht; simpl; [| by rewrite Hl].
    destruct (truthy (body (formData s))) eqn:Hb; simpl; [| by rewrite Hl].
    split; [done |]. split; [by intros [? ?] |]. split.
    + rewrite Hin, length_app. simpl.
      replace (pred (length (sent s) + 1)) with (length (sent s)) by lia.
      set_solver.
    + apply Forall_app. split; [done |]. apply Forall_singleton.
      split; by apply truthy_nonempty.
  - destruct (decide (req ∈ inflight s)) as [Hreq | Hreq]; [| done].
    destruct (loading s) eqn:Hl; [| set_solver].
    destruct (Hld eq_refl) as [Hr He].
    rewrite Hin in Hreq. apply elem_of_singleton in Hreq. subst req.
    destruct o as [r | err]; simpl.
    + split; [done |]. split; [done |]. split; [rewrite Hin; set_solver | done].
    + split; [done |]. split; [rewrite Hr; by intros [? ?] |].
      split; [rewrite Hin; set_solver | done].
Qed.

(** In every state CreateData reaches: while a submission is pending
    neither a response nor an error is shown; a response and an error are
    never shown together; at most one request is pending, the last one,
    and exactly while [loading]; and no form was ever posted with an empty
    title or an empty body. *)
Theorem create_data_is_consistent (evs : list event) :
  consistent (run initial evs).
Proof.
  induction evs as [|e evs IH] using rev_ind.
  - split; [done |]. split; [done |]. split; [done | by apply Forall_nil].
  - rewrite CreateData_run_snoc. by apply consistent_step.
Qed.

Lemma typing_frame (evs : list event) (s : state) :
  Forall is_typing evs →
  let s' := run s evs in
  loading s' = loading s ∧ inflight s' = inflight s ∧ sent s' = sent s ∧
  response s' = response s ∧ error s' = error s.
Proof.
  revert s. induction evs as [|e evs IH]; intros s H; [done |].
  apply Forall_cons in H as [He H]. cbv zeta. simpl.
  fold (run (step s e) evs). destruct (IH (step s e) H) as (-> & -> & -> & -> & ->).
  by destruct e.
Qed.

(** A submission posts the form as it stands and what happens to the form
    depends on the answer, whatever the user types in between.  When the
    request fails, the form is left alone: it holds what the user has typed
    up to then, and the error is shown.  When it succeeds, the form is
    reset to blank, so text typed while the request was pending is lost,
    and the created post is shown. *)
Theorem submit_outcome_and_form
    (s : state) (typed : list event) (o : settled Created) :
  can_submit s = true → inflight s = ∅ → Forall is_typing typed →
  let s1 := step s Submit in
  let s2 := run s1 typed in
  let s3 := step s2 (Settle (length (sent s)) o) in
  sent s1 = sent s ++ [formData s] ∧ loading s2 = true ∧
  loading s3 = false ∧
  match o with
  | inl res =>
      formData s3 = blank_form ∧ response s3 = Some (data res) ∧
      error s3 = None
  | inr err =>
      formData s3 = formData s2 ∧ response s3 = None ∧
      error s3 = Some (message err)
  end.
Proof.
  intros Hc Hin Ht. cbv zeta.
  assert (step s Submit = handleSubmit_start s) as Hs1 by (simpl; by rewrite Hc).
  rewrite Hs1.
  destruct (typing_frame typed (handleSubmit_start s) Ht)
    as (Hl & Hi & Hse & Hr & He).
  simpl in Hl, Hi, Hse, Hr, He. rewrite Hin in Hi.
  split; [done |]. split; [done |].
  simpl. rewrite decide_True by (rewrite Hi; set_solver).
  destruct o as [res | err]; simpl; [done |]. by rewrite Hr.
Qed.

Lemma submit_outcome_and_form_witness :
  let s := run initial [TypeTitle "Hello"; TypeBody "First post"] in
  let created_post :=
    {| created_id := 101;
       created := {| title := "Hello"; body := "First post"; userId := 1 |} |} in
  let s3 := run s [Submit; TypeTitle "Hello again";
                   Settle 0 (inl (Build_AxiosResponse created_post))] in
  (can_submit s = true ∧ inflight s = ∅) ∧
  formData s3 = blank_form ∧ response s3 = Some created_post.
Proof.
  cbv zeta. split; [done |].
  destruct (submit_outcome_and_form
              (run initial [TypeTitle "Hello"; TypeBody "First post"])
              [TypeTitle "Hello again"]
              (inl (Build_AxiosResponse
                      {| created_id := 101;
                         created := {| title := "Hello"; body := "First post";
                                       userId := 1 |} |}))
              eq_refl eq_refl
              ltac:(repeat constructor))
    as (_ & _ & _ & Hf & Hr & _).
  split; [exact Hf | exact Hr].
Defined.

End CreateDataRuns.

(** ** FetchDataExample *)

Section FetchDataExampleFacts.
Import JS FetchDataExample.

(** How FetchDataExample treats an answer.  Nothing is ever thrown out of
    the promise chain and [loading] is cleared in every case.  The user is
    replaced only by a response whose status is ok and whose body parses;
    a response whose status is not ok is reported as "Failed to fetch"
    and its body is ignored, even where it would parse; a network failure
    and a body that does not parse are reported with the message they
    carry. *)
Theorem fetch_response_ok_is_checked
    (s : state) (req : nat) (o : FetchResponse + JsError) :
  req ∈ inflight s →
  let s' := step s (Settle req o) in
  throws (chain o) (settle req s) = false ∧ loading s' = false ∧
  match o with
  | inl response =>
      if ok response
      then match json response with
           | inl data => user s' = Some data ∧ error s' = error s
           | inr err => user s' = user s ∧ error s' = Some (message err)
           end
      else user s' = user s ∧ error s' = Some "Failed to fetch"
  | inr err => user s' = user s ∧ error s' = Some (message err)
  end.
Proof.
  intros Hin. cbv zeta. simpl. rewrite decide_True by done.
  destruct o as [[[] [d | e]] | e]; done.
Qed.

Lemma fetch_response_ok_is_checked_witness :
  let s := step mount (Settle 0 (inl {| ok := true; json := inl alice |})) in
  let s1 := step s (Select 2) in
  let s2 := step s1 (Settle 1 (inl {| ok := false; json := inl bob |})) in
  (1 ∈ inflight s1 ∧ user s1 = Some alice) ∧
  user s2 = Some alice ∧ error s2 = Some "Failed to fetch".
Proof.
  cbv zeta.
  assert (1 ∈ inflight
            (step (step mount (Settle 0 (inl {| ok := true; json := inl alice |})))
               (Select 2))) as Hin by (vm_compute; set_solver).
  split; [split; [exact Hin | by vm_compute] |].
  destruct (fetch_response_ok_is_checked _ 1
              (inl {| ok := false; json := inl bob |}) Hin) as (_ & _ & Hu & He).
  split; [rewrite Hu; by vm_compute | exact He].
Defined.

End FetchDataExampleFacts.

(** ** BasicFetch *)

Section BasicFetchFacts.
Import JS BasicFetch.

Lemma BasicFetch_consistent_step (s : state) (e : event) :
  consistent s → consistent (step s e).
Proof.
  intros [Hld Hin]. unfold consistent. destruct e as [| req o]; simpl.
  - destruct (loading s) eqn:Hl; [by rewrite Hl |]. simpl.
    split; [done |]. rewrite Hin. set_solver.
  - destruct (decide (req ∈ inflight s)) as [Hreq | Hreq]; [| done].
    destruct (loading s) eqn:Hl; [| set_solver].
    rewrite Hin in Hreq. apply elem_of_singleton in Hreq. subst req.
    destruct o as [r | err]; simpl; (split; [done |]; rewrite Hin; set_solver).
Qed.

(** In every state BasicFetch reaches, no error is shown while a fetch is
    pending (a new click clears the old error at once), and at most one
    request is pending, the last one, exactly while [loading].  And what
    the render shows of the users adds up: the users listed are the first
    of the list, at most five, and together with the number in
    "...and n more" they account for the number in the heading; the
    "more" line is there exactly when there are more than five. *)
Theorem basic_fetch_listing_adds_up (evs : list event) :
  let s := run initial evs in
  consistent s ∧
  match render_users s with
  | Some shown =>
      heading shown = length (users s) ∧ listed shown `prefix_of` users s ∧
      length (listed shown) ≤ 5 ∧
      length (listed shown) + default 0 (more shown) = heading shown ∧
      (is_Some (more shown) ↔ 5 < length (users s))
  | None => users s = []
  end.
Proof.
  cbv zeta. split.
  - induction evs as [|e evs IH] using rev_ind; [done |].
    unfold run. rewrite foldl_app. by apply BasicFetch_consistent_step.
  - unfold render_users.
    destruct (decide _) as [Hpos | Hpos]; cbn [heading listed more].
    + split; [done |]. split; [apply prefix_take |].
      rewrite length_take. split; [lia |].
      destruct (decide _) as [Hmore | Hmore]; cbn [from_option id].
      * split; [lia |]. split; [done | intros _; by eexists].
      * split; [lia |]. split; [by intros [? ?] | lia].
    + destruct (users _); [done | simpl in Hpos; lia].
Qed.

End BasicFetchFacts.

(** ** TimerExample *)

Section TimerExampleFacts.
Import TimerExample.

Lemma div_period (a : nat) :
  ∃ q r, a = q * periodMs + r ∧ r < periodMs ∧ a / periodMs = q.
Proof.
  exists (a / periodMs), (a mod periodMs). unfold periodMs.
  pose proof (Nat.div_mod_eq a 1000).
  pose proof (Nat.mod_upper_bound a 1000). lia.
Qed.

Lemma div_period_unique (a q r : nat) :
  a = q * periodMs + r → r < periodMs → a / periodMs = q.
Proof.
  unfold periodMs. intros -> Hr. symmetry.
  apply (Nat.div_unique _ _ _ r); lia.
Qed.

Lemma running_since_elapse (t0 s0 dt : nat) (s : state) :
  running_since t0 s0 s →
  running_since t0 s0 (elapse dt s) ∧ now (elapse dt s) = now s + dt.
Proof.
  intros (Ht0 & Hsec & Hint). unfold elapse. rewrite Hint.
  cbn [now seconds interval set_now set_interval setSeconds].
  split; [| done]. unfold running_since.
  cbn [now seconds interval set_now set_interval setSeconds].
  destruct (div_period (now s - t0)) as (q & r & Hq & Hr & Hdiv).
  destruct (div_period (now s + dt - t0)) as (q' & r' & Hq' & Hr' & Hdiv').
  rewrite Hsec, Hdiv, Hdiv'. unfold ticks_due.
  destruct (decide _) as [Hdue | Hdue].
  - rewrite (div_period_unique (now s + dt - (t0 + (q + 1) * periodMs))
               (q' - (q + 1)) r'); unfold periodMs in *; [| nia | lia].
    split; [lia |]. split; [nia |]. f_equal. nia.
  - unfold periodMs in *. assert (q' = q) as -> by nia.
    split; [lia |]. split; [lia |]. f_equal. lia.
Qed.

Lemma running_since_run (t0 s0 : nat) (dts : list nat) (s : state) :
  running_since t0 s0 s →
  running_since t0 s0 (run s (Elapse <$> dts)) ∧
  now (run s (Elapse <$> dts)) = now s + sum_list dts.
Proof.
  revert s. induction dts as [|dt dts IH]; intros s Hs.
  - split; [done | simpl; lia].
  - destruct (running_since_elapse t0 s0 dt s Hs) as [Hs' Hn'].
    destruct (IH _ Hs') as [Hs'' Hn''].
    change (run s (Elapse <$> dt :: dts))
      with (run (elapse dt s) (Elapse <$> dts)).
    split; [done |]. rewrite Hn'', Hn'. simpl. lia.
Qed.

(** From the moment the interval is set (on mount or on Start), and as
    long as nothing but time happens, the counter advances by one for each
    full second: after a total of [T] ms, however the event loop slices
    them, it shows [T / 1000] more than it did. *)
Theorem timer_counts_full_seconds (s : state) (dts : list nat) :
  interval s = Some (now s + periodMs) →
  seconds (run s (Elapse <$> dts)) = seconds s + sum_list dts / periodMs.
Proof.
  intros Hi.
  assert (running_since (now s) (seconds s) s) as Hs.
  { split; [done |]. rewrite Nat.sub_diag.
    change (0 / periodMs) with 0. split; [lia |]. rewrite Hi. f_equal. }
  destruct (running_since_run _ _ dts s Hs) as [(_ & Hsec & _) Hn].
  rewrite Hsec, Hn. f_equal. f_equal. lia.
Qed.

Lemma timer_counts_full_seconds_witness :
  interval mount = Some (now mount + periodMs) ∧
  seconds (run mount [Elapse 999; Elapse 1; Elapse 1500; Elapse 499]) = 2 ∧
  seconds (run mount [Elapse 999; Elapse 1; Elapse 1500; Elapse 500]) = 3.
Proof.
  split; [done |]. split.
  - exact (timer_counts_full_seconds mount [999; 1; 1500; 499] eq_refl).
  - exact (timer_counts_full_seconds mount [999; 1; 1500; 500] eq_refl).
Defined.

Lemma Timer_run_snoc (s : state) (evs : list event) (e : event) :
  run s (evs ++ [e]) = step (run s evs) e.
Proof. unfold run. by rewrite foldl_app. Qed.

Lemma ticking_iff_running_step (s : state) (e : event) :
  ticking_iff_running s → ticking_iff_running (step s e).
Proof.
  unfold ticking_iff_running. intros Hs.
  destruct e as [dt | | |]; simpl.
  - unfold elapse. destruct (interval s) as [next |] eqn:Hi;
      cbn [now seconds interval mounted isRunning set_now set_interval setSeconds];
      [| by rewrite Hi].
    destruct Hs as (Hm & Hr & Hlo & Hhi). split; [done |]. split; [done |].
    unfold ticks_due. destruct (decide _) as [Hdue | Hdue].
    + destruct (div_period (now s + dt - next)) as (q & r & Hq & Hr' & ->).
      unfold periodMs in *. lia.
    + unfold periodMs in *. lia.
  - destruct (mounted s) eqn:Hm; [| by rewrite Hm].
    unfold toggle, effect. simpl.
    destruct (isRunning s); simpl; [by right |].
    split; [done |]. unfold periodMs. split; [done | lia].
  - destruct (mounted s) eqn:Hm; [| by rewrite Hm].
    simpl. by rewrite Hm.
  - destruct (mounted s) eqn:Hm; [by left | by rewrite Hm].
Qed.

Lemma ticking_iff_running_run (evs : list event) :
  ticking_iff_running (run mount evs).
Proof.
  induction evs as [|e evs IH] using rev_ind.
  - simpl. split; [done |]. split; [done |].
    change (now mount) with 0. change (now initial) with 0.
    unfold periodMs. lia.
  - rewrite Timer_run_snoc. by apply ticking_iff_running_step.
Qed.

Lemma paused_elapse (dts : list nat) (s : state) :
  interval s = None →
  let s' := run s (Elapse <$> dts) in
  seconds s' = seconds s ∧ interval s' = None ∧
  isRunning s' = isRunning s ∧ mounted s' = mounted s.
Proof.
  revert s. induction dts as [|dt dts IH]; intros s Hi; [done |].
  cbv zeta.
  change (run s (Elapse <$> dt :: dts)) with (run (elapse dt s) (Elapse <$> dts)).
  unfold elapse. rewrite Hi.
  destruct (IH (set_now (now s + dt) s) Hi) as (-> & -> & -> & ->). done.
Qed.

(** Pausing stops the counter and discards the second in progress.  In any
    state the timer reaches, while it is paused no amount of time changes
    the counter; and when it is started again the next tick is a full
    second away, whatever part of a second had run before the pause. *)
Theorem timer_pause_discards_partial_second
    (evs : list event) (dts : list nat) :
  let s := run mount evs in
  mounted s = true → isRunning s = false →
  let s' := run s (Elapse <$> dts) in
  seconds s' = seconds s ∧
  interval (step s' Toggle) = Some (now s' + periodMs) ∧
  seconds (step s' Toggle) = seconds s.
Proof.
  cbv zeta. intros Hm Hr.
  pose proof (ticking_iff_running_run evs) as Hs.
  unfold ticking_iff_running in Hs.
  destruct (interval (run mount evs)) as [next |] eqn:Hi.
  { destruct Hs as (_ & Hr' & _). congruence. }
  destruct (paused_elapse dts _ Hi) as (Hsec & Hi' & Hr' & Hm').
  split; [done |]. simpl. rewrite Hm', Hm. unfold toggle, effect. simpl.
  rewrite Hr', Hr. simpl. done.
Qed.

Lemma timer_pause_discards_partial_second_witness :
  let s := run mount [Elapse 2999; Toggle] in
  let s' := run s [Elapse 5000; Toggle; Elapse 999] in
  (mounted s = true ∧ isRunning s = false ∧ seconds s = 2) ∧
  seconds (run s [Elapse 5000]) = 2 ∧ seconds s' = 2.
Proof.
  cbv zeta. split; [done |].
  destruct (timer_pause_discards_partial_second [Elapse 2999; Toggle] [5000]
              eq_refl eq_refl) as (H1 & _ & _).
  split; [exact H1 | done].
Defined.

End TimerExampleFacts.

(** ** Notes app *)

Section NotesAppFacts.
Import NotesApp.

Lemma delete_past_end {A} (l : list A) (i : nat) :
  length l ≤ i → delete i l = l.
Proof.
  revert i. induction l as [|x l IH]; intros i Hi; [by destruct i |].
  destruct i as [|i]; simpl in *; [lia |]. f_equal. apply IH. lia.
Qed.

(** Adding a note stores the heading and details as typed (there is no
    validation: an empty note is stored too) as the last note and clears
    both inputs; deleting that note again gives back the list of before.
    Deleting the card at position [idx] removes exactly that note: the
    list is one shorter, the notes before it keep their position and the
    notes after it move up by one.  A position past the end deletes
    nothing. *)
Theorem notes_add_and_delete (s : state) (idx : nat) :
  (let s' := submitHandler s in
   notes s' !! length (notes s)
   = Some {| note_title := title s; note_details := details s |} ∧
   length (notes s') = S (length (notes s)) ∧
   title s' = "" ∧ details s' = "" ∧
   notes (deleteNote (length (notes s)) s') = notes s) ∧
  (idx < length (notes s) →
   length (notes (deleteNote idx s)) = pred (length (notes s)) ∧
   ∀ j, notes (deleteNote idx s) !! j
        = if decide (j < idx) then notes s !! j else notes s !! S j) ∧
  (length (notes s) ≤ idx → deleteNote idx s = s).
Proof.
  split; [| split].
  - cbv zeta. simpl. split; [by apply list_lookup_middle |].
    split; [rewrite length_app; simpl; lia |].
    split; [done |]. split; [done |].
    rewrite delete_middle. by rewrite app_nil_r.
  - intros Hidx. simpl. split.
    + rewrite length_delete by (by apply lookup_lt_is_Some). lia.
    + intros j. rewrite list_lookup_delete. by case_decide.
  - intros Hidx. unfold deleteNote. simpl.
    rewrite delete_past_end by done. by destruct s.
Qed.

End NotesAppFacts.

(** ** The todo list of the useState lesson *)

Section UseStateAppFacts.
Import JS UseStateApp.

Lemma filter_index_from_all {A} (p : A → nat → bool) (l : list A) (k : nat) :
  (∀ x j, k ≤ j → p x j = true) → filter_index_from k p l = l.
Proof.
  revert k. induction l as [|x l IH]; intros k Hp; [done |].
  simpl. rewrite Hp by done. f_equal. apply IH. intros y j Hj. apply Hp. lia.
Qed.

Lemma filter_index_from_delete {A} (l : list A) (k t : nat) :
  k ≤ t →
  filter_index_from k (λ _ index, bool_decide (index ≠ t)) l = delete (t - k) l.
Proof.
  revert k. induction l as [|x l IH]; intros k Hk; [by destruct (t - k) |].
  simpl. case_bool_decide as Hne.
  - replace (t - k) with (S (t - S k)) by lia. simpl. f_equal. apply IH. lia.
  - assert (k = t) as -> by lia. rewrite Nat.sub_diag. simpl.
    apply filter_index_from_all. intros y j Hj. apply bool_decide_eq_true. lia.
Qed.

Lemma todos_nonblank_step (s : state) (e : event) :
  Forall (λ todo, trim todo ≠ "") (todos s) →
  Forall (λ todo, trim todo ≠ "") (todos (step s e)).
Proof.
  intros Hs. destruct e as [v | | index]; simpl; [done | |].
  - unfold addTodo. destruct (truthy (trim (newTodo s))) eqn:Ht; [| done].
    simpl. apply Forall_app. split; [done |]. apply Forall_singleton.
    by destruct (trim (newTodo s)).
  - unfold filter_index.
    rewrite (filter_index_from_delete (todos s) 0 index) by lia.
    rewrite Forall_forall in Hs |- *. intros todo Hin. apply Hs.
    by apply list_elem_of_delete_inv in Hin.
Qed.

(** Removing the todo at a position, written in the source as a filter on
    the index, removes exactly the entry at that position (and nothing
    when the position is past the end).  Adding is guarded by
    [newTodo.trim()]: in every state the list reaches, no todo is blank;
    a blank input leaves the list and the input as they are. *)
Theorem todos_remove_one_and_never_blank (evs : list event) (s : state) (i : nat) :
  todos (removeTodo i s) = delete i (todos s) ∧
  Forall (λ todo, trim todo ≠ "") (todos (run initial evs)) ∧
  (trim (newTodo s) = "" → addTodo s = s).
Proof.
  split; [| split].
  - simpl. unfold filter_index.
    rewrite (filter_index_from_delete (todos s) 0 i) by lia. f_equal. lia.
  - induction evs as [|e evs IH] using rev_ind.
    + repeat constructor; by vm_compute.
    + unfold run. rewrite foldl_app. by apply todos_nonblank_step.
  - intros Hb. unfold addTodo. by rewrite Hb.
Qed.

End UseStateAppFacts.

(** ** DynamicForm *)

Section DynamicFormFacts.
Import DynamicForm.

Lemma filter_keeps_all {A} (p : A → bool) (l : list A) :
  (∀ x, x ∈ l → p x = true) → List.filter p l = l.
Proof.
  induction l as [|x l IH]; intros Hp; [done |].
  simpl. rewrite Hp by (by left). f_equal. apply IH.
  intros y Hy. apply Hp. by right.
Qed.

Lemma removeField_delete (fields : list Field) (i : nat) (field : Field) :
  NoDup (field_id <$> fields) → fields !! i = Some field →
  removeField (field_id field) fields = delete i fields.
Proof.
  revert i. induction fields as [|x l IH]; intros i Hnd Hi; [done |].
  apply NoDup_cons in Hnd as [Hx Hnd]. unfold removeField. simpl.
  destruct i as [|i]; simpl in Hi.
  - injection Hi as ->. rewrite bool_decide_eq_false_2 by (by intros H; apply H).
    apply filter_keeps_all. intros y Hy. apply bool_decide_eq_true.
    intros Heq. apply Hx. rewrite <- Heq. by apply list_elem_of_fmap_2.
  - rewrite bool_decide_eq_true_2.
    + simpl. f_equal. by apply IH.
    + intros Heq. apply Hx. rewrite Heq.
      apply list_elem_of_fmap_2. by eapply list_elem_of_lookup_2.
Qed.

Lemma handleChange_insert
    (fields : list Field) (i : nat) (field : Field) (v : string) :
  NoDup (field_id <$> fields) → fields !! i = Some field →
  handleChange (field_id field) v fields
  = <[i := {| field_id := field_id field; value := v |}]> fields.
Proof.
  revert i. induction fields as [|x l IH]; intros i Hnd Hi; [done |].
  apply NoDup_cons in Hnd as [Hx Hnd]. unfold handleChange. simpl.
  destruct i as [|i]; simpl in Hi.
  - injection Hi as ->. rewrite decide_True by done. simpl. f_equal.
    transitivity (id <$> l); [| by rewrite list_fmap_id].
    apply list_fmap_ext. intros j y Hy. rewrite decide_False; [done |].
    intros Heq. apply Hx. rewrite <- Heq.
    apply list_elem_of_fmap_2. by eapply list_elem_of_lookup_2.
  - rewrite decide_False.
    + simpl. f_equal. by apply IH.
    + intros Heq. apply Hx. rewrite Heq.
      apply list_elem_of_fmap_2. by eapply list_elem_of_lookup_2.
Qed.

Lemma handleChange_ids (id : Z) (v : string) (fields : list Field) :
  field_id <$> handleChange id v fields = field_id <$> fields.
Proof.
  unfold handleChange. rewrite <- list_fmap_compose.
  apply list_fmap_ext. intros j x Hx. simpl. by case_decide.
Qed.

Lemma NoDup_ids_delete (fields : list Field) (i : nat) :
  NoDup (field_id <$> fields) → NoDup (field_id <$> delete i fields).
Proof.
  revert i. induction fields as [|x l IH]; intros i Hnd; [by destruct i |].
  apply NoDup_cons in Hnd as [Hx Hnd]. destruct i as [|i]; simpl; [done |].
  apply NoDup_cons. split; [| by apply IH].
  intros Hin. apply Hx. apply list_elem_of_fmap in Hin as (y & -> & Hy).
  apply list_elem_of_fmap_2. by eapply list_elem_of_delete_inv.
Qed.

Lemma unique_ids_run (evs : list event) (fields : list Field) :
  NoDup ((field_id <$> fields) ++ stamps evs) → 1 ≤ length fields →
  NoDup (field_id <$> run fields evs) ∧ 1 ≤ length (run fields evs).
Proof.
  revert fields. induction evs as [|e evs IH]; intros fields Hnd Hlen.
  - simpl in *. by rewrite app_nil_r in Hnd.
  - change (run fields (e :: evs)) with (run (step fields e) evs).
    destruct e as [now | i | i v]; simpl.
    + apply IH.
      * unfold addField. rewrite fmap_app. simpl. by rewrite <- app_assoc.
      * unfold addField. rewrite length_app. lia.
    + change (stamps (Remove i :: evs)) with (stamps evs) in Hnd.
      destruct (fields !! i) as [field |] eqn:Hi; [| by apply IH].
      destruct (decide (1 < length fields)); [| by apply IH].
      pose proof Hnd as Hnd'. apply NoDup_app in Hnd' as (Hids & Hdisj & Hst).
      rewrite (removeField_delete fields i field Hids Hi).
      apply IH.
      * apply NoDup_app. split; [| split; [| done]].
        -- by apply NoDup_ids_delete.
        -- intros x Hx. apply Hdisj.
           apply list_elem_of_fmap in Hx as (y & -> & Hy).
           apply list_elem_of_fmap_2. by eapply list_elem_of_delete_inv.
      * rewrite length_delete by (by eexists). lia.
    + change (stamps (Change i v :: evs)) with (stamps evs) in Hnd.
      destruct (fields !! i) as [field |] eqn:Hi; [| by apply IH].
      apply IH.
      * by rewrite handleChange_ids.
      * unfold handleChange. by rewrite length_fmap.
Qed.

(** The ids of the fields are clock readings.  When the readings of the
    Add clicks are pairwise distinct (and none is 1, the id of the first
    field), the ids of the fields stay pairwise distinct over the whole
    run and the form never loses its last field; and then the handlers,
    which go by id, act on one field: removing the [i]-th field removes
    exactly that entry and typing in the [i]-th input replaces exactly
    that entry's value. *)
Theorem dynamic_form_ids_stay_unique (evs : list event) :
  NoDup (1%Z :: stamps evs) →
  let fields := run initial evs in
  NoDup (field_id <$> fields) ∧ 1 ≤ length fields ∧
  ∀ i field v, fields !! i = Some field →
    removeField (field_id field) fields = delete i fields ∧
    handleChange (field_id field) v fields
    = <[i := {| field_id := field_id field; value := v |}]> fields.
Proof.
  intros Hnd. cbv zeta.
  destruct (unique_ids_run evs initial) as [Hids Hlen]; [done | simpl; lia |].
  split; [done |]. split; [done |]. intros i field v Hi.
  split; [by apply removeField_delete | by apply handleChange_insert].
Qed.

Lemma dynamic_form_ids_stay_unique_witness :
  let evs := [Add 1700000000000; Change 1 "React"; Add 1700000000001;
              Remove 0] in
  NoDup (1%Z :: stamps evs) ∧
  run initial evs
  = [{| field_id := 1700000000000; value := "React" |};
     {| field_id := 1700000000001; value := "" |}] ∧
  NoDup (field_id <$> run initial evs).
Proof.
  cbv zeta.
  assert (NoDup (1%Z :: stamps [Add 1700000000000; Change 1 "React";
                                Add 1700000000001; Remove 0])) as Hnd.
  { simpl. repeat (apply NoDup_cons; split; [set_solver |]). apply NoDup_nil_2. }
  split; [exact Hnd |]. split; [done |].
  exact (proj1 (dynamic_form_ids_stay_unique _ Hnd)).
Defined.

(** Two Add clicks within the same millisecond give two fields one id:
    typing in one of them fills both and removing one removes both. *)
Lemma same_timestamp_fields_move_together :
  let fields := run initial [Add 1700000000000; Add 1700000000000] in
  step fields (Change 1 "x")
  = [{| field_id := 1; value := "" |};
     {| field_id := 1700000000000; value := "x" |};
     {| field_id := 1700000000000; value := "x" |}] ∧
  step fields (Remove 1) = [{| field_id := 1; value := "" |}].
Proof. done. Qed.

End DynamicFormFacts.

(** ** MultiStepForm *)

Section MultiStepFormFacts.
Import MultiStepForm.

(** The step handlers have no bounds of their own ([nextStep] adds one to
    any step); it is the render, which offers Next in steps 1 and 2 and
    Back in steps 2 and 3, that keeps the form within its three steps: in
    every state it reaches [step] is 1, 2 or 3.  Moving between steps
    leaves [formData] as it is, and typing leaves [step] as it is. *)
Theorem multi_step_form_stays_in_range (evs : list event) :
  let s := run initial evs in
  (1 ≤ step s ≤ 3)%Z ∧
  (∀ s', step (nextStep s') = (step s' + 1)%Z ∧
         step (prevStep s') = (step s' - 1)%Z) ∧
  formData (deliver s Next) = formData s ∧
  formData (deliver s Back) = formData s ∧
  (∀ name value, step (deliver s (Change name value)) = step s).
Proof.
  cbv zeta. split.
  - induction evs as [|e evs IH] using rev_ind; [done |].
    unfold run. rewrite foldl_app. simpl. fold (run initial evs).
    destruct e as [name value | |]; simpl; [done | |].
    + unfold next_rendered.
      repeat case_bool_decide; simpl; lia.
    + unfold back_rendered.
      repeat case_bool_decide; simpl; lia.
  - split; [done |]. split; [| split; [| done]]; simpl.
    + by destruct (next_rendered _).
    + by destruct (back_rendered _).
Qed.

End MultiStepFormFacts.

(** ** ValidatedForm *)

Section ValidatedFormFacts.
Import JS ValidatedForm.

Lemma domain_dot_rest_spec (seen : bool) (s : list ascii) :
  domain_dot_rest seen s = true ↔
  ∃ b c post,
    s = b ++ "."%char :: c ++ post ∧ c ≠ [] ∧
    Forall (λ x, non_space x = true) b ∧
    Forall (λ x, non_space x = true) c ∧
    (seen = true ∨ b ≠ []).
Proof.
  split.
  - revert seen. induction s as [|c0 s IH]; intros seen H; [done |].
    simpl in H. apply andb_true_iff in H as [Hc0 H].
    apply orb_true_iff in H as [H | H].
    + apply andb_true_iff in H as [H Hd]. apply andb_true_iff in H as [Hseen Hdot].
      apply bool_decide_eq_true in Hdot. subst c0.
      destruct s as [|d s]; [done |].
      exists [], [d], s. repeat split; try done.
      * by apply Forall_singleton.
      * by left.
    + destruct (IH true H) as (b & c & post & -> & Hc & Hb & Hcs & _).
      exists (c0 :: b), c, post. repeat split; try done.
      * by apply Forall_cons.
      * by right.
  - intros (b & c & post & -> & Hc & Hb & Hcs & Hseen).
    revert seen Hseen. induction b as [|x b IH]; intros seen Hseen.
    + destruct Hseen as [-> | Hseen]; [| done].
      destruct c as [|d c]; [done |]. apply Forall_cons in Hcs as [Hd _].
      simpl. by rewrite Hd.
    + apply Forall_cons in Hb as [Hx Hb]. simpl. rewrite Hx. simpl.
      rewrite (IH Hb true) by (by left). apply orb_true_r.
Qed.

Lemma regex_search_local (a rest : list ascii) :
  a ≠ [] → Forall (λ x, non_space x = true) a →
  domain_dot_rest false rest = true →
  regex_search (a ++ "@"%char :: rest) = true.
Proof.
  intros Ha Hns Hrest. induction a as [|x a IH]; [done |].
  apply Forall_cons in Hns as [Hx Hns]. destruct a as [|y a].
  - simpl. rewrite Hx, Hrest. done.
  - change (regex_search ((x :: y :: a) ++ "@"%char :: rest))
      with ((non_space x &&
             (bool_decide (y = "@"%char) &&
              domain_dot_rest false (a ++ "@"%char :: rest)))
            || regex_search ((y :: a) ++ "@"%char :: rest)).
    rewrite IH by done. apply orb_true_r.
Qed.

Lemma regex_search_spec (s : list ascii) :
  regex_search s = true ↔
  ∃ pre a b c post,
    s = pre ++ a ++ "@"%char :: b ++ "."%char :: c ++ post ∧
    a ≠ [] ∧ b ≠ [] ∧ c ≠ [] ∧
    Forall (λ x, non_space x = true) a ∧
    Forall (λ x, non_space x = true) b ∧
    Forall (λ x, non_space x = true) c.
Proof.
  split.
  - induction s as [|x s IH]; intros H; [done |].
    simpl in H. apply orb_true_iff in H as [H | H].
    + apply andb_true_iff in H as [Hx H]. destruct s as [|y rest]; [done |].
      apply andb_true_iff in H as [Hy H]. apply bool_decide_eq_true in Hy.
      subst y. apply domain_dot_rest_spec in H
        as (b & c & post & -> & Hc & Hb & Hcs & [Hf | Hbne]); [done |].
      exists [], [x], b, c, post. repeat split; try done.
      by apply Forall_singleton.
    + destruct (IH H) as (pre & a & b & c & post & -> & Hrest).
      by exists (x :: pre), a, b, c, post.
  - intros (pre & a & b & c & post & -> & Ha & Hb & Hc & Hna & Hnb & Hnc).
    induction pre as [|x pre IH].
    + simpl. apply regex_search_local; [done | done |].
      apply domain_dot_rest_spec. exists b, c, post.
      repeat split; try done. by right.
    + change (regex_search ((x :: pre) ++ a ++ "@"%char :: b ++ "."%char :: c ++ post))
        with (regex_search
                (x :: (pre ++ a ++ "@"%char :: b ++ "."%char :: c ++ post))).
      simpl. rewrite IH. apply orb_true_r.
Qed.

Lemma email_regex_test_spec (s : string) :
  email_regex_test s = true ↔ has_email_shape s.
Proof. apply regex_search_spec. Qed.

Lemma has_email_shape_truthy (s : string) : has_email_shape s → truthy s = true.
Proof.
  intros (pre & a & b & c & post & H & Ha & _). destruct s; [| done].
  simpl in H. destruct pre, a; done.
Qed.

Lemma long_truthy (s : string) : 6 ≤ String.length s → truthy s = true.
Proof. destruct s; simpl; [lia | done]. Qed.

(** [validate] returns the empty object, so that [handleSubmit] goes
    through, exactly when the email contains three stretches without
    white space, none empty, joined by an [@] and a dot, the password has
    six characters or more, and the confirmation equals the password.  An
    empty email or password need not be asked for separately: they fail
    these tests. *)
Theorem validate_accepts_exactly (d : FormData) :
  validate d = ∅ ↔
  has_email_shape (email d) ∧ 6 ≤ String.length (password d) ∧
  password d = confirmPassword d.
Proof.
  unfold validate. split.
  - intros H.
    destruct (truthy (email d)) eqn:He; simpl in H.
    2:{ repeat case_decide; destruct (truthy (password d));
        simpl in H; by apply insert_non_empty in H. }
    destruct (email_regex_test (email d)) eqn:Ht; simpl in H.
    2:{ repeat case_decide; destruct (truthy (password d));
        simpl in H; by apply insert_non_empty in H. }
    destruct (truthy (password d)) eqn:Hp; simpl in H.
    2:{ case_decide; by apply insert_non_empty in H. }
    destruct (decide (String.length (password d) < 6)).
    { case_decide; by apply insert_non_empty in H. }
    destruct (decide (password d ≠ confirmPassword d)) as [Hne | Heq].
    { by apply insert_non_empty in H. }
    split; [by apply email_regex_test_spec |]. split; [lia |].
    by destruct (decide (password d = confirmPassword d)).
  - intros (Hshape & Hlen & Heq).
    rewrite (has_email_shape_truthy _ Hshape). simpl.
    rewrite (proj2 (email_regex_test_spec _) Hshape). simpl.
    rewrite (long_truthy _ Hlen). simpl.
    rewrite (decide_False (P := String.length (password d) < 6)) by lia.
    rewrite decide_False; [done |]. by intros Hne.
Qed.

Lemma apply_edit_other_error (s : state) (e : edit) :
  e.1 ≠ confirmPassword_field →
  errors (apply_edit s e) !! "confirmPassword" = errors s !! "confirmPassword".
Proof.
  intros Hne. unfold apply_edit, handleChange. simpl.
  destruct (shown (errors s) (key e.1)); [| done].
  rewrite lookup_insert_ne; [done |]. by destruct e.1.
Qed.

(** A submission that passes validation records the form and leaves the
    [errors] object as it is, and an edit clears the message of the edited
    field only.  So when "Passwords do not match" is on display and the
    user repairs the mismatch by editing the email or the password field
    (not the confirmation), the form submits successfully with that
    message still on display. *)
Theorem stale_error_survives_valid_submit
    (s : state) (edits : list edit) (msg : string) :
  errors s !! "confirmPassword" = Some msg →
  Forall (λ e : edit, e.1 ≠ confirmPassword_field) edits →
  let s1 := foldl apply_edit s edits in
  validate (formData s1) = ∅ →
  let s2 := handleSubmit s1 in
  submitted s2 = submitted s ++ [formData s1] ∧
  errors s2 !! "confirmPassword" = Some msg.
Proof.
  intros Hmsg Hed. cbv zeta. intros Hvalid.
  assert (errors (foldl apply_edit s edits) !! "confirmPassword" = Some msg ∧
          submitted (foldl apply_edit s edits) = submitted s) as [He Hs].
  { clear Hvalid. revert s Hmsg.
    induction edits as [|e edits IH]; intros s Hmsg; [done |].
    apply Forall_cons in Hed as [He Hed]. simpl.
    destruct (IH Hed (apply_edit s e)) as [H1 H2].
    - by rewrite apply_edit_other_error.
    - split; [done |]. by rewrite H2. }
  unfold handleSubmit. rewrite Hvalid.
  rewrite decide_False by (rewrite map_size_empty; lia).
  simpl. by rewrite Hs.
Qed.

Lemma stale_error_survives_valid_submit_witness :
  let s0 := foldl apply_edit initial
              [(email_field, "sam@example.org"); (password_field, "secret1");
               (confirmPassword_field, "secret")] in
  let s := handleSubmit s0 in
  let s2 := handleSubmit (apply_edit s (password_field, "secret")) in
  (errors s !! "confirmPassword" = Some "Passwords do not match" ∧
   submitted s = []) ∧
  submitted s2
  = [{| email := "sam@example.org"; password := "secret";
        confirmPassword := "secret" |}] ∧
  errors s2 !! "confirmPassword" = Some "Passwords do not match".
Proof.
  cbv zeta.
  assert (errors (handleSubmit
                    (foldl apply_edit initial
                       [(email_field, "sam@example.org");
                        (password_field, "secret1");
                        (confirmPassword_field, "secret")]))
          !! "confirmPassword" = Some "Passwords do not match") as Hmsg
    by (by vm_compute).
  split; [split; [exact Hmsg | by vm_compute] |].
  destruct (stale_error_survives_valid_submit _ [(password_field, "secret")]
              _ Hmsg) as [Hs He].
  - by repeat constructor.
  - by vm_compute.
  - split; [exact Hs | exact He].
Defined.

End ValidatedFormFacts.

(** ** LocalStorageExample *)

Section LocalStorageFacts.
Import JS LocalStorageExample.

Lemma is_digit_10_code (c : ascii) :
  is_digit 10 c = true → 48 ≤ nat_of_ascii c ≤ 57.
Proof.
  unfold is_digit, digit_value.
  case_bool_decide as H1; [intros _; lia |].
  case_bool_decide as H2; [intros Hd%bool_decide_eq_true; lia |].
  case_bool_decide as H3; [intros Hd%bool_decide_eq_true; lia | done].
Qed.

Lemma digit_not_white_space (c : ascii) :
  is_digit 10 c = true → is_white_space c = false.
Proof.
  intros Hc%is_digit_10_code. unfold is_white_space.
  apply bool_decide_eq_false. intros Hin.
  repeat (apply elem_of_cons in Hin as [Hin | Hin]; [lia |]).
  by apply elem_of_nil in Hin.
Qed.

Lemma digit_not_char (c : ascii) (n : nat) :
  is_digit 10 c = true → n < 256 → ¬ 48 ≤ n ≤ 57 → c ≠ ascii_of_nat n.
Proof.
  intros Hc%is_digit_10_code Hlt Hn ->.
  rewrite nat_ascii_embedding in Hc by done. lia.
Qed.

Lemma digit_value_pretty_N_char (m : N) :
  (m < 10)%N →
  digit_value (pretty_N_char m) = Some (Z.of_N m) ∧
  is_digit 10 (pretty_N_char m) = true.
Proof.
  intros Hm.
  assert (m = 0 ∨ m = 1 ∨ m = 2 ∨ m = 3 ∨ m = 4 ∨ m = 5 ∨ m = 6 ∨ m = 7 ∨
          m = 8 ∨ m = 9)%N as Hcases by lia.
  repeat (destruct Hcases as [-> | Hcases]; [by vm_compute |]).
  subst m. by vm_compute.
Qed.

Lemma all_decimal_app (a b : string) :
  all_decimal (a +:+ b) = all_decimal a && all_decimal b.
Proof.
  induction a as [|c a IH]; [done |].
  rewrite append_cons. simpl. rewrite IH. by rewrite andb_assoc.
Qed.

Lemma append_assoc (a b c : string) : (a +:+ b) +:+ c = a +:+ b +:+ c.
Proof.
  induction a as [|x a IH]; [done |]. by rewrite !append_cons, IH.
Qed.

Lemma append_empty (a : string) : a +:+ "" = a.
Proof. induction a as [|x a IH]; [done |]. by rewrite append_cons, IH. Qed.

(** What [pretty] prints for a natural number: decimal digits that
    [parse_digits] reads back. *)
Lemma pretty_N_go_digits (x : N) :
  ∃ (ds : string) (k : Z),
    (0 ≤ k)%Z ∧
    (∀ s, pretty_N_go x s = ds +:+ s) ∧ all_decimal ds = true ∧
    ((0 < x)%N → ds ≠ "") ∧
    ∀ acc s, all_decimal s = true →
      parse_digits 10 acc (ds +:+ s)
      = parse_digits 10 (acc * 10 ^ k + Z.of_N x) s.
Proof.
  induction (N.lt_wf_0 x) as [x _ IH].
  destruct (decide (x = 0)%N) as [-> | Hx].
  - exists "", 0%Z. split; [done |]. split; [done |]. split; [done |].
    split; [lia |]. intros acc s _. rewrite append_nil. f_equal. lia.
  - destruct (IH (x `div` 10)%N) as (ds & k & Hk & Hgo & Hdec & _ & Hparse).
    { apply N.div_lt; lia. }
    destruct (digit_value_pretty_N_char (x `mod` 10)%N) as [Hval Hdig].
    { apply N.mod_lt. lia. }
    exists (ds +:+ String (pretty_N_char (x `mod` 10)) ""), (k + 1)%Z.
    split; [lia |]. split; [| split; [| split]].
    + intros s. rewrite pretty_N_go_step by lia.
      rewrite Hgo, append_assoc. by rewrite append_cons, append_nil.
    + rewrite all_decimal_app, Hdec. simpl. by rewrite Hdig.
    + intros _ Heq. destruct ds; discriminate Heq.
    + intros acc s Hs. rewrite append_assoc, append_cons, append_nil.
      rewrite Hparse by (simpl; by rewrite Hdig, Hs).
      pose proof (N.mod_lt x 10 ltac:(lia)) as Hlt.
      pose proof (N.div_mod x 10 ltac:(lia)) as Hdm.
      simpl. rewrite Hval. rewrite bool_decide_eq_true_2 by lia.
      f_equal. rewrite Z.pow_add_r, Z.pow_1_r by lia.
      set (q := (x `div` 10)%N) in *. set (r := (x `mod` 10)%N) in *.
      set (p := (10 ^ k)%Z). lia.
Qed.

(** A natural number printed by [toString] is not empty and is read back
    by [parseInt]. *)
Lemma parseInt_pretty (n : Z) :
  (0 ≤ n)%Z → parseInt (pretty n) = Some n ∧ truthy (pretty n) = true.
Proof.
  intros Hn. destruct n as [|p|p]; [done | | lia].
  change (pretty (Z.pos p)) with (pretty_N_go (N.pos p) "").
  destruct (pretty_N_go_digits (N.pos p)) as (ds & k & Hk & Hgo & Hdec & Hne & Hparse).
  rewrite Hgo, append_empty.
  specialize (Hne ltac:(lia)). specialize (Hparse 0%Z "" eq_refl).
  rewrite append_empty in Hparse.
  destruct ds as [|c ds]; [done |]. split; [| done].
  simpl in Hdec. apply andb_true_iff in Hdec as [Hc Hds].
  unfold parseInt. simpl trimStart. rewrite (digit_not_white_space c Hc).
  unfold strip_sign.
  rewrite (bool_decide_eq_false_2 (c = "-"%char))
    by (apply (digit_not_char c 45 Hc); lia).
  rewrite (bool_decide_eq_false_2 (c = "+"%char))
    by (apply (digit_not_char c 43 Hc); lia).
  assert (strip_hex_prefix (String c ds) = (10%Z, String c ds)) as ->.
  { unfold strip_hex_prefix. destruct ds as [|d ds]; [done |].
    simpl in Hds. apply andb_true_iff in Hds as [Hd _].
    rewrite (bool_decide_eq_false_2 (d = "x"%char))
      by (apply (digit_not_char d 120 Hd); lia).
    rewrite (bool_decide_eq_false_2 (d = "X"%char))
      by (apply (digit_not_char d 88 Hd); lia).
    by rewrite andb_false_r. }
  rewrite Hc. rewrite Hparse. f_equal; lia.
Qed.

Lemma in_sync_load (st : gmap string string) (n : Z) :
  (0 ≤ n)%Z →
  (st !! "visitCount" = Some (pretty n) ∨ (st !! "visitCount" = None ∧ n = 0%Z)) →
  let s := load st in
  in_sync s ∧ visitCount s = Some (n + 1)%Z ∧
  name s = getItem_or "userName" "" st ∧
  favoriteColor s = getItem_or "favoriteColor" default_color st.
Proof.
  intros Hn Hst. cbv zeta.
  assert (parseInt (getItem_or "visitCount" "0"
                      (<["favoriteColor" := getItem_or "favoriteColor" default_color st]>
                         (<["userName" := getItem_or "userName" "" st]> st)))
          = Some n) as Hcount.
  { unfold getItem_or at 1. rewrite !lookup_insert_ne by done.
    destruct Hst as [-> | [-> ->]]; [| done].
    destruct (parseInt_pretty n Hn) as [Hp Ht]. by rewrite Ht. }
  unfold load, count_visit, save_color, save_name, setItem.
  cbn [name favoriteColor visitCount storage background].
  rewrite Hcount. unfold in_sync.
  cbn [name favoriteColor visitCount storage background plus_one fmap option_fmap option_map toString].
  split; [| done].
  split; [| split].
  - left. rewrite !lookup_insert_ne by done. by rewrite lookup_insert_eq.
  - left. rewrite lookup_insert_ne by done. by rewrite lookup_insert_eq.
  - exists (n + 1)%Z. split; [lia |]. split; [done |].
    left. by rewrite lookup_insert_eq.
Qed.

Lemma getItem_or_in_sync (s : state) :
  in_sync s →
  getItem_or "userName" "" (storage s) = name s ∧
  getItem_or "favoriteColor" default_color (storage s)
  = (if truthy (favoriteColor s) then favoriteColor s else default_color).
Proof.
  intros ([Hn | [Hn Hn']] & [Hc | [Hc Hc']] & _); unfold getItem_or;
    rewrite Hn, Hc; split; try done;
    try (by destruct (name s)); try (by rewrite Hn'); by rewrite Hc'.
Qed.

Lemma in_sync_step (s : state) (e : event) : in_sync s → in_sync (step s e).
Proof.
  intros Hs. pose proof Hs as (Hn & Hc & n & Hpos & Hv & Hst).
  destruct e as [v | v | |]; simpl.
  - unfold onChangeName. destruct (decide (v = name s)); [done |].
    split; [left; simpl; by rewrite lookup_insert_eq |].
    split; [simpl; by rewrite lookup_insert_ne |].
    exists n. simpl. by rewrite lookup_insert_ne.
  - unfold onChangeColor. destruct (decide (v = favoriteColor s)); [done |].
    split; [simpl; by rewrite lookup_insert_ne |].
    split; [left; simpl; by rewrite lookup_insert_eq |].
    exists n. simpl. by rewrite lookup_insert_ne.
  - unfold clearData.
    destruct (decide (name s = "")), (decide (favoriteColor s = default_color));
      (split; [| split; [| exists 0%Z; split; [lia |]; split; [done |]]]);
      simpl; rewrite ?lookup_insert_eq, ?lookup_insert_ne, ?lookup_empty by done;
      auto.
  - by destruct (in_sync_load (storage s) n Hpos Hst) as [H _].
Qed.

Lemma in_sync_run (evs : list event) : in_sync (run (load ∅) evs).
Proof.
  induction evs as [|e evs IH] using rev_ind.
  - destruct (in_sync_load ∅ 0) as [H _]; [lia | by right | done].
  - unfold run. rewrite foldl_app. by apply in_sync_step.
Qed.

(** What LocalStorageExample keeps survives a refresh of the page.  In any
    state reached from a first visit, the storage agrees with the cells,
    and after a refresh the name is the name of before, the colour is the
    colour of before (a colour input always holds a colour, never the
    empty string), and the visit count is one more.  So the count shown on
    the [k]-th load in a row is [k]. *)
Theorem local_storage_survives_reload (evs : list event) (k : nat) :
  let s := run (load ∅) evs in
  let s' := reload s in
  in_sync s ∧ name s' = name s ∧
  (favoriteColor s ≠ "" → favoriteColor s' = favoriteColor s) ∧
  visitCount s' = plus_one (visitCount s) ∧
  visitCount (run (load ∅) (replicate k Reload)) = Some (Z.of_nat k + 1)%Z.
Proof.
  cbv zeta. pose proof (in_sync_run evs) as Hs.
  pose proof Hs as (_ & _ & n & Hpos & Hv & Hst).
  destruct (in_sync_load (storage (run (load ∅) evs)) n Hpos Hst)
    as (_ & Hv' & Hn' & Hc').
  destruct (getItem_or_in_sync _ Hs) as [Hgn Hgc].
  split; [done |]. unfold reload. split; [by rewrite Hn', Hgn |].
  split; [| split].
  - intros Hne. rewrite Hc', Hgc.
    by destruct (favoriteColor (run (load ∅) evs)).
  - by rewrite Hv', Hv.
  - induction k as [|k IH]; [done |].
    rewrite replicate_S_end. unfold run. rewrite foldl_app. cbn [foldl step].
    fold (run (load ∅) (replicate k Reload)).
    pose proof (in_sync_run (replicate k Reload)) as (_ & _ & m & Hm & Hvm & Hsm).
    destruct (in_sync_load _ m Hm Hsm) as (_ & Hvr & _).
    unfold reload. rewrite Hvr. rewrite IH in Hvm. injection Hvm as <-.
    f_equal. lia.
Qed.

(** "Clear All Data" empties the storage and resets the cells, but the
    effects of the cells that changed then run: the storage ends up empty
    only when the name was already empty and the colour already the
    default; otherwise the defaults are written back (and the background
    is tinted with the default colour again).  The visit count is cleared
    in both places, so the next load counts as the first. *)
Theorem clear_data_writes_defaults_back (s : state) :
  let s' := clearData s in
  name s' = "" ∧ favoriteColor s' = default_color ∧
  visitCount s' = Some 0%Z ∧ storage s' !! "visitCount" = None ∧
  storage s' !! "userName" = (if decide (name s = "") then None else Some "") ∧
  storage s' !! "favoriteColor"
  = (if decide (favoriteColor s = default_color) then None
     else Some default_color) ∧
  (storage s' = ∅ ↔ name s = "" ∧ favoriteColor s = default_color) ∧
  background s'
  = (if decide (favoriteColor s = default_color) then ""
     else default_color +:+ "20") ∧
  visitCount (reload s') = Some 1%Z.
Proof.
  cbv zeta. unfold clearData, reload.
  destruct (decide (name s = "")) as [Hn | Hn],
           (decide (favoriteColor s = default_color)) as [Hc | Hc];
    (repeat split; try done;
     try (by intros H; apply insert_non_empty in H);
     try (by intros [? ?])).
Qed.

End LocalStorageFacts.

(** ** ComplexForm *)

Section ComplexFormFacts.
Import JS Event ComplexForm.

Lemma well_formed_initial : well_formed initial [].
Proof.
  unfold well_formed. split_and!.
  - done.
  - done.
  - constructor.
  - intros x Hx. by apply elem_of_nil in Hx.
  - by exists false.
  - by exists USA.
  - by left.
  - intros k Hk. exists "".
    repeat (apply elem_of_cons in Hk as [->|Hk]; [done|]).
    by apply elem_of_nil in Hk.
Qed.

Lemma dom_insert_present (d : gmap string field_value) (k : string) (v w : field_value) :
  d !! k = Some w → dom (<[k := v]> d) =@{gset string} dom d.
Proof.
  intros Hk. rewrite dom_insert_L. apply elem_of_dom_2 in Hk. set_solver.
Qed.

(** Writing a text or a flag of the right kind under a key other than
    [hobbies] keeps the shape, given what the other keys require. *)
Lemma well_formed_insert (d : gmap string field_value) (hs : list string) (k : string)
    (v w : field_value) :
  well_formed d hs → d !! k = Some w → k ≠ "hobbies" →
  (k = "newsletter" → ∃ b, v = Flag b) →
  (k = "country" → ∃ c, v = Text (country_value c)) →
  (k = "gender" → ∃ g, v = Text (gender_value g)) →
  (k ∈ ["name"; "email"; "bio"; "birthDate"] → ∃ t, v = Text t) →
  well_formed (<[k := v]> d) hs.
Proof.
  intros (Hdom & Hh & Hnd & Hopt & Hnews & Hc & Hg & Htxt) Hk Hne Hn1 Hc1 Hg1 Ht1.
  unfold well_formed. split_and!.
  - rewrite <- Hdom. by eapply dom_insert_present.
  - by rewrite lookup_insert_ne.
  - done.
  - done.
  - destruct (decide (k = "newsletter")) as [->|Hkn].
    + destruct (Hn1 eq_refl) as [b ->]. exists b. by rewrite lookup_insert_eq.
    + by rewrite lookup_insert_ne.
  - destruct (decide (k = "country")) as [->|Hkn].
    + destruct (Hc1 eq_refl) as [c ->]. exists c. by rewrite lookup_insert_eq.
    + by rewrite lookup_insert_ne.
  - destruct (decide (k = "gender")) as [->|Hkn].
    + destruct (Hg1 eq_refl) as [g ->]. right. exists g.
      by rewrite lookup_insert_eq.
    + by rewrite lookup_insert_ne.
  - intros k' Hk'. destruct (decide (k = k')) as [->|Hkn].
    + destruct (Ht1 Hk') as [t ->]. exists t. by rewrite lookup_insert_eq.
    + rewrite lookup_insert_ne by done. by apply Htxt.
Qed.

Lemma well_formed_hobbies (d : gmap string field_value) (hs hs' : list string) :
  well_formed d hs → NoDup hs' → (∀ x, x ∈ hs' → ∃ h, x = hobby_value h) →
  well_formed (<["hobbies" := Items hs']> d) hs'.
Proof.
  intros (Hdom & Hh & Hnd & Hopt & Hnews & Hc & Hg & Htxt) Hnd' Hopt'.
  unfold well_formed. split_and!.
  - rewrite <- Hdom. by eapply dom_insert_present.
  - by rewrite lookup_insert_eq.
  - done.
  - done.
  - by rewrite lookup_insert_ne.
  - by rewrite lookup_insert_ne.
  - by rewrite lookup_insert_ne.
  - intros k Hk. rewrite lookup_insert_ne; [by apply Htxt|].
    intros <-. repeat (apply elem_of_cons in Hk as [Hk|Hk]; [done|]).
    by apply elem_of_nil in Hk.
Qed.

(** What one action does to a state of the right shape. *)
Lemma well_formed_step (d : gmap string field_value) (hs : list string) (a : action) :
  well_formed d hs →
  ∃ d' hs', step d a = Some d' ∧ well_formed d' hs' ∧
    match a with
    | click_hobby h =>
        (hobby_value h ∈ hs' ↔ hobby_value h ∉ hs) ∧
        (∀ x, x ≠ hobby_value h → x ∈ hs' ↔ x ∈ hs)
    | _ => hs' = hs
    end.
Proof.
  intros Hwf.
  pose proof Hwf as (Hdom & Hh & Hnd & Hopt & [b Hnews] & [c Hc] & Hg & Htxt).
  assert (∃ w, d !! "gender" = Some w) as [wg Hwg].
  { destruct Hg as [Hg|[g Hg]]; eauto. }
  destruct a as [v|v|c'|g|h| |v|v]; unfold step, handleChange; cbn.
  - destruct (Htxt "name") as [w Hw]; [set_solver|].
    eexists _, hs. split_and!; [done| |done].
    eapply well_formed_insert; eauto; try done; set_solver.
  - destruct (Htxt "email") as [w Hw]; [set_solver|].
    eexists _, hs. split_and!; [done| |done].
    eapply well_formed_insert; eauto; try done; set_solver.
  - eexists _, hs. split_and!; [done| |done].
    eapply well_formed_insert; eauto; try done; set_solver.
  - eexists _, hs. split_and!; [done| |done].
    eapply well_formed_insert; eauto; try done; set_solver.
  - unfold hobbies_includes. rewrite Hh. cbn.
    rewrite (bool_decide_eq_true_2 ("hobbies" = "hobbies") eq_refl).
    destruct (decide (hobby_value h ∈ hs)) as [Hin|Hin];
      [rewrite (bool_decide_eq_true_2 _ Hin)
      |rewrite (bool_decide_eq_false_2 _ Hin)]; cbn.
    + eexists _, _. split_and!; [done| | |].
      * apply (well_formed_hobbies d hs); [done| |].
        -- by apply NoDup_filter.
        -- intros x [_ Hx]%list_elem_of_filter. by apply Hopt.
      * rewrite list_elem_of_filter. naive_solver.
      * intros x Hx. rewrite list_elem_of_filter. naive_solver.
    + eexists _, _. split_and!; [done| | |].
      * apply (well_formed_hobbies d hs); [done| |].
        -- apply NoDup_app. split_and!; [done| |apply NoDup_singleton].
           intros x Hx ->%list_elem_of_singleton. done.
        -- intros x [Hx| ->%list_elem_of_singleton]%elem_of_app; eauto.
      * rewrite elem_of_app, list_elem_of_singleton. naive_solver.
      * intros x Hx. rewrite elem_of_app, list_elem_of_singleton. naive_solver.
  - eexists _, hs. split_and!; [done| |done].
    eapply well_formed_insert; eauto; try done; set_solver.
  - destruct (Htxt "bio") as [w Hw]; [set_solver|].
    eexists _, hs. split_and!; [done| |done].
    eapply well_formed_insert; eauto; try done; set_solver.
  - destruct (Htxt "birthDate") as [w Hw]; [set_solver|].
    eexists _, hs. split_and!; [done| |done].
    eapply well_formed_insert; eauto; try done; set_solver.
Qed.

Lemma well_formed_run (acts : list action) (d : gmap string field_value) (hs : list string) :
  well_formed d hs → ∃ d' hs', run d acts = Some d' ∧ well_formed d' hs'.
Proof.
  induction acts as [|a acts IH] using rev_ind; intros Hwf.
  - by exists d, hs.
  - destruct (IH Hwf) as (d1 & hs1 & Hrun & Hwf1).
    destruct (well_formed_step d1 hs1 a Hwf1) as (d2 & hs2 & Hstep & Hwf2 & _).
    exists d2, hs2. split; [|done].
    unfold run in *. by rewrite foldl_app; cbn; rewrite Hrun.
Qed.

(** Whatever the user does with the inputs of the form, neither
    rendering nor the state updater throws, and the state object keeps
    the shape it started with: the same eight keys, texts under the text
    keys, a flag under [newsletter], one of the four countries, no or one
    of the three genders, and under [hobbies] an array without duplicates
    of the offered hobbies.  A click on a hobby's checkbox toggles that
    hobby in the array and touches no other. *)
Theorem complex_form_keeps_its_shape (acts : list action) :
  ∃ d hobbies,
    run initial acts = Some d ∧ well_formed d hobbies ∧
    ∀ h, ∃ d' hobbies',
      step d (click_hobby h) = Some d' ∧ well_formed d' hobbies' ∧
      (hobby_value h ∈ hobbies' ↔ hobby_value h ∉ hobbies) ∧
      (∀ x, x ≠ hobby_value h → x ∈ hobbies' ↔ x ∈ hobbies).
Proof.
  destruct (well_formed_run acts initial [] well_formed_initial)
    as (d & hs & Hrun & Hwf).
  exists d, hs. split_and!; [done..|].
  intros h.
  destruct (well_formed_step d hs (click_hobby h) Hwf) as (d' & hs' & ? & ? & ? & ?).
  by exists d', hs'.
Qed.

End ComplexFormFacts.

(** ** useForm and CustomHookDemo *)

Section CustomHookDemoFacts.
Import JS Event CustomHookDemo.

(** [validate] finds nothing exactly when both fields are truthy. *)
Lemma validate_nothing (v : gmap string field_value) :
  size (validate v) = 0 ↔
  truthy_value (v !! "email") = true ∧ truthy_value (v !! "password") = true.
Proof.
  unfold validate.
  destruct (truthy_value (v !! "email")), (truthy_value (v !! "password"));
    cbn [negb];
    rewrite ?map_size_insert, ?lookup_insert_ne, ?lookup_empty,
      ?map_size_empty by done;
    (split; [done | by intros [? ?]]).
Qed.

(** Its messages are the two of the source, each under its own key. *)
Lemma validate_messages (v : gmap string field_value) (k msg : string) :
  validate v !! k = Some msg →
  (k = "email" ∧ msg = "Email required" ∧
   truthy_value (v !! "email") = false) ∨
  (k = "password" ∧ msg = "Password required" ∧
   truthy_value (v !! "password") = false).
Proof.
  unfold validate.
  destruct (truthy_value (v !! "email")), (truthy_value (v !! "password"));
    cbn [negb]; intros Hk.
  - by rewrite lookup_empty in Hk.
  - apply lookup_insert_Some in Hk as [[<- <-]|[_ Hk]]; [by right|].
    by rewrite lookup_empty in Hk.
  - apply lookup_insert_Some in Hk as [[<- <-]|[_ Hk]]; [by left|].
    by rewrite lookup_empty in Hk.
  - apply lookup_insert_Some in Hk as [[<- <-]|[_ Hk]]; [by right|].
    apply lookup_insert_Some in Hk as [[<- <-]|[_ Hk]]; [by left|].
    by rewrite lookup_empty in Hk.
Qed.

Lemma step_not_submit (s : state) (e : event) :
  is_submit e = false →
  errors (hook (step s e)) = errors (hook s) ∧
  logins (step s e) = logins s ∧
  touched (hook s) ⊆ touched (hook (step s e)).
Proof. destruct e; intros He; try done; cbn; set_solver. Qed.

Lemma run_not_submit (evs : list event) (s : state) :
  Forall (λ e, is_submit e = false) evs →
  errors (hook (run s evs)) = errors (hook s) ∧
  logins (run s evs) = logins s ∧
  touched (hook s) ⊆ touched (hook (run s evs)).
Proof.
  induction evs as [|e evs IH] using rev_ind; intros Hevs.
  - done.
  - apply Forall_app in Hevs as [Hevs He].
    rewrite Forall_singleton in He.
    destruct (IH Hevs) as (IHe & IHl & IHt).
    destruct (step_not_submit (run s evs) e He) as (He1 & Hl1 & Ht1).
    unfold run in *. rewrite foldl_app. cbn [foldl].
    rewrite He1, Hl1, IHe, IHl. split_and!; [done..|]. set_solver.
Qed.

(** Whatever is typed, blurred and submitted, every login that
    goes through has a truthy email and a truthy password; the messages
    in [errors] are the two of the source, each under its own key; and
    right after a login that went through the hook is back in the state
    it started in. *)
Theorem login_needs_email_and_password (evs : list event) :
  let s := run initial evs in
  Forall (λ v, truthy_value (v !! "email") = true ∧
               truthy_value (v !! "password") = true) (logins s) ∧
  (∀ k msg, errors (hook s) !! k = Some msg →
     (k = "email" ∧ msg = "Email required") ∨
     (k = "password" ∧ msg = "Password required")) ∧
  (logins (handleSubmit s) ≠ logins s → hook (handleSubmit s) = hook initial).
Proof.
  cbv zeta. induction evs as [|e evs IH] using rev_ind.
  - split_and!.
    + constructor.
    + intros k msg Hk.
      change (errors (hook (run initial []))) with (∅ : gmap string string)
        in Hk.
      by rewrite lookup_empty in Hk.
    + intros Hl. unfold handleSubmit in *. by case_decide.
  - unfold run in *. rewrite foldl_app. cbn [foldl].
    set (s := foldl step initial evs) in *.
    destruct IH as (IHl & IHe & _).
    assert (Forall (λ v, truthy_value (v !! "email") = true ∧
                         truthy_value (v !! "password") = true)
              (logins (step s e)) ∧
            (∀ k msg, errors (hook (step s e)) !! k = Some msg →
               (k = "email" ∧ msg = "Email required") ∨
               (k = "password" ∧ msg = "Password required"))) as [Hl He].
    { destruct e as [t|n|]; cbn; [done..|].
      unfold handleSubmit. case_decide as Hsz; cbn.
      - split; [done|]. intros k msg Hk.
        apply validate_messages in Hk. naive_solver.
      - split.
        + apply Forall_app. split; [done|]. apply Forall_singleton.
          apply validate_nothing. lia.
        + intros k msg Hk. by rewrite lookup_empty in Hk. }
    split_and!; [done..|].
    intros Hne. unfold handleSubmit in *. by case_decide.
Qed.

(** The messages only change on submit.  If a submit found the
    email missing and the field has been left once, then whatever is typed
    and blurred afterwards (a valid email included), "Email required"
    stays under the input until the next submit, and no login goes
    through meanwhile. *)
Theorem login_message_waits_for_next_submit (s : state) (evs : list event) :
  "email" ∈ touched (hook s) →
  truthy_value (values (hook s) !! "email") = false →
  Forall (λ e, is_submit e = false) evs →
  let s' := run (handleSubmit s) evs in
  message s' "email" = Some "Email required" ∧ logins s' = logins s.
Proof.
  intros Ht He Hevs. cbv zeta.
  destruct (run_not_submit evs (handleSubmit s) Hevs) as (Herr & Hlog & Hto).
  assert (0 < size (validate (values (hook s)))) as Hsz.
  { destruct (decide (size (validate (values (hook s))) = 0)) as [Hz|Hz];
      [|lia].
    apply validate_nothing in Hz as [Hz _]. congruence. }
  assert (handleSubmit s
          = {| hook := setErrors (validate (values (hook s))) (hook s);
               logins := logins s |}) as Hsub.
  { unfold handleSubmit. by rewrite decide_True. }
  rewrite Hsub in *. cbn in *. split; [|done].
  unfold message. rewrite decide_True by set_solver.
  rewrite Herr. unfold validate. rewrite He. cbn.
  destruct (truthy_value (values (hook s) !! "password")); cbn.
  - by rewrite lookup_insert_eq.
  - rewrite lookup_insert_ne, lookup_insert_eq by done. done.
Qed.

Lemma login_message_waits_for_next_submit_witness :
  let s := run initial [Blur "email"; Submit] in
  let fill := Change {| name := "email"; value := "sam@example.org";
                        type := "text"; checked := false |} in
  let s' := run (handleSubmit s) [fill; Blur "email"] in
  truthy_value (values (hook s') !! "email") = true ∧
  message s' "email" = Some "Email required" ∧ logins s' = logins s.
Proof.
  cbv zeta. split; [by vm_compute|].
  apply (login_message_waits_for_next_submit
           (run initial [Blur "email"; Submit])).
  - vm_compute. set_solver.
  - by vm_compute.
  - by repeat constructor.
Defined.

End CustomHookDemoFacts.

(** ** DocumentTitleExample *)

Section DocumentTitleFacts.
Import JS DocumentTitleExample.

Ltac title_simpl :=
  cbn [count notifications pageTitle title_text interval now mounted
       next seen_notifications seen_pageTitle
       setCount setNotifications setPageTitle set_document_title
       set_interval set_now set_mounted title_effect title_cleanup tick].

(** Stripping and collapsing keeps a first code unit that is not white
    space. *)
Lemma strip_and_collapse_head (c : ascii) (s : string) :
  is_ascii_whitespace c = false →
  ∃ r, strip_and_collapse (String c s) = String c r.
Proof.
  intros Hc. unfold strip_and_collapse.
  cbn [collapse_runs]. rewrite Hc. cbn [strip_leading]. rewrite Hc.
  cbn [strip_trailing]. rewrite Hc.
  destruct (strip_trailing (collapse_runs false s)); eauto.
Qed.

Lemma flash_title_starts (n : nat) (p : string) :
  startsWith (strip_and_collapse (flash_title n p)) "(" = true.
Proof.
  destruct (strip_and_collapse_head "(" (pretty n +:+ ") " +:+ p) eq_refl)
    as [r Hr].
  change (flash_title n p) with (String "(" (pretty n +:+ ") " +:+ p)).
  by rewrite Hr.
Qed.

Lemma count_title_starts (c : nat) (p : string) :
  startsWith (strip_and_collapse (count_title c p)) "(" = false.
Proof.
  destruct (strip_and_collapse_head "C" ("ount: " +:+ pretty c +:+ " | " +:+ p)
              eq_refl) as [r Hr].
  change (count_title c p)
    with (String "C" ("ount: " +:+ pretty c +:+ " | " +:+ p)).
  by rewrite Hr.
Qed.

(** The ticks of an interval only write the title. *)
Lemma ticks_frame (f : flasher) (k : nat) (s : state) :
  let s' := Nat.iter k (tick f) s in
  count s' = count s ∧ notifications s' = notifications s ∧
  pageTitle s' = pageTitle s ∧ interval s' = interval s ∧
  now s' = now s ∧ mounted s' = mounted s.
Proof.
  cbv zeta. induction k as [|k IH]; [done|].
  rewrite Nat.iter_succ. title_simpl. exact IH.
Qed.

(** The text of the title after [k] ticks.  A page title that reads
    back with a bracket first is taken for the flashed title, and the
    flashing stops. *)
Lemma ticks_title (f : flasher) (k : nat) (s : state) :
  title_text (Nat.iter k (tick f) s) =
  match k with
  | 0 => title_text s
  | S _ =>
      if startsWith (strip_and_collapse (seen_pageTitle f)) "("
      then if bool_decide (k = 1) && negb (startsWith (document_title s) "(")
           then flash_title (seen_notifications f) (seen_pageTitle f)
           else seen_pageTitle f
      else if Bool.eqb (startsWith (document_title s) "(") (Nat.even k)
           then flash_title (seen_notifications f) (seen_pageTitle f)
           else seen_pageTitle f
  end.
Proof.
  induction k as [|k IH]; [done|].
  rewrite Nat.iter_succ. title_simpl. unfold document_title at 1.
  rewrite IH. clear IH.
  destruct k as [|k].
  - rewrite (bool_decide_eq_true_2 (1 = 1)) by done. cbn [Nat.even andb].
    fold (document_title s).
    by destruct (startsWith (document_title s) "("),
      (startsWith (strip_and_collapse (seen_pageTitle f)) "(").
  - rewrite (bool_decide_eq_false_2 (S (S k) = 1)) by lia.
    rewrite (Nat.even_succ (S k)), <- Nat.negb_even.
    destruct (startsWith (strip_and_collapse (seen_pageTitle f)) "(") eqn:Hp.
    + cbn [andb].
      destruct (_ && _); [by rewrite flash_title_starts|by rewrite Hp].
    + destruct (startsWith (document_title s) "("), (Nat.even (S k));
        cbn [Bool.eqb negb]; by rewrite ?flash_title_starts, ?Hp.
Qed.

Lemma title_invariant_mount (title0 : string) : title_invariant (mount title0).
Proof. split; [done|]. by left. Qed.

Lemma title_invariant_step (s : state) (e : event) :
  title_invariant s → title_invariant (step s e).
Proof.
  intros Hs. destruct e as [v| | | | |dt|].
  6:{ (* the clock *)
    unfold step, elapse. unfold title_invariant in *.
    destruct (interval s) as [f|] eqn:Hi.
    - destruct (ticks_frame f (TimerExample.ticks_due (now s + dt) (next f)) s)
        as (Hc & Hn & Hp & _ & _ & Hm).
      title_simpl. rewrite Hm, Hc, Hn, Hp.
      destruct (mounted s); [|by destruct Hs].
      destruct Hs as [(Hpos & Hsn & Hsp & Hlo & Hhi) Ht].
      split.
      + split_and!; [done..| |].
        * unfold TimerExample.ticks_due. case_decide as Hdue; [|lia].
          destruct (div_period (now s + dt - next f)) as (q & r & Hq & Hr & ->).
          unfold TimerExample.periodMs in *. lia.
        * unfold TimerExample.ticks_due. case_decide as Hdue.
          -- destruct (div_period (now s + dt - next f))
               as (q & r & Hq & Hr & ->).
             unfold TimerExample.periodMs in *. lia.
          -- unfold TimerExample.periodMs in *. lia.
      + rewrite ticks_title. rewrite Hsn, Hsp.
        destruct (TimerExample.ticks_due _ _) as [|k]; [done|].
        right. destruct (startsWith (strip_and_collapse (pageTitle s)) "(").
        * destruct (_ && _); [|by left].
          right. exists (notifications s). eauto.
        * destruct (Bool.eqb _ _); [|by left].
          right. exists (notifications s). eauto.
    - title_simpl. rewrite Hi. by destruct (mounted s). }
  all: unfold step; destruct (mounted s) eqn:Hm; [|done].
  all: unfold title_invariant in *; rewrite Hm in Hs; destruct Hs as [Hi Ht].
  - (* page title *)
    unfold onChangePageTitle. case_decide as Hv.
    { rewrite Hm. by split. }
    unfold flash_effect, flash_cleanup. title_simpl.
    destruct (interval s) as [f|] eqn:Hf; title_simpl.
    + destruct Hi as (Hpos & _). rewrite decide_True by done.
      title_simpl. rewrite Hm.
      split; [split_and!; try done; unfold TimerExample.periodMs; lia|].
      right. right. exists (notifications s). eauto.
    + rewrite decide_False by lia. title_simpl. rewrite Hm, Hf.
      split; [done|]. by left.
  - (* increment *)
    unfold increment. title_simpl. rewrite Hm. split; [done|]. by left.
  - (* reset *)
    unfold resetCount. case_decide as Hc.
    { rewrite Hm. by split. }
    title_simpl. rewrite Hm. split; [done|]. by left.
  - (* new notification *)
    unfold newNotification, flash_effect, flash_cleanup. title_simpl.
    destruct (interval s) as [f|] eqn:Hf; title_simpl;
      rewrite decide_True by lia; title_simpl; rewrite Hm;
      (split; [split_and!; try done; unfold TimerExample.periodMs; lia|]);
      right; right; exists (notifications s + 1);
      (split_and!; [lia|done|done]).
  - (* clear *)
    unfold clearNotifications. case_decide as Hn.
    { rewrite Hm. by split. }
    unfold flash_effect, flash_cleanup. title_simpl.
    destruct (interval s) as [f|] eqn:Hf; title_simpl;
      [|lia].
    rewrite decide_False by lia. title_simpl. rewrite Hm.
    split; [done|]. destruct Ht as [Ht|[Ht|(k & Hk & Ht & _)]]; eauto.
    right. right. exists k. split_and!; [done..|lia].
  - (* unmount *)
    unfold unmount, flash_cleanup. title_simpl.
    destruct (interval s) as [f|] eqn:Hf; by title_simpl.
Qed.

Lemma title_invariant_run (evs : list event) (s : state) :
  title_invariant s → title_invariant (run s evs).
Proof.
  induction evs as [|e evs IH] using rev_ind; intros Hs; [done|].
  unfold run in *. rewrite foldl_app. by apply title_invariant_step, IH.
Qed.

(** Once unmounted, nothing the user or the clock does is heard. *)
Lemma unmounted_step (s : state) (e : event) :
  mounted s = false → interval s = None →
  mounted (step s e) = false ∧ interval (step s e) = None ∧
  title_text (step s e) = title_text s.
Proof.
  intros Hm Hi. destruct e as [v| | | | |dt|]; unfold step; rewrite ?Hm.
  6:{ unfold elapse. rewrite Hi. by title_simpl. }
  all: done.
Qed.

Lemma unmounted_run (evs : list event) (s : state) :
  mounted s = false → interval s = None →
  mounted (run s evs) = false ∧ interval (run s evs) = None ∧
  title_text (run s evs) = title_text s.
Proof.
  intros Hm Hi. induction evs as [|e evs IH] using rev_ind; [done|].
  unfold run in *. rewrite foldl_app. cbn [foldl].
  destruct IH as (IHm & IHi & IHt).
  destruct (unmounted_step _ e IHm IHi) as (? & ? & ->). done.
Qed.

(** Without an interval the clock changes nothing but the time. *)
Lemma quiet_run (dts : list nat) (s : state) :
  interval s = None →
  let s' := run s (Elapse <$> dts) in
  title_text s' = title_text s ∧
  notifications s' = notifications s ∧ interval s' = None.
Proof.
  cbv zeta. revert s. induction dts as [|dt dts IH]; intros s Hi; [done|].
  change (run s (Elapse <$> dt :: dts))
    with (run (elapse dt s) (Elapse <$> dts)).
  assert (elapse dt s = set_now (now s + dt) s) as ->.
  { unfold elapse. by rewrite Hi. }
  destruct (IH (set_now (now s + dt) s) Hi) as (-> & -> & ->). done.
Qed.

(** In every state the component reaches, an interval is set exactly
    while it is mounted with notifications pending, its callback sees the
    current notifications and page title, and [document.title] reads as
    the count title, the page title alone, or a bracketed number before
    the page title, each with its white space stripped and collapsed;
    after unmounting it reads "React App" for good and no interval is
    left.  Clearing the notifications stops the flashing but leaves
    whatever title the tab showed at that moment. *)
Theorem document_title_in_every_state (title0 : string) (evs : list event) :
  let s := run (mount title0) evs in
  title_invariant s ∧
  (mounted s = true →
   document_title s
   = strip_and_collapse (count_title (count s) (pageTitle s)) ∨
   document_title s = strip_and_collapse (pageTitle s) ∨
   ∃ k, 0 < k ∧
        document_title s = strip_and_collapse (flash_title k (pageTitle s)) ∧
        (0 < notifications s → k = notifications s)) ∧
  (mounted s = false →
   ∀ evs', document_title (run s evs') = "React App") ∧
  (∀ dts, let s' := run (step s ClearNotifications) (Elapse <$> dts) in
          document_title s' = document_title s ∧
          (mounted s = true → notifications s' = 0 ∧ interval s' = None)).
Proof.
  cbv zeta.
  pose proof (title_invariant_run evs _ (title_invariant_mount title0)) as Hs.
  set (s := run (mount title0) evs) in *.
  split_and!; [done| | |].
  - intros Hm. unfold title_invariant in Hs. rewrite Hm in Hs.
    destruct Hs as [_ [Ht|[Ht|(k & Hk & Ht & Hn)]]]; unfold document_title;
      rewrite Ht; eauto 6.
  - intros Hm evs'. unfold title_invariant in Hs. rewrite Hm in Hs.
    destruct Hs as [Ht Hi]. unfold document_title.
    destruct (unmounted_run evs' s Hm Hi) as (_ & _ & ->). by rewrite Ht.
  - intros dts.
    assert (title_text (step s ClearNotifications) = title_text s ∧
            interval (step s ClearNotifications) = None ∧
            (mounted s = true → notifications (step s ClearNotifications) = 0))
      as (Ht & Hi & Hn).
    { unfold title_invariant in Hs.
      unfold step, clearNotifications. destruct (mounted s) eqn:Hm.
      - destruct Hs as [Hs _]. case_decide as Hz.
        + destruct (interval s); [lia|done].
        + unfold flash_effect, flash_cleanup. title_simpl.
          destruct (interval s); title_simpl; rewrite decide_False by lia;
            by title_simpl.
      - by destruct Hs as [_ ->]. }
    unfold document_title.
    destruct (quiet_run dts _ Hi) as (-> & -> & ->). split; [by rewrite Ht|].
    intros Hm. split; [by apply Hn|done].
Qed.

Lemma quiet_step (s : state) (e : event) :
  is_new_notification e = false →
  notifications s = 0 → interval s = None →
  title_text s
  = (if mounted s then count_title (count s) (pageTitle s) else "React App") →
  let s' := step s e in
  notifications s' = 0 ∧ interval s' = None ∧
  title_text s'
  = if mounted s' then count_title (count s') (pageTitle s') else "React App".
Proof.
  intros He Hn Hi Ht. cbv zeta.
  destruct e as [v| | | | |dt|]; try done.
  5:{ unfold step, elapse. rewrite Hi. by title_simpl. }
  all: unfold step; destruct (mounted s) eqn:Hm; [|by rewrite Hm].
  - unfold onChangePageTitle. case_decide as Hv; [by rewrite Hm|].
    unfold flash_effect, flash_cleanup. title_simpl. rewrite Hi. title_simpl.
    rewrite decide_False by lia. title_simpl. by rewrite Hm.
  - unfold increment. title_simpl. by rewrite Hm.
  - unfold resetCount. case_decide as Hc; [by rewrite Hm|].
    title_simpl. by rewrite Hm.
  - unfold clearNotifications. rewrite decide_True by done. by rewrite Hm.
  - unfold unmount, flash_cleanup. title_simpl. rewrite Hi. by title_simpl.
Qed.

(** As long as no notification has ever come in, [document.title] reads
    as [Count: c | title] for the current count and page title, with its
    white space stripped and collapsed, while the component is mounted,
    and as "React App" after. *)
Theorem count_title_without_notifications
    (title0 : string) (evs : list event) :
  Forall (λ e, is_new_notification e = false) evs →
  let s := run (mount title0) evs in
  notifications s = 0 ∧
  document_title s
  = if mounted s
    then strip_and_collapse (count_title (count s) (pageTitle s))
    else "React App".
Proof.
  intros Hevs. cbv zeta.
  enough (notifications (run (mount title0) evs) = 0 ∧
          interval (run (mount title0) evs) = None ∧
          title_text (run (mount title0) evs)
          = if mounted (run (mount title0) evs)
            then count_title (count (run (mount title0) evs))
                   (pageTitle (run (mount title0) evs))
            else "React App") as (Hn & _ & Ht).
  { split; [done|]. unfold document_title. rewrite Ht.
    by destruct (mounted _). }
  induction evs as [|e evs IH] using rev_ind; [done|].
  apply Forall_app in Hevs as [Hevs He]. rewrite Forall_singleton in He.
  destruct (IH Hevs) as (IHn & IHi & IHt).
  unfold run in *. rewrite foldl_app. cbn [foldl].
  by apply quiet_step.
Qed.

Lemma count_title_without_notifications_witness :
  let s := run (mount "Vite + React")
             [Increment; ChangePageTitle "My  Inbox "; Elapse 2500;
              Increment; ClearNotifications] in
  let s0 := run (mount "Vite + React") [ChangePageTitle ""] in
  (notifications s = 0 ∧ document_title s = "Count: 2 | My Inbox") ∧
  (notifications s0 = 0 ∧ document_title s0 = "Count: 0 |").
Proof.
  split.
  - apply (count_title_without_notifications "Vite + React"
             [Increment; ChangePageTitle "My  Inbox "; Elapse 2500;
              Increment; ClearNotifications]).
    by repeat constructor.
  - apply (count_title_without_notifications "Vite + React"
             [ChangePageTitle ""]).
    by repeat constructor.
Defined.

(** While notifications are pending, the interval rewrites the title
    once a second.  After the first tick [document.title] reads as the
    page title or the bracketed title, never the count title: a change of
    the count shows for less than a second.  If the page title, once
    stripped, does not start with a bracket the two alternate, the
    bracketed one showing after an even number of ticks when it showed at
    the start.  If it does start with a bracket it is taken for the
    bracketed title: the flashing stops at the second tick at the latest,
    and at the first when a bracket was showing. *)
Theorem notification_flashing
    (title0 : string) (evs : list event) (dt : nat) :
  let s := run (mount title0) evs in
  mounted s = true → 0 < notifications s →
  ∃ f, interval s = Some f ∧
    let k := TimerExample.ticks_due (now s + dt) (next f) in
    let s' := elapse dt s in
    let flash := flash_title (notifications s) (pageTitle s) in
    let bracket := startsWith (strip_and_collapse (pageTitle s)) "(" in
    (k = 0 → document_title s' = document_title s) ∧
    (0 < k →
     document_title s' = strip_and_collapse (pageTitle s) ∨
     document_title s' = strip_and_collapse flash) ∧
    (bracket = false → 0 < k →
     document_title s'
     = strip_and_collapse
         (if Bool.eqb (startsWith (document_title s) "(") (Nat.even k)
          then flash else pageTitle s)) ∧
    (bracket = true → 2 ≤ k →
     document_title s' = strip_and_collapse (pageTitle s)) ∧
    (bracket = true → startsWith (document_title s) "(" = true → 0 < k →
     document_title s' = strip_and_collapse (pageTitle s)).
Proof.
  cbv zeta. intros Hm Hpos.
  pose proof (title_invariant_run evs _ (title_invariant_mount title0)) as Hs.
  set (s := run (mount title0) evs) in *.
  unfold title_invariant in Hs. rewrite Hm in Hs. destruct Hs as [Hi _].
  destruct (interval s) as [f|] eqn:Hf; [|lia].
  destruct Hi as (_ & Hsn & Hsp & _).
  exists f. split; [done|].
  assert (title_text (elapse dt s)
          = title_text
              (Nat.iter (TimerExample.ticks_due (now s + dt) (next f))
                 (tick f) s)) as Ht.
  { unfold elapse. rewrite Hf. by title_simpl. }
  assert (∀ x, document_title x = strip_and_collapse (title_text x)) as Hd
    by done.
  rewrite (Hd (elapse dt s)), Ht, ticks_title, Hsn, Hsp.
  destruct (TimerExample.ticks_due (now s + dt) (next f)) as [|k].
  { split_and!; [done|lia|lia|lia|lia]. }
  split_and!.
  - lia.
  - intros _. destruct (startsWith (strip_and_collapse (pageTitle s)) "(").
    + destruct (_ && _); eauto.
    + destruct (Bool.eqb _ _); eauto.
  - by intros -> _.
  - intros -> Hk. by rewrite (bool_decide_eq_false_2 (S k = 1)) by lia.
  - intros -> -> _. cbn [negb]. by rewrite andb_false_r.
Qed.

Lemma notification_flashing_witness :
  let s := run (mount "Vite + React")
             [ChangePageTitle " (beta) Inbox"; NewNotification] in
  mounted s = true ∧ 0 < notifications s ∧
  document_title s = "(1) (beta) Inbox" ∧
  ∃ f, interval s = Some f ∧
    let k := TimerExample.ticks_due (now s + 1000) (next f) in
    let s' := elapse 1000 s in
    let flash := flash_title (notifications s) (pageTitle s) in
    let bracket := startsWith (strip_and_collapse (pageTitle s)) "(" in
    (k = 0 → document_title s' = document_title s) ∧
    (0 < k →
     document_title s' = strip_and_collapse (pageTitle s) ∨
     document_title s' = strip_and_collapse flash) ∧
    (bracket = false → 0 < k →
     document_title s'
     = strip_and_collapse
         (if Bool.eqb (startsWith (document_title s) "(") (Nat.even k)
          then flash else pageTitle s)) ∧
    (bracket = true → 2 ≤ k →
     document_title s' = strip_and_collapse (pageTitle s)) ∧
    (bracket = true → startsWith (document_title s) "(" = true → 0 < k →
     document_title s' = strip_and_collapse (pageTitle s)).
Proof.
  cbv zeta. split_and!; [done|by vm_compute|done|].
  apply (notification_flashing "Vite + React"
           [ChangePageTitle " (beta) Inbox"; NewNotification] 1000).
  - done.
  - vm_compute. lia.
Defined.

End DocumentTitleFacts.

(** ** FileUploadForm *)

Section FileUploadFormFacts.
Import JS FileUploadForm.

Ltac upload_simpl :=
  cbn [selectedFile preview readers reading uploads setSelectedFile
       setPreview readAsDataURL finish result].

(** A reader keeps reading its file until its own [loadend]. *)
Lemma reader_keeps_reading (evs : list event) (s : state) (n : nat) (a : File) :
  readers s !! n = Some a → n ∈ reading s →
  Forall (λ e, is_loadend_of n e = false) evs →
  readers (run s evs) !! n = Some a ∧ n ∈ reading (run s evs).
Proof.
  revert s. induction evs as [|e evs IH]; intros s Hr Hn Hevs; [done|].
  apply Forall_cons in Hevs as [He Hevs].
  change (run s (e :: evs)) with (run (step s e) evs).
  apply IH; [| |done].
  - destruct e as [[f|]|i ok|]; cbn [step].
    + unfold handleFileChange. destruct (is_image f); upload_simpl; [|done].
      by apply lookup_app_l_Some.
    + done.
    + unfold onloadend. destruct (readers s !! i); [|done].
      by case_decide.
    + unfold handleSubmit. by destruct (selectedFile s).
  - destruct e as [[f|]|i ok|]; cbn [step].
    + unfold handleFileChange. destruct (is_image f); upload_simpl; [|done].
      set_solver.
    + done.
    + unfold onloadend. destruct (readers s !! i); [|done].
      case_decide; [|done]. upload_simpl.
      cbn [is_loadend_of] in He. case_bool_decide; [done|]. set_solver.
    + unfold handleSubmit. by destruct (selectedFile s).
Qed.

(** Once an image has been chosen, the end of its read sets the
    preview to that image, whatever has been chosen, read or submitted in
    between: the preview can belong to a file that is no longer the
    selected one. *)
Theorem late_read_overwrites_preview
    (s : state) (a : File) (evs : list event) :
  is_image a = true →
  let n := length (readers s) in
  Forall (λ e, is_loadend_of n e = false) evs →
  let s1 := run (step s (Choose (Some a))) evs in
  let s2 := step s1 (LoadEnd n true) in
  preview s2 = Some (data_url a) ∧ selectedFile s2 = selectedFile s1 ∧
  n ∉ reading s2.
Proof.
  intros Ha n Hevs. cbv zeta.
  set (s1 := run (step s (Choose (Some a))) evs).
  assert (readers s1 !! n = Some a ∧ n ∈ reading s1) as [Hr Hn].
  { apply reader_keeps_reading; [| |done];
      cbn [step]; unfold handleFileChange; rewrite Ha; upload_simpl.
    - by apply list_lookup_middle.
    - set_solver. }
  cbn [step]. unfold onloadend. rewrite Hr, decide_True by done.
  upload_simpl. split_and!; [done..|]. set_solver.
Qed.

Lemma late_read_overwrites_preview_witness :
  let photo := {| file_name := "cat.png"; file_type := "image/png";
                  data_url := "data:image/png;base64,iVBORw0KGgo=" |} in
  let notes := {| file_name := "notes.txt"; file_type := "text/plain";
                  data_url := "data:text/plain;base64,aGk=" |} in
  let s := run initial [Choose (Some photo); Choose (Some notes);
                        LoadEnd 0 true] in
  is_image photo = true ∧
  selectedFile s = Some notes ∧ preview s = Some (data_url photo) ∧
  preview_of (selectedFile s) = Some "".
Proof.
  cbv zeta. split; [done|].
  destruct (late_read_overwrites_preview initial
              {| file_name := "cat.png"; file_type := "image/png";
                 data_url := "data:image/png;base64,iVBORw0KGgo=" |}
              [Choose (Some {| file_name := "notes.txt";
                               file_type := "text/plain";
                               data_url := "data:text/plain;base64,aGk=" |})])
    as (Hp & Hs & _); [done|by repeat constructor|].
  split_and!; [done|exact Hp|done].
Defined.

Lemma settled_step (s : state) (e : event) :
  settled_or_reading_selection s →
  match e with
  | Choose _ => reading s = ∅
  | LoadEnd _ ok => ok = true
  | Submit => True
  end →
  settled_or_reading_selection (step s e).
Proof.
  intros Hs He. destruct e as [[f|]|i ok|]; cbn [step].
  - unfold handleFileChange. destruct (is_image f) eqn:Hf.
    + right. exists (length (readers s)), f. upload_simpl. rewrite He.
      split_and!; [set_solver|by apply list_lookup_middle|done..].
    + left. upload_simpl. unfold preview_of. by rewrite Hf.
  - by left.
  - subst ok. unfold onloadend.
    destruct (readers s !! i) as [f|] eqn:Hr; [|done].
    case_decide as Hi; [|done].
    destruct Hs as [[Hempty _]|(j & g & Hj & Hg & Hsel & Himg)];
      [set_solver|].
    assert (i = j) as -> by set_solver.
    left. upload_simpl. split; [set_solver|].
    rewrite Hsel. unfold preview_of. rewrite Himg. congruence.
  - unfold handleSubmit. destruct (selectedFile s) eqn:Hsel; [|done].
    unfold settled_or_reading_selection in *. upload_simpl.
    by rewrite Hsel in Hs.
Qed.

(** If the user picks the next file only when the read of the last
    one is over, and no read fails, then whenever nothing is being read
    the preview is the one of the selected file (its data URL for an image,
    none otherwise), and while a file is being read it is the selected
    image. *)
Theorem preview_follows_selection (evs : list event) :
  one_at_a_time initial evs →
  let s := run initial evs in
  settled_or_reading_selection s ∧
  (reading s = ∅ → preview s = preview_of (selectedFile s)).
Proof.
  intros Hevs. cbv zeta.
  assert (∀ evs s, settled_or_reading_selection s → one_at_a_time s evs →
            settled_or_reading_selection (run s evs)) as Hrun.
  { clear. intros evs. induction evs as [|e evs IH]; intros s Hs Hevs;
      [done|].
    destruct Hevs as [He Hevs].
    change (run s (e :: evs)) with (run (step s e) evs).
    apply IH; [|done]. by apply settled_step. }
  assert (settled_or_reading_selection (run initial evs)) as Hs.
  { apply Hrun; [|done]. by left. }
  split; [done|]. intros Hempty.
  destruct Hs as [[_ Hp]|(i & f & Hi & _)]; [done|]. set_solver.
Qed.

Lemma preview_follows_selection_witness :
  let photo := {| file_name := "cat.png"; file_type := "image/png";
                  data_url := "data:image/png;base64,iVBORw0KGgo=" |} in
  let notes := {| file_name := "notes.txt"; file_type := "text/plain";
                  data_url := "data:text/plain;base64,aGk=" |} in
  let evs := [Choose (Some notes); Choose (Some photo); LoadEnd 0 true;
              Submit] in
  one_at_a_time initial evs ∧
  settled_or_reading_selection (run initial evs) ∧
  preview (run initial evs) = Some (data_url photo) ∧
  uploads (run initial evs) = [photo].
Proof.
  cbv zeta.
  assert (one_at_a_time initial
            [Choose (Some {| file_name := "notes.txt";
                             file_type := "text/plain";
                             data_url := "data:text/plain;base64,aGk=" |});
             Choose (Some {| file_name := "cat.png";
                             file_type := "image/png";
                             data_url := "data:image/png;base64,iVBORw0KGgo=" |});
             LoadEnd 0 true; Submit]) as Hevs.
  { cbn. split_and!; done. }
  split; [exact Hevs|].
  destruct (preview_follows_selection _ Hevs) as [Hs Hp].
  split; [exact Hs|]. split; [|done].
  rewrite Hp; [done|]. cbn. set_solver.
Defined.

End FileUploadFormFacts.

(** ** SearchForm *)

Section SearchFormFacts.
Import JS SearchForm.

Ltac search_form_simpl :=
  cbn [searchTerm debouncedTerm results mounted now timer searched
       setSearchTerm setDebouncedTerm setResults set_timer set_now
       set_mounted console_log debounce_effect debounce_cleanup
       setTimeout clearTimeout fst snd].

Lemma results_in_step_search_effect (s : state) :
  Forall (λ term, truthy term = true) (searched s) →
  let s' := search_effect s in
  results s' = results_for (debouncedTerm s') ∧
  Forall (λ term, truthy term = true) (searched s') ∧
  timer s' = timer s ∧ mounted s' = mounted s ∧ now s' = now s ∧
  searchTerm s' = searchTerm s ∧ debouncedTerm s' = debouncedTerm s.
Proof.
  intros Hlog. cbv zeta. unfold search_effect, results_for.
  destruct (truthy (debouncedTerm s)) eqn:Ht; search_form_simpl;
    rewrite Ht; split_and!; try done.
  apply Forall_app. split; [done|]. by apply Forall_singleton.
Qed.

Lemma results_in_step_elapse (s : state) (dt : nat) :
  results_in_step s → results_in_step (elapse dt s).
Proof.
  intros (Hres & Hlog & Htm). unfold elapse, due_by.
  destruct (timer s) as [[due v]|] eqn:Htimer.
  - destruct Htm as (Hm & -> & Hlo & Hhi). case_decide as Hdue.
    + unfold fire. search_form_simpl. case_decide as Hsame.
      * unfold results_in_step. search_form_simpl. split_and!; [done..|].
        by right.
      * destruct (results_in_step_search_effect
                    (setDebouncedTerm (searchTerm s) (set_timer None s)))
          as (Hr & Hl & Ht & Hmo & Hn & Hst & Hdt); [done|].
        unfold results_in_step. search_form_simpl.
        rewrite Hr, Ht, Hst, Hdt. search_form_simpl.
        split_and!; [done..|]. by right.
    + unfold results_in_step. search_form_simpl. rewrite Htimer.
      split_and!; try done; unfold delayMs in *; lia.
  - unfold results_in_step. search_form_simpl. by rewrite Htimer.
Qed.

Lemma results_in_step_step (s : state) (e : event) :
  results_in_step s → results_in_step (step s e).
Proof.
  intros Hs. destruct e as [v|dt|]; cbn [step].
  - destruct (mounted s) eqn:Hm; [|done].
    unfold onChange. case_decide as Hv; [done|].
    destruct Hs as (Hres & Hlog & _).
    unfold results_in_step. search_form_simpl.
    split_and!; try done; unfold delayMs; lia.
  - by apply results_in_step_elapse.
  - destruct (mounted s) eqn:Hm; [|done].
    destruct Hs as (Hres & Hlog & _).
    unfold results_in_step, unmount. search_form_simpl.
    split_and!; [done..|]. by left.
Qed.

Lemma results_in_step_run (evs : list event) : results_in_step (run mount evs).
Proof.
  induction evs as [|e evs IH] using rev_ind.
  - split_and!; [done|constructor|]. cbn.
    split_and!; try done; unfold delayMs; lia.
  - unfold run in *. rewrite foldl_app. by apply results_in_step_step.
Qed.

(** In every state SearchForm reaches, the result list is the one
    of the debounced term (three lines quoting it, or none when it is
    empty), never of what is being typed; no empty term is searched for
    (a term of blanks is, the test being truthiness without [trim]); and
    once the input has been left alone for the delay, the debounced term
    and the results are those of the input. *)
Theorem search_form_results_follow_debounced_term
    (evs : list event) (dt : nat) :
  let s := run mount evs in
  results s = results_for (debouncedTerm s) ∧
  Forall (λ term, truthy term = true) (searched s) ∧
  results_for " " = mockResults " " ∧
  (mounted s = true → delayMs ≤ dt →
   debouncedTerm (elapse dt s) = searchTerm s ∧
   results (elapse dt s) = results_for (searchTerm s) ∧
   timer (elapse dt s) = None).
Proof.
  cbv zeta. pose proof (results_in_step_run evs) as Hs.
  pose proof (results_in_step_elapse _ dt Hs) as Hs'.
  set (s := run mount evs) in *.
  destruct Hs as (Hres & Hlog & Htm).
  split_and!; [done..|]. intros Hm Hdt.
  destruct Hs' as (Hres' & _ & _). rewrite Hres'.
  enough (debouncedTerm (elapse dt s) = searchTerm s ∧
          timer (elapse dt s) = None) as [-> ->] by done.
  unfold elapse, due_by.
  destruct (timer s) as [[due v]|] eqn:Htimer.
  - destruct Htm as (_ & -> & Hlo & Hhi).
    rewrite decide_True by (unfold delayMs in *; lia).
    unfold fire. search_form_simpl. case_decide as Hsame; [done|].
    destruct (results_in_step_search_effect
                (setDebouncedTerm (searchTerm s) (set_timer None s)))
      as (_ & _ & Ht & _ & _ & _ & Hd); [done|].
    search_form_simpl. by rewrite Ht, Hd.
  - search_form_simpl. destruct Htm as [Hu|Hd]; [congruence|done].
Qed.

End SearchFormFacts.
